(** * The Akash Agent streaming relay and its consumer

    A shallow embedding of
    - [sendStreamingMessage] (components/akash-agent/hooks/useAkashAgent.ts),
    - the relay [handler] (pages/api/akash-agent/stream.ts),
    - [addMessageAtom] (store/agentStore.ts),
    and the properties of the line framing, the event classification, the
    action counter, the final-response accumulator and the relay's error
    paths. *)

From Stdlib Require Import String Ascii.
From Stdlib Require Import List NArith ZArith Bool Arith Lia.
From Stdlib Require Import Floats.SpecFloat.
Import ListNotations.

Set Implicit Arguments.
Set Warnings "-notation-for-abbreviation".

(* ===================================================================== *)
(** ** JavaScript strings *)
(* ===================================================================== *)

(** A JavaScript string is a sequence of UTF-16 code units. *)
Definition code_unit := N.
Definition jsstring := list code_unit.

(** An ASCII literal as a JavaScript string. *)
Definition js (s : string) : jsstring :=
  map N_of_ascii (list_ascii_of_string s).

(** JSON text written with an apostrophe for each quotation mark and a
    vertical bar for each line feed. *)
Definition wire (s : string) : jsstring :=
  map (fun c => if (c =? 39)%N then 34%N else if (c =? 124)%N then 10%N else c)
      (js s).

Definition str_eqb (a b : jsstring) : bool :=
  if list_eq_dec N.eq_dec a b then true else false.

(** [!s] is true for the empty string only. *)
Definition str_truthy (s : jsstring) : bool :=
  match s with [] => false | _ :: _ => true end.

(** The code units [String.prototype.trim] removes: ECMAScript WhiteSpace and
    LineTerminator. *)
Definition is_space (c : code_unit) : bool :=
  ((9 <=? c) && (c <=? 13) || (c =? 32) || (c =? 160) || (c =? 5760)
   || (8192 <=? c) && (c <=? 8202) || (c =? 8232) || (c =? 8233)
   || (c =? 8239) || (c =? 8287) || (c =? 12288) || (c =? 65279))%N.

Fixpoint trimStart (s : jsstring) : jsstring :=
  match s with
  | [] => []
  | c :: s' => if is_space c then trimStart s' else s
  end.

Definition trimEnd (s : jsstring) : jsstring := rev (trimStart (rev s)).

Definition trim (s : jsstring) : jsstring := trimEnd (trimStart s).

Definition newline : code_unit := 10%N.

(** [cons_head c ls] puts [c] in front of the first fragment. *)
Definition cons_head (c : code_unit) (ls : list jsstring) : list jsstring :=
  match ls with
  | [] => [[c]]
  | l :: ls' => (c :: l) :: ls'
  end.

(** [s.split('\n')]: the fragments between the newlines, one more than there
    are newlines; the empty string gives one empty fragment. *)
Fixpoint split_newline (s : jsstring) : list jsstring :=
  match s with
  | [] => [[]]
  | c :: s' =>
      if (c =? newline)%N then [] :: split_newline s'
      else cons_head c (split_newline s')
  end.

(** The fragments that a newline ends, and the fragment after the last
    newline. *)
Definition complete_lines (s : jsstring) : list jsstring :=
  removelast (split_newline s).

Definition residual (s : jsstring) : jsstring := last (split_newline s) [].

(** [Array.prototype.pop]: the last element (undefined on an empty array) and
    the array that is left. *)
Definition pop {A : Type} (l : list A) : option A * list A :=
  match rev l with
  | [] => (None, [])
  | x :: r => (Some x, rev r)
  end.

(** [x || ''] for a string or undefined [x]. *)
Definition or_empty (x : option jsstring) : jsstring :=
  match x with
  | Some s => if str_truthy s then s else []
  | None => []
  end.

(** [String(n)] for a natural number, most significant digit first; the
    fuel is the number of binary digits, which bounds the decimal ones. *)
Fixpoint decimal_fuel (fuel : nat) (n : N) (acc : jsstring) : jsstring :=
  match fuel with
  | O => acc
  | S fuel' =>
      let acc' := (48 + n mod 10)%N :: acc in
      if (n / 10 =? 0)%N then acc' else decimal_fuel fuel' (n / 10)%N acc'
  end.

Definition decimal (n : N) : jsstring := decimal_fuel (S (N.size_nat n)) n [].

Definition nat_to_string (n : nat) : jsstring := decimal (N.of_nat n).

(* ===================================================================== *)
(** ** JSON values *)
(* ===================================================================== *)

(** What [JSON.parse] returns.  Numbers are IEEE 754 doubles; an object keeps
    its members in source order. *)
#[local] Unset Elimination Schemes.
Inductive json : Type :=
| JNull
| JBool (b : bool)
| JNum (n : spec_float)
| JStr (s : jsstring)
| JArr (items : list json)
| JObj (members : list (jsstring * json)).
#[local] Set Elimination Schemes.

(** A JavaScript value read out of parsed data: [None] is [undefined]. *)
Definition jsvalue := option json.

(** The double nearest to an integer. *)
Definition number_of_Z (z : Z) : spec_float := binary_normalize 53 1024 z 0 false.

Definition number_truthy (n : spec_float) : bool :=
  match n with
  | S754_zero _ | S754_nan => false
  | _ => true
  end.

(** ToBoolean. *)
Definition truthy (v : jsvalue) : bool :=
  match v with
  | None | Some JNull => false
  | Some (JBool b) => b
  | Some (JNum n) => number_truthy n
  | Some (JStr s) => str_truthy s
  | Some (JArr _) | Some (JObj _) => true
  end.

(** The member named [k] of an object literal; [JSON.parse] lets a later
    duplicate name overwrite an earlier one. *)
Fixpoint lookup_member (k : jsstring) (ms : list (jsstring * json)) : jsvalue :=
  match ms with
  | [] => None
  | (k', v) :: ms' =>
      match lookup_member k ms' with
      | Some w => Some w
      | None => if str_eqb k k' then Some v else None
      end
  end.

(** [v === 'k'] for a string literal. *)
Definition is_string_lit (v : jsvalue) (k : string) : bool :=
  match v with
  | Some (JStr s) => str_eqb s (js k)
  | _ => false
  end.

(* ===================================================================== *)
(** ** Exceptions and the state-and-exception monad *)
(* ===================================================================== *)

Inductive error_class := Error | TypeError | SyntaxError.

(** A thrown value.  [ErrorObject c m] is [new c(m)]: an instance of [Error]
    whose message is the string conversion of [m] (a string is kept as it
    is).  [Thrown v] is any value that is not an instance of [Error]. *)
Inductive exn :=
| ErrorObject (cls : error_class) (message : json)
| Thrown (v : jsvalue).

Inductive completion (A : Type) : Type :=
| Normal (a : A)
| Throw (e : exn).
Arguments Throw {A} e.

(** A computation over a mutable state [S]: what is assigned before a throw
    stays assigned. *)
Definition M (S A : Type) : Type := S -> completion A * S.

Definition ret {S A} (a : A) : M S A := fun s => (Normal a, s).

Definition bind {S A B} (m : M S A) (k : A -> M S B) : M S B :=
  fun s =>
    match m s with
    | (Normal a, s') => k a s'
    | (Throw e, s') => (Throw e, s')
    end.

Definition throw {S A} (e : exn) : M S A := fun s => (Throw e, s).

Definition modify {S} (f : S -> S) : M S unit := fun s => (Normal tt, f s).

Definition gets {S A} (f : S -> A) : M S A := fun s => (Normal (f s), s).

(** [try { m } catch (e) { h e }]. *)
Definition try_catch {S A} (m : M S A) (h : exn -> M S A) : M S A :=
  fun s =>
    match m s with
    | (Normal a, s') => (Normal a, s')
    | (Throw e, s') => h e s'
    end.

(** [try { m } finally { f }]: [f] always runs; a throw of [f] replaces the
    completion of [m]. *)
Definition try_finally {S A} (m : M S A) (f : M S unit) : M S A :=
  fun s =>
    match m s with
    | (r, s') =>
        match f s' with
        | (Normal _, s'') => (r, s'')
        | (Throw e, s'') => (Throw e, s'')
        end
    end.

Declare Scope js_scope.
Delimit Scope js_scope with js.
Notation "x <- m ;; k" := (bind m (fun x => k))
  (at level 61, m at next level, right associativity) : js_scope.
Notation "m ;; k" := (bind m (fun _ => k))
  (at level 61, right associativity) : js_scope.
Local Open Scope js_scope.

(** [for (const x of xs) body(x)]. *)
Fixpoint for_of {S A} (xs : list A) (body : A -> M S unit) : M S unit :=
  match xs with
  | [] => ret tt
  | x :: xs' => body x ;; for_of xs' body
  end.

(** [data.k] for one of the names [type], [action], [response], [message],
    none of which is on a built-in prototype: reading it off [null] throws a
    TypeError, off an object gives the own member, off anything else gives
    undefined. *)
Definition member {S} (data : json) (k : string) : M S jsvalue :=
  match data with
  | JNull =>
      throw (ErrorObject TypeError
               (JStr (js "Cannot read properties of null" ++ js " (reading '"
                        ++ js k ++ js "')")))
  | JObj ms => ret (lookup_member (js k) ms)
  | _ => ret None
  end.

(** The outcome of [JSON.parse]: a value, or a SyntaxError with the engine's
    message. *)
Inductive parse_result :=
| Parsed (data : json)
| Unparsable (message : jsstring).

(* ===================================================================== *)
(** ** Transport: what [fetch] and the response reader deliver *)
(* ===================================================================== *)

(** A response body as the reader delivers it: the text of each chunk (what
    [decoder.decode(value, { stream: true })] gives for it, see [decode_reads]
    below), then either [done] or a rejected read. *)
Record body_stream := {
  chunks : list jsstring;
  read_failure : option exn
}.

Record Response := {
  ok : bool;
  status : nat;
  statusText : jsstring;
  body : option body_stream
}.

Inductive fetch_result :=
| FetchRejected (e : exn)
| FetchFulfilled (r : Response).

(** The bytes of a read and their text.  [decoder.decode(value, { stream:
    true })] feeds the bytes of [value] one by one to the decoder, which keeps
    in its state what an incomplete sequence needs to be completed by a later
    read; [decode_byte] is the decoder's step. *)
Section Decoder.

Variable decoder_state : Type.
Variable decode_byte : decoder_state -> N -> decoder_state * jsstring.

Fixpoint decode (st : decoder_state) (value : list N) : decoder_state * jsstring :=
  match value with
  | [] => (st, [])
  | b :: rest =>
      let '(st1, t1) := decode_byte st b in
      let '(st2, t2) := decode st1 rest in
      (st2, t1 ++ t2)
  end.

(** The texts of successive reads. *)
Fixpoint decode_reads (st : decoder_state) (values : list (list N))
  : list jsstring :=
  match values with
  | [] => []
  | value :: rest =>
      let '(st1, t) := decode st value in
      t :: decode_reads st1 rest
  end.

End Decoder.

(* ===================================================================== *)
(** ** The consumer: [sendStreamingMessage] *)
(* ===================================================================== *)

Inductive connection_status := connected | disconnected | connecting | error.

Inductive warning :=
| UnknownStreamingDataType (ty : jsvalue)
| FailedToParseStreamingData (parseError : exn) (trimmedLine : jsstring)
| FailedToParseFinalBuffer (parseError : exn).

(** What the function does that can be seen from outside, in order: the calls
    of the [onAction] callback and the console warnings.  [FinalResponseSet]
    is a ghost record of each assignment to [finalResponse]. *)
Inductive event :=
| OnAction (action : json) (count : nat)
| FinalResponseSet (response : json)
| ConsoleWarn (w : warning).

(** The locals [actionCount] and [finalResponse], the connection-status atom
    and the trace of events. *)
Record client := {
  actionCount : nat;
  finalResponse : json;
  connectionStatus : connection_status;
  trace : list event
}.

Definition emit (e : event) : M client unit :=
  modify (fun c => {| actionCount := actionCount c;
                      finalResponse := finalResponse c;
                      connectionStatus := connectionStatus c;
                      trace := trace c ++ [e] |}).

Definition set_actionCount (n : nat) : M client unit :=
  modify (fun c => {| actionCount := n;
                      finalResponse := finalResponse c;
                      connectionStatus := connectionStatus c;
                      trace := trace c |}).

Definition set_finalResponse (v : json) : M client unit :=
  modify (fun c => {| actionCount := actionCount c;
                      finalResponse := v;
                      connectionStatus := connectionStatus c;
                      trace := trace c |}).

Definition setConnectionStatus (st : connection_status) : M client unit :=
  modify (fun c => {| actionCount := actionCount c;
                      finalResponse := finalResponse c;
                      connectionStatus := st;
                      trace := trace c |}).

Definition console_warn (w : warning) : M client unit := emit (ConsoleWarn w).

(** The discriminator of a parsed record: its [type] member. *)
Definition discriminator (data : json) : jsvalue :=
  match data with
  | JObj ms => lookup_member (js "type") ms
  | _ => None
  end.

Definition field (data : json) (k : string) : jsvalue :=
  match data with
  | JObj ms => lookup_member (js k) ms
  | _ => None
  end.

Module Consumer.

Section Runtime.

(** [JSON.parse], a built-in of the runtime. *)
Variable JSON_parse : jsstring -> parse_result.

(** The caller's [onAction] callback: [Some e] when the call with this
    action and count throws [e]. *)
Variable onAction_throws : json -> nat -> option exn.

Definition parse (text : jsstring) : M client json :=
  match JSON_parse text with
  | Parsed data => ret data
  | Unparsable msg => throw (ErrorObject SyntaxError (JStr msg))
  end.

Definition onAction (action : json) (count : nat) : M client unit :=
  emit (OnAction action count) ;;
  match onAction_throws action count with
  | Some e => throw e
  | None => ret tt
  end.

(** [data.message || 'Agent error']. *)
Definition message_or_default (m : jsvalue) : json :=
  match m with
  | Some v => if truthy m then v else JStr (js "Agent error")
  | None => JStr (js "Agent error")
  end.

(** The [switch (data.type)] of the read loop. *)
Definition dispatch (data : json) : M client unit :=
  ty <- member data "type" ;;
  if is_string_lit ty "action" then
    action <- member data "action" ;;
    match action with
    | Some a =>
        if truthy action then
          n <- gets actionCount ;;
          set_actionCount (S n) ;;
          n' <- gets actionCount ;;
          onAction a n'
        else ret tt
    | None => ret tt
    end
  else if is_string_lit ty "final_response" then
    response <- member data "response" ;;
    match response with
    | Some r => if truthy response then
                  set_finalResponse r ;; emit (FinalResponseSet r)
                else ret tt
    | None => ret tt
    end
  else if is_string_lit ty "error" then
    message <- member data "message" ;;
    throw (ErrorObject Error (message_or_default message))
  else
    console_warn (UnknownStreamingDataType ty).

(** The body of [for (const line of lines)]. *)
Definition process_line (line : jsstring) : M client unit :=
  let trimmedLine := trim line in
  if negb (str_truthy trimmedLine) then ret tt
  else
    try_catch
      (data <- parse trimmedLine ;;
       dispatch data)
      (fun parseError =>
         console_warn (FailedToParseStreamingData parseError trimmedLine)).

(** One turn of the [while (true)] loop after a successful read: returns
    the new [buffer]. *)
Definition process_chunk (buffer value : jsstring) : M client jsstring :=
  let buffer := buffer ++ value in
  let lines := split_newline buffer in
  let '(last_line, lines) := pop lines in
  let buffer := or_empty last_line in
  for_of lines process_line ;;
  ret buffer.

(** The [while (true)] loop: [reader.read()] yields the chunks, then
    [done] or a rejection. *)
Fixpoint read_loop (values : list jsstring) (failure : option exn)
         (buffer : jsstring) : M client jsstring :=
  match values with
  | [] =>
      match failure with
      | None => ret buffer
      | Some e => throw e
      end
  | value :: rest =>
      buffer' <- process_chunk buffer value ;;
      read_loop rest failure buffer'
  end.

(** "Process any remaining buffer content". *)
Definition process_remaining (buffer : jsstring) : M client unit :=
  if str_truthy (trim buffer) then
    try_catch
      (data <- parse (trim buffer) ;;
       ty <- member data "type" ;;
       if is_string_lit ty "final_response" then
         response <- member data "response" ;;
         match response with
         | Some r => if truthy response then
                       set_finalResponse r ;; emit (FinalResponseSet r)
                     else ret tt
         | None => ret tt
         end
       else ret tt)
      (fun parseError => console_warn (FailedToParseFinalBuffer parseError))
  else ret tt.

(** From [const decoder = new TextDecoder()] to [return finalResponse]. *)
Definition consume (reader : body_stream) : M client json :=
  set_actionCount 0 ;;
  set_finalResponse (JStr []) ;;
  buffer <- read_loop (chunks reader) (read_failure reader) [] ;;
  process_remaining buffer ;;
  gets finalResponse.

(** [sendStreamingMessage(message, onAction)], given what [fetch] gives.
    The promise resolves with [Normal] and rejects with [Throw].  The toast
    of the outer handler is not represented. *)
Definition sendStreamingMessage (message : jsstring) (fetched : fetch_result)
  : M client json :=
  if negb (str_truthy (trim message)) then
    throw (ErrorObject Error (JStr (js "Message cannot be empty")))
  else
    try_catch
      (setConnectionStatus connecting ;;
       response <- match fetched with
                   | FetchRejected e => throw e
                   | FetchFulfilled r => ret r
                   end ;;
       if negb (ok response) then
         throw (ErrorObject Error
                  (JStr (js "HTTP " ++ nat_to_string (status response)
                           ++ js ": " ++ statusText response)))
       else
         setConnectionStatus connected ;;
         match body response with
         | None =>
             throw (ErrorObject Error (JStr (js "No response stream available")))
         | Some reader => consume reader
         end)
      (fun e => setConnectionStatus error ;; throw e).

(** The locals as [consume] sets them before the loop. *)
Definition reset (c : client) : client :=
  {| actionCount := 0; finalResponse := JStr [];
     connectionStatus := connectionStatus c; trace := trace c |}.

(** The state a line leaves behind, and the state after a run of lines. *)
Definition after_line (c : client) (line : jsstring) : client :=
  snd (process_line line c).

Definition after_lines (lines : list jsstring) (c : client) : client :=
  fold_left after_line lines c.

Definition with_status (st : connection_status) (c : client) : client :=
  {| actionCount := actionCount c; finalResponse := finalResponse c;
     connectionStatus := st; trace := trace c |}.

(** The three ways a line changes the state. *)
Definition warned (c : client) (w : warning) : client :=
  {| actionCount := actionCount c; finalResponse := finalResponse c;
     connectionStatus := connectionStatus c;
     trace := trace c ++ [ConsoleWarn w] |}.

Definition delivered (c : client) (a : json) : client :=
  {| actionCount := S (actionCount c); finalResponse := finalResponse c;
     connectionStatus := connectionStatus c;
     trace := trace c ++ [OnAction a (S (actionCount c))] |}.

Definition answered (c : client) (r : json) : client :=
  {| actionCount := actionCount c; finalResponse := r;
     connectionStatus := connectionStatus c;
     trace := trace c ++ [FinalResponseSet r] |}.

(** What a parsed record other than [null] does in the loop body. *)
Definition record_effect (trimmedLine : jsstring) (data : json) (c : client)
  : client :=
  let ty := discriminator data in
  if is_string_lit ty "action" then
    match field data "action" with
    | Some a =>
        if truthy (Some a) then
          match onAction_throws a (S (actionCount c)) with
          | Some e =>
              warned (delivered c a) (FailedToParseStreamingData e trimmedLine)
          | None => delivered c a
          end
        else c
    | None => c
    end
  else if is_string_lit ty "final_response" then
    match field data "response" with
    | Some r => if truthy (Some r) then answered c r else c
    | None => c
    end
  else if is_string_lit ty "error" then
    warned c (FailedToParseStreamingData
                (ErrorObject Error (message_or_default (field data "message")))
                trimmedLine)
  else warned c (UnknownStreamingDataType ty).

Definition null_type_error : exn :=
  ErrorObject TypeError
    (JStr (js "Cannot read properties of null" ++ js " (reading '"
             ++ js "type" ++ js "')")).

(** [process_line] as a transition of the state, case by case: what the
    loop body does is shown below to be exactly this. *)
Definition line_effect (line : jsstring) (c : client) : client :=
  let trimmedLine := trim line in
  if str_truthy trimmedLine then
    match JSON_parse trimmedLine with
    | Unparsable msg =>
        warned c (FailedToParseStreamingData
                    (ErrorObject SyntaxError (JStr msg)) trimmedLine)
    | Parsed JNull =>
        warned c (FailedToParseStreamingData null_type_error trimmedLine)
    | Parsed data => record_effect trimmedLine data c
    end
  else c.

(** What a parsed record other than [null] does when it is the residual. *)
Definition residual_record_effect (data : json) (c : client) : client :=
  if is_string_lit (discriminator data) "final_response" then
    match field data "response" with
    | Some r => if truthy (Some r) then answered c r else c
    | None => c
    end
  else c.

(** [process_remaining] as a transition of the state. *)
Definition residual_effect (buffer : jsstring) (c : client) : client :=
  if str_truthy (trim buffer) then
    match JSON_parse (trim buffer) with
    | Unparsable msg =>
        warned c (FailedToParseFinalBuffer (ErrorObject SyntaxError (JStr msg)))
    | Parsed JNull => warned c (FailedToParseFinalBuffer null_type_error)
    | Parsed data => residual_record_effect data c
    end
  else c.

(** The state after a whole payload: every complete line, then the
    residual. *)
Definition payload_effect (payload : jsstring) (c : client) : client :=
  residual_effect (residual payload)
    (fold_left (fun c' l => line_effect l c') (complete_lines payload) c).

(** The value a line (or a residual) assigns to [finalResponse], if it
    assigns one: the [response] of a parsed object whose [type] is
    ['final_response'], when that response is truthy. *)
Definition final_payload (line : jsstring) : option json :=
  if str_truthy (trim line) then
    match JSON_parse (trim line) with
    | Parsed (JObj ms) =>
        if is_string_lit (lookup_member (js "type") ms) "final_response" then
          match lookup_member (js "response") ms with
          | Some r => if truthy (Some r) then Some r else None
          | None => None
          end
        else None
    | _ => None
    end
  else None.

Definition overwrite (stored : json) (line : jsstring) : json :=
  match final_payload line with
  | Some r => r
  | None => stored
  end.

End Runtime.

End Consumer.

Import Consumer.

Definition recognized (ty : jsvalue) : bool :=
  is_string_lit ty "action" || is_string_lit ty "final_response"
  || is_string_lit ty "error".

(** The counts given to [onAction], in call order. *)
Definition action_counts (evs : list event) : list nat :=
  flat_map (fun e => match e with OnAction _ n => [n] | _ => [] end) evs.

Definition is_warning (e : event) : bool :=
  match e with
  | ConsoleWarn _ => true
  | _ => false
  end.

(** The events after [t0] carry the counts 1 .. [actionCount]. *)
Definition counted (t0 : list event) (c : client) : Prop :=
  exists evs, trace c = t0 ++ evs /\ action_counts evs = seq 1 (actionCount c).

(** The events after [t0] carry consecutive counts from 1. *)
Definition consecutive (t0 : list event) (c : client) : Prop :=
  exists evs, trace c = t0 ++ evs
              /\ action_counts evs = seq 1 (length (action_counts evs)).

(** A line that is not valid JSON, or that parses to a record whose type
    discriminator is absent or not one of the three kinds. *)
Definition unrecognized_line (JSON_parse : jsstring -> parse_result)
           (line : jsstring) : Prop :=
  (exists msg, JSON_parse (trim line) = Unparsable msg)
  \/ (exists data, JSON_parse (trim line) = Parsed data
                   /\ recognized (discriminator data) = false).

(** A line that is handled as a parsed record of type ['final_response']
    with response [r]. *)
Definition final_response_event (JSON_parse : jsstring -> parse_result)
           (line : jsstring) (r : json) : Prop :=
  str_truthy (trim line) = true
  /\ exists data, JSON_parse (trim line) = Parsed data
                  /\ is_string_lit (discriminator data) "final_response" = true
                  /\ field data "response" = Some r.

(** A well-formed line whose type is ['action'] and whose [action] member is
    absent or falsy. *)
Definition action_line_without_action (JSON_parse : jsstring -> parse_result)
           (line : jsstring) : Prop :=
  exists data, JSON_parse (trim line) = Parsed data
               /\ is_string_lit (discriminator data) "action" = true
               /\ truthy (field data "action") = false.

(** Two states that differ in console warnings only. *)
Definition same_but_warnings (c c' : client) : Prop :=
  actionCount c = actionCount c' /\ finalResponse c = finalResponse c'
  /\ connectionStatus c = connectionStatus c'
  /\ filter (fun e => negb (is_warning e)) (trace c)
     = filter (fun e => negb (is_warning e)) (trace c').

(** Two outcomes of a call with the same completion and states that differ
    in console warnings only. *)
Definition same_outcome_but_warnings {A : Type}
           (o1 o2 : completion A * client) : Prop :=
  fst o1 = fst o2 /\ same_but_warnings (snd o1) (snd o2).

(** A prefix of the payload that ends where a line ends. *)
Definition line_aligned (prefix : jsstring) : Prop :=
  prefix = [] \/ exists p, prefix = p ++ [newline].

(** A successful response whose body arrives as the given chunks. *)
Definition streaming_response (values : list jsstring) (failure : option exn)
  : fetch_result :=
  FetchFulfilled {| ok := true; status := 200; statusText := js "OK";
                    body := Some {| chunks := values; read_failure := failure |} |}.

(* ===================================================================== *)
(** ** An executable [JSON.parse] for running the model *)
(* ===================================================================== *)

(** The theorems below hold for every [JSON.parse]; to run the model on
    concrete streams this module gives a parser of the JSON grammar.  A
    number literal stands for the double nearest to its decimal value, ties
    to even. *)
Module JsonText.

Definition is_json_ws (c : code_unit) : bool :=
  ((c =? 32) || (c =? 9) || (c =? 10) || (c =? 13))%N.

Fixpoint skip_ws (s : jsstring) : jsstring :=
  match s with
  | [] => []
  | c :: s' => if is_json_ws c then skip_ws s' else s
  end.

Definition is_digit (c : code_unit) : bool := ((48 <=? c) && (c <=? 57))%N.

Definition hex_value (c : code_unit) : option N :=
  if is_digit c then Some (c - 48)%N
  else if ((97 <=? c) && (c <=? 102))%N then Some (c - 87)%N
  else if ((65 <=? c) && (c <=? 70))%N then Some (c - 55)%N
  else None.

Definition hex4 (a b c d : code_unit) : option code_unit :=
  match hex_value a, hex_value b, hex_value c, hex_value d with
  | Some x, Some y, Some z, Some w => Some (((x * 16 + y) * 16 + z) * 16 + w)%N
  | _, _, _, _ => None
  end.

(** A one-character escape after a backslash. *)
Definition simple_escape (c : code_unit) : option code_unit :=
  if (c =? 34)%N then Some 34%N          (* quotation mark *)
  else if (c =? 92)%N then Some 92%N     (* reverse solidus *)
  else if (c =? 47)%N then Some 47%N     (* solidus *)
  else if (c =? 98)%N then Some 8%N      (* b: backspace *)
  else if (c =? 102)%N then Some 12%N    (* f: form feed *)
  else if (c =? 110)%N then Some 10%N    (* n: line feed *)
  else if (c =? 114)%N then Some 13%N    (* r: carriage return *)
  else if (c =? 116)%N then Some 9%N     (* t: tab *)
  else None.

(** The characters of a string literal after its opening quote, up to and
    including the closing quote. *)
Fixpoint string_chars (s : jsstring) : option (jsstring * jsstring) :=
  match s with
  | [] => None
  | c :: r =>
      if (c =? 34)%N then Some ([], r)
      else if (c <? 32)%N then None
      else if (c =? 92)%N then
        match r with
        | e :: r1 =>
            if (e =? 117)%N then
              match r1 with
              | h1 :: h2 :: h3 :: h4 :: r2 =>
                  match hex4 h1 h2 h3 h4, string_chars r2 with
                  | Some u, Some (t, rest) => Some (u :: t, rest)
                  | _, _ => None
                  end
              | _ => None
              end
            else
              match simple_escape e, string_chars r1 with
              | Some u, Some (t, rest) => Some (u :: t, rest)
              | _, _ => None
              end
        | [] => None
        end
      else
        match string_chars r with
        | Some (t, rest) => Some (c :: t, rest)
        | None => None
        end
  end.

(** The double nearest to [m * 10^e], ties to even; [m] is not negative.
    A value of more than 310 decimal digits before the point is beyond the
    largest double, one below [10^-330] is nearer to zero than to the
    smallest. *)
Definition round_decimal (negative : bool) (m e : Z) : spec_float :=
  let d := Z.of_nat (List.length (decimal (Z.to_N m))) in
  if (m <=? 0)%Z then S754_zero negative
  else if (310 <? d + e)%Z then S754_infinity negative
  else if (d + e <? -330)%Z then S754_zero negative
  else if (0 <=? e)%Z then
    binary_normalize 53 1024
      ((if negative then -1 else 1) * (m * 10 ^ e))%Z 0 false
  else
    SFdiv 53 1024 (S754_finite negative (Z.to_pos m) 0)
                  (S754_finite false (Z.to_pos (10 ^ (- e))) 0).

(** The digits at the front of [s] and what follows. *)
Fixpoint span_digits (s : jsstring) : jsstring * jsstring :=
  match s with
  | c :: r =>
      if is_digit c then let '(d, rest) := span_digits r in (c :: d, rest)
      else ([], s)
  | [] => ([], [])
  end.

Definition digits_value (d : jsstring) : Z :=
  fold_left (fun acc c => acc * 10 + Z.of_N (c - 48))%Z d 0%Z.

(** The integer part of a number literal: [0], or digits that do not start
    with [0]. *)
Definition integer_part (s : jsstring) : option (jsstring * jsstring) :=
  match s with
  | c :: r =>
      if (c =? 48)%N then
        match r with
        | d :: _ => if is_digit d then None else Some ([c], r)
        | [] => Some ([c], r)
        end
      else if is_digit c then Some (span_digits s)
      else None
  | [] => None
  end.

(** The digits of the fraction, if there is one: a point and at least one
    digit. *)
Definition fraction_part (s : jsstring) : option (jsstring * jsstring) :=
  match s with
  | c :: r =>
      if (c =? 46)%N then
        match span_digits r with
        | ([], _) => None
        | (d, rest) => Some (d, rest)
        end
      else Some ([], s)
  | [] => Some ([], s)
  end.

(** The exponent, if there is one: [e] or [E], a sign or none, and at least
    one digit. *)
Definition exponent_part (s : jsstring) : option (Z * jsstring) :=
  match s with
  | c :: r =>
      if ((c =? 101) || (c =? 69))%N then
        let '(negative, r1) :=
          match r with
          | x :: r' =>
              if (x =? 45)%N then (true, r')
              else if (x =? 43)%N then (false, r')
              else (false, r)
          | [] => (false, r)
          end in
        match span_digits r1 with
        | ([], _) => None
        | (d, rest) =>
            Some ((if negative then - digits_value d else digits_value d)%Z,
                  rest)
        end
      else Some (0%Z, s)
  | [] => Some (0%Z, s)
  end.

Definition number (s : jsstring) : option (json * jsstring) :=
  let '(negative, s1) :=
    match s with
    | c :: r => if (c =? 45)%N then (true, r) else (false, s)
    | [] => (false, s)
    end in
  match integer_part s1 with
  | Some (int, s2) =>
      match fraction_part s2 with
      | Some (frac, s3) =>
          match exponent_part s3 with
          | Some (e, rest) =>
              Some (JNum (round_decimal negative (digits_value (int ++ frac))
                            (e - Z.of_nat (List.length frac))%Z), rest)
          | None => None
          end
      | None => None
      end
  | None => None
  end.

Fixpoint strip_prefix (p s : jsstring) : option jsstring :=
  match p, s with
  | [], _ => Some s
  | a :: p', b :: s' => if (a =? b)%N then strip_prefix p' s' else None
  | _ :: _, [] => None
  end.

Definition literal (s : jsstring) : option (json * jsstring) :=
  match strip_prefix (js "true") s with
  | Some r => Some (JBool true, r)
  | None =>
      match strip_prefix (js "false") s with
      | Some r => Some (JBool false, r)
      | None =>
          match strip_prefix (js "null") s with
          | Some r => Some (JNull, r)
          | None => number s
          end
      end
  end.

(** A value, the elements of an array after a first one, and the members
    of an object after a first one; [fuel] bounds the number of calls. *)
Fixpoint value (fuel : nat) (s : jsstring) : option (json * jsstring) :=
  match fuel with
  | O => None
  | S fuel' =>
      match skip_ws s with
      | [] => None
      | c :: r =>
          if (c =? 34)%N then
            match string_chars r with
            | Some (t, rest) => Some (JStr t, rest)
            | None => None
            end
          else if (c =? 91)%N then
            match skip_ws r with
            | d :: r' =>
                if (d =? 93)%N then Some (JArr [], r')
                else match elements fuel' r with
                     | Some (vs, rest) => Some (JArr vs, rest)
                     | None => None
                     end
            | [] => None
            end
          else if (c =? 123)%N then
            match skip_ws r with
            | d :: r' =>
                if (d =? 125)%N then Some (JObj [], r')
                else match members fuel' r with
                     | Some (ms, rest) => Some (JObj ms, rest)
                     | None => None
                     end
            | [] => None
            end
          else literal (c :: r)
      end
  end
with elements (fuel : nat) (s : jsstring) : option (list json * jsstring) :=
  match fuel with
  | O => None
  | S fuel' =>
      match value fuel' s with
      | Some (v, r) =>
          match skip_ws r with
          | c :: r' =>
              if (c =? 44)%N then
                match elements fuel' r' with
                | Some (vs, rest) => Some (v :: vs, rest)
                | None => None
                end
              else if (c =? 93)%N then Some ([v], r')
              else None
          | [] => None
          end
      | None => None
      end
  end
with members (fuel : nat) (s : jsstring)
     : option (list (jsstring * json) * jsstring) :=
  match fuel with
  | O => None
  | S fuel' =>
      match skip_ws s with
      | q :: r0 =>
          if (q =? 34)%N then
            match string_chars r0 with
            | Some (k, r1) =>
                match skip_ws r1 with
                | colon :: r2 =>
                    if (colon =? 58)%N then
                      match value fuel' r2 with
                      | Some (v, r3) =>
                          match skip_ws r3 with
                          | c :: r4 =>
                              if (c =? 44)%N then
                                match members fuel' r4 with
                                | Some (ms, rest) => Some ((k, v) :: ms, rest)
                                | None => None
                                end
                              else if (c =? 125)%N then Some ([(k, v)], r4)
                              else None
                          | [] => None
                          end
                      | None => None
                      end
                    else None
                | [] => None
                end
            | None => None
            end
          else None
      | [] => None
      end
  end.

Definition JSON_parse (text : jsstring) : parse_result :=
  match value (2 * List.length text + 2) text with
  | Some (v, rest) =>
      match skip_ws rest with
      | [] => Parsed v
      | _ :: _ => Unparsable (js "Unexpected non-whitespace character after JSON")
      end
  | None => Unparsable (js "Unexpected token or end of JSON input")
  end.


(** *** [JSON.stringify] *)

Definition hex_digit (d : N) : code_unit :=
  if (d <? 10)%N then (48 + d)%N else (87 + d)%N.

(** The escape of a code unit as a backslash, [u] and four hexadecimal
    digits. *)
Definition unicode_escape (c : code_unit) : jsstring :=
  [92; 117; hex_digit (c / 4096 mod 16); hex_digit (c / 256 mod 16);
   hex_digit (c / 16 mod 16); hex_digit (c mod 16)]%N.

Definition is_high_surrogate (c : code_unit) : bool :=
  ((55296 <=? c) && (c <=? 56319))%N.

Definition is_low_surrogate (c : code_unit) : bool :=
  ((56320 <=? c) && (c <=? 57343))%N.

(** A code unit that is not part of a surrogate pair, inside a string
    literal. *)
Definition quote_unit (c : code_unit) : jsstring :=
  if (c =? 8)%N then [92; 98]%N
  else if (c =? 9)%N then [92; 116]%N
  else if (c =? 10)%N then [92; 110]%N
  else if (c =? 12)%N then [92; 102]%N
  else if (c =? 13)%N then [92; 114]%N
  else if (c =? 34)%N then [92; 34]%N
  else if (c =? 92)%N then [92; 92]%N
  else if (c <? 32)%N then unicode_escape c
  else if is_high_surrogate c || is_low_surrogate c then unicode_escape c
  else [c].

Fixpoint quote_units (s : jsstring) : jsstring :=
  match s with
  | [] => []
  | c :: r =>
      match r with
      | d :: r' =>
          if is_high_surrogate c && is_low_surrogate d
          then c :: d :: quote_units r'
          else quote_unit c ++ quote_units r
      | [] => quote_unit c
      end
  end.

Definition quote (s : jsstring) : jsstring := [34%N] ++ quote_units s ++ [34%N].

(** *** [Number::toString] *)

Definition same_double (a b : spec_float) : bool :=
  match a, b with
  | S754_finite s1 m1 e1, S754_finite s2 m2 e2 =>
      Bool.eqb s1 s2 && (Zpos m1 =? Zpos m2)%Z && (e1 =? e2)%Z
  | S754_zero s1, S754_zero s2 => Bool.eqb s1 s2
  | S754_infinity s1, S754_infinity s2 => Bool.eqb s1 s2
  | S754_nan, S754_nan => true
  | _, _ => false
  end.

(** The number of times [num] is to be multiplied by 10 to reach [den],
    counted from [j]. *)
Fixpoint scale_up (fuel : nat) (num den j : Z) : Z :=
  match fuel with
  | O => j
  | S fuel' =>
      if (den <=? num)%Z then j else scale_up fuel' (num * 10)%Z den (j + 1)%Z
  end.

(** The [n] with [10^(n-1) <= num / den < 10^n]. *)
Definition decimal_exponent (num den : Z) : Z :=
  if (den <=? num)%Z
  then Z.of_nat (List.length (decimal (Z.to_N (num / den))))
  else (1 - scale_up (S (Z.to_nat (Z.log2 den))) num den 0)%Z.

(** The decimals of [k] digits next to [num / den], below and above, and
    the one to print if one of them reads back as [x]: the nearer one, the
    even one if both are as near.  The result is [s] and [n], for the value
    [s * 10^(n-k)]. *)
Definition shortest_at (x : spec_float) (num den n k : Z) : option (Z * Z) :=
  let '(P, Q) := if (0 <=? k - n)%Z then (num * 10 ^ (k - n), den)%Z
                 else (num, den * 10 ^ (n - k))%Z in
  let lo := (P / Q)%Z in
  let r := (P mod Q)%Z in
  let hi := (lo + 1)%Z in
  let lo_ok := same_double (round_decimal false lo (n - k)) x in
  let hi_ok := same_double (round_decimal false hi (n - k)) x in
  let up := if (hi =? 10 ^ k)%Z then (10 ^ (k - 1), n + 1)%Z else (hi, n) in
  if lo_ok && hi_ok then
    if (2 * r <? Q)%Z then Some (lo, n)
    else if (Q <? 2 * r)%Z then Some up
    else if Z.even lo then Some (lo, n) else Some up
  else if lo_ok then Some (lo, n)
  else if hi_ok then Some up
  else None.

(** The fewest digits that read back as [x]; 17 always do. *)
Fixpoint shortest (fuel : nat) (x : spec_float) (num den n k : Z) : Z * Z :=
  match fuel with
  | O => (0%Z, n)
  | S fuel' =>
      match shortest_at x num den n k with
      | Some sn => sn
      | None => shortest fuel' x num den n (k + 1)%Z
      end
  end.

Definition zeros (n : Z) : jsstring := repeat 48%N (Z.to_nat n).

(** The text for the digits [s] and the exponent [n]. *)
Definition layout (s n : Z) : jsstring :=
  let ds := decimal (Z.to_N s) in
  let k := Z.of_nat (List.length ds) in
  if ((k <=? n) && (n <=? 21))%Z then ds ++ zeros (n - k)
  else if ((0 <? n) && (n <=? 21))%Z then
    firstn (Z.to_nat n) ds ++ js "." ++ skipn (Z.to_nat n) ds
  else if ((-6 <? n) && (n <=? 0))%Z then js "0." ++ zeros (- n) ++ ds
  else
    let e := (n - 1)%Z in
    let exponent :=
      (if (e <? 0)%Z then js "-" else js "+") ++ decimal (Z.abs_N e) in
    if (k =? 1)%Z then ds ++ js "e" ++ exponent
    else firstn 1 ds ++ js "." ++ skipn 1 ds ++ js "e" ++ exponent.

(** [Number::toString(x)] in radix 10: the shortest decimal that reads back
    as [x], laid out as the language defines.  A [spec_float] that is not a
    double is taken as the double nearest to it. *)
Definition Number_toString (x : spec_float) : jsstring :=
  match x with
  | S754_nan => js "NaN"
  | S754_zero _ => js "0"
  | S754_infinity s => (if s then js "-" else []) ++ js "Infinity"
  | S754_finite s m e =>
      match binary_normalize 53 1024 (Zpos m) e false with
      | S754_finite _ m' e' =>
          let '(num, den) :=
            match e' with
            | Z0 => (Zpos m', 1%Z)
            | Zpos p => (Zpos m' * 2 ^ Zpos p, 1)%Z
            | Zneg p => (Zpos m', 2 ^ Zpos p)%Z
            end in
          let n := decimal_exponent num den in
          let '(digits, n') :=
            shortest 17 (S754_finite false m' e') num den n 1%Z in
          (if s then js "-" else []) ++ layout digits n'
      | S754_infinity _ => (if s then js "-" else []) ++ js "Infinity"
      | _ => js "0"
      end
  end.

(** A number in [JSON.stringify]: [null] when it is not finite. *)
Definition stringify_number (n : spec_float) : jsstring :=
  match n with
  | S754_infinity _ | S754_nan => js "null"
  | _ => Number_toString n
  end.

Fixpoint join_with (sep : jsstring) (parts : list jsstring) : jsstring :=
  match parts with
  | [] => []
  | [x] => x
  | x :: rest => x ++ sep ++ join_with sep rest
  end.

(** [JSON.stringify(v)] for a value whose objects have distinct member names
    that are not array indices, so that the members are written in the order
    they are listed. *)
Fixpoint JSON_stringify (v : json) : jsstring :=
  match v with
  | JNull => js "null"
  | JBool true => js "true"
  | JBool false => js "false"
  | JNum n => stringify_number n
  | JStr s => quote s
  | JArr items =>
      js "[" ++ join_with (js ",") (map JSON_stringify items) ++ js "]"
  | JObj ms =>
      js "{"
      ++ join_with (js ",")
           (map (fun kv => quote (fst kv) ++ js ":" ++ JSON_stringify (snd kv)) ms)
      ++ js "}"
  end.

End JsonText.

(** A callback that never throws. *)
Definition quiet_callback (_ : json) (_ : nat) : option exn := None.

Definition fresh_client : client :=
  {| actionCount := 0; finalResponse := JStr [];
     connectionStatus := disconnected; trace := [] |}.


(* ===================================================================== *)
(** ** The relay: [handler] of pages/api/akash-agent/stream.ts *)
(* ===================================================================== *)

Module Relay.

Record AgentConfig := {
  agent_id : option jsstring;
  api_key : option jsstring;
  base_url : option jsstring
}.

(** The three properties the handler reads out of [req.body], named as the
    [StreamRequest] interface names them; [message] is any value, since the
    handler tests its type at run time. *)
Record StreamRequest := {
  message : jsvalue;
  timeout : jsvalue;
  agent_config : option AgentConfig
}.

(** [req.body] at run time.  The handler reads it with a destructuring
    pattern, which throws for [null] and [undefined] and reads the three
    properties of any other value: [BodyValue] is such a value, seen through
    these properties. *)
Inductive request_body :=
| BodyNull
| BodyUndefined
| BodyValue (fields : StreamRequest).

Record NextApiRequest := {
  method : option jsstring;
  req_body : request_body
}.

(** [req.body?.message]: the message a request carries. *)
Definition request_message (req : NextApiRequest) : jsvalue :=
  match req_body req with
  | BodyValue fields => message fields
  | BodyNull | BodyUndefined => None
  end.

Record process_env := {
  AGENT_ID : option jsstring;
  AGENT_BASE_URL : option jsstring;
  AGENT_PROXY_URL : option jsstring
}.

(** What the handler does to the response and to the upstream, in order.
    [ResJson] sends the body and ends the response.  Console output, the
    headers of [writeHead] and the headers and body given to [fetch] are
    not represented. *)
Inductive effect :=
| ResStatus (code : nat)
| ResJson (payload : json)
| ResWriteHead (code : nat)
| ResWrite (chunk : jsstring)
| ResEnd
| Fetch (url : jsstring)
| ReleaseLock.

Definition server := list effect.

Definition perform (e : effect) : M server unit := modify (fun log => log ++ [e]).

(** [a || b] on strings that may be undefined. *)
Definition or_else (a b : option jsstring) : option jsstring :=
  match a with
  | Some s => if str_truthy s then a else b
  | None => b
  end.

Definition opt_truthy (a : option jsstring) : bool :=
  match a with
  | Some s => str_truthy s
  | None => false
  end.

(** A string that may be undefined inside a template literal. *)
Definition template (a : option jsstring) : jsstring :=
  match a with
  | Some s => s
  | None => js "undefined"
  end.

(** [agent_config?.base_url || process.env.AGENT_BASE_URL ||
    process.env.AGENT_PROXY_URL]. *)
Definition resolve_baseUrl (c : option AgentConfig) (env : process_env)
  : option jsstring :=
  or_else (or_else (match c with
                    | Some cfg => base_url cfg
                    | None => None
                    end)
                   (AGENT_BASE_URL env))
          (AGENT_PROXY_URL env).

(** The guard [!message || typeof message !== 'string' || !message.trim()]:
    [Some s] when [message] passes it. *)
Definition checked_message (message : jsvalue) : option jsstring :=
  if negb (truthy message) then None
  else match message with
       | Some (JStr s) => if negb (str_truthy (trim s)) then None else Some s
       | _ => None
       end.

Definition is_POST (m : option jsstring) : bool :=
  match m with
  | Some s => str_eqb s (js "POST")
  | None => false
  end.

Definition error_body (text : string) : json := JObj [(js "error", JStr (js text))].

(** [error instanceof Error ? error.message : 'Agent communication failed']. *)
Definition error_message (e : exn) : json :=
  match e with
  | ErrorObject _ m => m
  | Thrown _ => JStr (js "Agent communication failed")
  end.

(** [const { message, timeout = 14400, agent_config }: StreamRequest =
    req.body].  The text of the [TypeError] is the engine's, here in the
    wording of V8. *)
Definition destructure (b : request_body) : M server StreamRequest :=
  match b with
  | BodyValue fields => ret fields
  | BodyNull =>
      throw (ErrorObject TypeError
               (JStr (js "Cannot destructure property 'message' of 'req.body' as it is null.")))
  | BodyUndefined =>
      throw (ErrorObject TypeError
               (JStr (js "Cannot destructure property 'message' of 'req.body' as it is undefined.")))
  end.

Definition errorData (e : exn) (now : spec_float) : json :=
  JObj [(js "type", JStr (js "error"));
        (js "message", error_message e);
        (js "timestamp", JNum now)].

Section Handler.

(** [JSON.stringify], a built-in of the runtime. *)
Variable JSON_stringify : json -> jsstring.

(** The error record written for [e]: [JSON.stringify(errorData) + '\n']. *)
Definition error_record (e : exn) (now : spec_float) : effect :=
  ResWrite (JSON_stringify (errorData e now) ++ [newline]).

(** The inner [while (true)] loop: every chunk read is written to the
    response as it is. *)
Fixpoint forward (values : list jsstring) (failure : option exn) : M server unit :=
  match values with
  | [] =>
      match failure with
      | None => ret tt
      | Some e => throw e
      end
  | chunk :: rest => perform (ResWrite chunk) ;; forward rest failure
  end.

(** The handler from the guard on [message] to its end, for the
    properties read out of [req.body], given the environment, what the
    upstream [fetch] gives and the value of [Date.now()]. *)
Definition respond (fields : StreamRequest) (env : process_env)
           (upstream : fetch_result) (now : spec_float) : M server unit :=
  match checked_message (message fields) with
  | None =>
      perform (ResStatus 400) ;;
      perform (ResJson (error_body
        "Message is required and must be a non-empty string"))
  | Some _ =>
      let baseUrl := resolve_baseUrl (agent_config fields) env in
      if negb (opt_truthy baseUrl) then
        perform (ResStatus 500) ;;
        perform (ResJson (error_body
          "Agent configuration missing. AGENT_BASE_URL or AGENT_PROXY_URL environment variable required."))
      else
        perform (ResWriteHead 200) ;;
        try_finally
          (try_catch
             (perform (Fetch (template baseUrl ++ js "/stream")) ;;
              agentResponse <- match upstream with
                               | FetchRejected e => throw e
                               | FetchFulfilled r => ret r
                               end ;;
              if negb (ok agentResponse) then
                throw (ErrorObject Error
                         (JStr (js "Agent proxy error: "
                                  ++ nat_to_string (status agentResponse)
                                  ++ js " " ++ statusText agentResponse)))
              else
                match body agentResponse with
                | None =>
                    throw (ErrorObject Error
                             (JStr (js "No response stream available from agent")))
                | Some reader =>
                    try_finally
                      (forward (chunks reader) (read_failure reader))
                      (perform ReleaseLock)
                end)
             (fun e =>
                perform (ResWrite (JSON_stringify (errorData e now) ++ [newline]))))
          (perform ResEnd)
  end.

(** [handler(req, res)]: the guard on the method, the reading of
    [req.body], which is outside every [try], and the rest. *)
Definition handler (req : NextApiRequest) (env : process_env)
           (upstream : fetch_result) (now : spec_float) : M server unit :=
  if negb (is_POST (method req)) then
    perform (ResStatus 405) ;; perform (ResJson (error_body "Method not allowed"))
  else
    fields <- destructure (req_body req) ;;
    respond fields env upstream now.

End Handler.

(** Observations on a log of effects. *)
Definition is_terminal (e : effect) : bool :=
  match e with
  | ResJson _ | ResEnd => true
  | _ => false
  end.

Definition is_fetch (e : effect) : bool :=
  match e with
  | Fetch _ => true
  | _ => false
  end.

Definition writes (log : server) : list jsstring :=
  flat_map (fun e => match e with ResWrite c => [c] | _ => [] end) log.

Definition terminal_signals (log : server) : nat :=
  List.length (filter is_terminal log).

Definition upstream_requests (log : server) : nat :=
  List.length (filter is_fetch log).



(** A request that passes the three guards, with the base address it
    resolves to. *)
Definition reaches_upstream (req : NextApiRequest) (env : process_env)
           (url : jsstring) : Prop :=
  method req = Some (js "POST")
  /\ exists fields,
       req_body req = BodyValue fields
       /\ (exists s, message fields = Some (JStr s) /\ trim s <> [])
       /\ resolve_baseUrl (agent_config fields) env = Some url
       /\ url <> [].


(** A message that is missing, not a string, or made of white space only. *)
Definition message_unusable (m : jsvalue) : Prop :=
  m = None
  \/ (exists v, m = Some v /\ forall s, v <> JStr s)
  \/ (exists s, m = Some (JStr s) /\ Forall (fun u => is_space u = true) s).

(** A string that is undefined or empty. *)
Definition absent (a : option jsstring) : Prop := a = None \/ a = Some [].

(** No base address in the request nor in the environment: each of the
    three places is undefined or holds the empty string. *)
Definition base_address_missing (fields : StreamRequest) (env : process_env)
  : Prop :=
  (forall cfg, agent_config fields = Some cfg -> absent (base_url cfg))
  /\ absent (AGENT_BASE_URL env) /\ absent (AGENT_PROXY_URL env).

(** The run answered with a status in [[lo, hi)] and a JSON body of the shape
    [{ error: text }], and did nothing else. *)
Definition rejected_with (lo hi : nat) (log : server)
           (out : completion unit * server) : Prop :=
  exists code text,
    lo <= code < hi
    /\ out = (Normal tt, log ++ [ResStatus code; ResJson (error_body text)]).


(** C8 as it is stated for the message, for every request: a request whose
    message is missing, not a string or blank is answered with a 4xx status
    and a JSON error body. *)
Definition unusable_message_always_rejected : Prop :=
  forall (JSON_stringify : json -> jsstring) req env upstream now log,
    message_unusable (request_message req) ->
    rejected_with 400 500 log (handler JSON_stringify req env upstream now log).

(** A request, an environment and upstream outcomes for the examples. *)
Definition example_request (m : option jsstring) (msg : jsvalue)
           (base : option jsstring) : NextApiRequest :=
  {| method := m;
     req_body :=
       BodyValue {| message := msg; timeout := None;
                    agent_config := Some {| agent_id := None; api_key := None;
                                            base_url := base |} |} |}.

(** A POST whose body is the JSON text [null]. *)
Definition null_body_post : NextApiRequest :=
  {| method := Some (js "POST"); req_body := BodyNull |}.

Definition destructuring_null : exn :=
  ErrorObject TypeError
    (JStr (js "Cannot destructure property 'message' of 'req.body' as it is null.")).

Definition empty_env : process_env :=
  {| AGENT_ID := None; AGENT_BASE_URL := None; AGENT_PROXY_URL := None |}.

Definition service_unavailable : fetch_result :=
  FetchFulfilled {| ok := false; status := 503;
                    statusText := js "Service Unavailable"; body := None |}.

Definition example_now : spec_float := number_of_Z 1719676117000.

End Relay.

(* ===================================================================== *)
(** ** The store: store/agentStore.ts *)
(* ===================================================================== *)

Module Store.

Inductive sender := user | agent.

Inductive message_status := sending | sent | delivered | failed | completed | pending.

Record ChatMessage := {
  id : jsstring;
  type : sender;
  content : jsstring;
  timestamp : Z;
  status : option message_status;
  sdl : option jsstring;
  actionType : option jsstring;
  sequenceIndex : option spec_float
}.

(** The atoms of the chat state and their values. *)
Record atoms := {
  chatMessagesAtom : list ChatMessage;
  chatInputAtom : jsstring;
  isAgentTypingAtom : bool;
  currentConversationAtom : option jsstring;
  generatedSDLAtom : option jsstring;
  agentConnectionStatusAtom : connection_status
}.

Definition initial : atoms :=
  {| chatMessagesAtom := []; chatInputAtom := []; isAgentTypingAtom := false;
     currentConversationAtom := None; generatedSDLAtom := None;
     agentConnectionStatusAtom := disconnected |}.

(** [set(chatMessagesAtom, v)]. *)
Definition set_chatMessagesAtom (v : list ChatMessage) (st : atoms) : atoms :=
  {| chatMessagesAtom := v;
     chatInputAtom := chatInputAtom st;
     isAgentTypingAtom := isAgentTypingAtom st;
     currentConversationAtom := currentConversationAtom st;
     generatedSDLAtom := generatedSDLAtom st;
     agentConnectionStatusAtom := agentConnectionStatusAtom st |}.

(** The write function of [addMessageAtom]. *)
Definition addMessageAtom (message : ChatMessage) (st : atoms) : atoms :=
  let currentMessages := chatMessagesAtom st in
  set_chatMessagesAtom (currentMessages ++ [message]) st.

End Store.

(** The claim that the second of two [final_response] events always decides
    the result, stated without a condition on its response. *)
Definition last_write_wins_unconditionally : Prop :=
  forall (JSON_parse : jsstring -> parse_result)
         (onAction_throws : json -> nat -> option exn)
         (message : jsstring) (values : list jsstring)
         (pre mid post : list jsstring) (first second : jsstring)
         (r1 r2 : json) (c : client),
    str_truthy (trim message) = true ->
    split_newline (concat values) = pre ++ first :: mid ++ second :: post ->
    final_response_event JSON_parse first r1 ->
    final_response_event JSON_parse second r2 ->
    (forall l r, In l (pre ++ mid ++ post) -> ~ final_response_event JSON_parse l r) ->
    fst (sendStreamingMessage JSON_parse onAction_throws message
           (streaming_response values None) c)
    = Normal r2.

(** Lines of the wire format used in the examples. *)
Definition chat_action_line : jsstring :=
  wire "{'type':'action','action':{'command':'chat','parameters':{'message':'Hi'},'timestamp':1,'sequence_index':1}}".

Definition chat_action : json :=
  JObj [(js "command", JStr (js "chat"));
        (js "parameters", JObj [(js "message", JStr (js "Hi"))]);
        (js "timestamp", JNum (number_of_Z 1));
        (js "sequence_index", JNum (number_of_Z 1))].

Definition final_line (text : string) : jsstring :=
  wire "{'type':'final_response','response':'" ++ js text ++ wire "'}".

Definition final_record (text : string) : json :=
  JObj [(js "type", JStr (js "final_response")); (js "response", JStr (js text))].

Definition error_line : jsstring := wire "{'type':'error','message':'boom'}".

Definition ping_line : jsstring := wire "{'type':'ping'}".

Definition empty_action_line : jsstring := wire "{'type':'action','action':null}".

(** One chunk per code unit. *)
Definition one_by_one (payload : jsstring) : list jsstring :=
  map (fun u => [u]) payload.

(** The call of the examples: a non-empty message, the reference parser and
    a callback that does not throw, from a fresh state. *)
Definition run (values : list jsstring) : completion json * client :=
  sendStreamingMessage JsonText.JSON_parse quiet_callback (js "Deploy nginx")
    (streaming_response values None) fresh_client.

(* ===================================================================== *)
(** ** The rest of the store: store/agentStore.ts *)
(* ===================================================================== *)

Module AgentStore.
Import Store.

(** [Partial<ChatMessage>], the [updates] of [updateMessageAtom]: each key is
    absent ([None]) or present with a value of the field's type; a key of an
    optional field may be present with the value [undefined]
    ([Some None]). *)
Record ChatMessageUpdates := {
  new_id : option jsstring;
  new_type : option sender;
  new_content : option jsstring;
  new_timestamp : option Z;
  new_status : option (option message_status);
  new_sdl : option (option jsstring);
  new_actionType : option (option jsstring);
  new_sequenceIndex : option (option spec_float)
}.

Definition no_updates : ChatMessageUpdates :=
  {| new_id := None; new_type := None; new_content := None;
     new_timestamp := None; new_status := None; new_sdl := None;
     new_actionType := None; new_sequenceIndex := None |}.

(** One key of a spread: the later object wins where it has the key. *)
Definition later {A : Type} (old : A) (u : option A) : A :=
  match u with
  | Some v => v
  | None => old
  end.

(** [{ ...msg, ...updates }]. *)
Definition spread (msg : ChatMessage) (updates : ChatMessageUpdates)
  : ChatMessage :=
  {| id := later (id msg) (new_id updates);
     type := later (type msg) (new_type updates);
     content := later (content msg) (new_content updates);
     timestamp := later (timestamp msg) (new_timestamp updates);
     status := later (status msg) (new_status updates);
     sdl := later (sdl msg) (new_sdl updates);
     actionType := later (actionType msg) (new_actionType updates);
     sequenceIndex := later (sequenceIndex msg) (new_sequenceIndex updates) |}.

(** [{ ...first, ...second }] for two sets of updates. *)
Definition later_key {A : Type} (first second : option A) : option A :=
  match second with
  | Some v => Some v
  | None => first
  end.

Definition merge (first second : ChatMessageUpdates) : ChatMessageUpdates :=
  {| new_id := later_key (new_id first) (new_id second);
     new_type := later_key (new_type first) (new_type second);
     new_content := later_key (new_content first) (new_content second);
     new_timestamp := later_key (new_timestamp first) (new_timestamp second);
     new_status := later_key (new_status first) (new_status second);
     new_sdl := later_key (new_sdl first) (new_sdl second);
     new_actionType := later_key (new_actionType first) (new_actionType second);
     new_sequenceIndex :=
       later_key (new_sequenceIndex first) (new_sequenceIndex second) |}.

(** The callback of [currentMessages.map] in [updateMessageAtom]. *)
Definition update_one (messageId : jsstring) (updates : ChatMessageUpdates)
           (msg : ChatMessage) : ChatMessage :=
  if str_eqb (id msg) messageId then spread msg updates else msg.

(** The write function of [updateMessageAtom]. *)
Definition updateMessageAtom (messageId : jsstring)
           (updates : ChatMessageUpdates) (st : atoms) : atoms :=
  let currentMessages := chatMessagesAtom st in
  let updatedMessages := map (update_one messageId updates) currentMessages in
  set_chatMessagesAtom updatedMessages st.

(** The write functions of [setAgentTypingAtom] and
    [setConnectionStatusAtom]. *)
Definition setAgentTypingAtom (isTyping : bool) (st : atoms) : atoms :=
  {| chatMessagesAtom := chatMessagesAtom st;
     chatInputAtom := chatInputAtom st;
     isAgentTypingAtom := isTyping;
     currentConversationAtom := currentConversationAtom st;
     generatedSDLAtom := generatedSDLAtom st;
     agentConnectionStatusAtom := agentConnectionStatusAtom st |}.

Definition setConnectionStatusAtom (s : connection_status) (st : atoms) : atoms :=
  {| chatMessagesAtom := chatMessagesAtom st;
     chatInputAtom := chatInputAtom st;
     isAgentTypingAtom := isAgentTypingAtom st;
     currentConversationAtom := currentConversationAtom st;
     generatedSDLAtom := generatedSDLAtom st;
     agentConnectionStatusAtom := s |}.

(** [set(chatInputAtom, v)], the setter [useAtom(chatInputAtom)] gives. *)
Definition set_chatInputAtom (v : jsstring) (st : atoms) : atoms :=
  {| chatMessagesAtom := chatMessagesAtom st;
     chatInputAtom := v;
     isAgentTypingAtom := isAgentTypingAtom st;
     currentConversationAtom := currentConversationAtom st;
     generatedSDLAtom := generatedSDLAtom st;
     agentConnectionStatusAtom := agentConnectionStatusAtom st |}.

(** [status === 'connected']. *)
Definition is_connected (s : connection_status) : bool :=
  match s with
  | connected => true
  | _ => false
  end.

Definition is_agent (m : ChatMessage) : bool :=
  match type m with
  | agent => true
  | user => false
  end.

Definition is_user (m : ChatMessage) : bool :=
  match type m with
  | user => true
  | agent => false
  end.

(** [m.sdl] as a condition. *)
Definition has_sdl (m : ChatMessage) : bool :=
  match sdl m with
  | Some s => str_truthy s
  | None => false
  end.

(** [xs[xs.length - 1] || null] and [xs[0]] for a list of objects. *)
Definition last_item {A : Type} (xs : list A) : option A :=
  nth_error xs (length xs - 1).

Definition first_item {A : Type} (xs : list A) : option A := nth_error xs 0.

(** The derived atoms. *)
Definition hasMessagesAtom (st : atoms) : bool :=
  0 <? length (chatMessagesAtom st).

Definition canSendMessageAtom (st : atoms) : bool :=
  let input := chatInputAtom st in
  let isTyping := isAgentTypingAtom st in
  let connectionStatus := agentConnectionStatusAtom st in
  (0 <? length (trim input)) && negb isTyping && is_connected connectionStatus.

Definition lastAgentMessageAtom (st : atoms) : option ChatMessage :=
  let messages := chatMessagesAtom st in
  let agentMessages := filter is_agent messages in
  last_item agentMessages.

Record ConversationSummary := {
  totalMessages : nat;
  userMessages : nat;
  agentMessages : nat;
  hasSDL : bool;
  startTime : option Z;
  lastActivity : option Z
}.

Definition conversationSummaryAtom (st : atoms) : ConversationSummary :=
  let messages := chatMessagesAtom st in
  let users := filter is_user messages in
  let agents := filter is_agent messages in
  {| totalMessages := length messages;
     userMessages := length users;
     agentMessages := length agents;
     hasSDL := existsb has_sdl messages;
     startTime := option_map timestamp (first_item messages);
     lastActivity := option_map timestamp (last_item messages) |}.

Definition messageCountAtom (st : atoms) : nat := length (chatMessagesAtom st).

Definition isConversationActiveAtom (st : atoms) : bool :=
  let hasMessages := hasMessagesAtom st in
  let isTyping := isAgentTypingAtom st in
  hasMessages || isTyping.

Definition shouldShowWelcomeAtom (st : atoms) : bool :=
  let hasMessages := hasMessagesAtom st in
  let isTyping := isAgentTypingAtom st in
  negb hasMessages && negb isTyping.

Definition MAX_VISIBLE_MESSAGES : nat := 100.

(** [xs.slice(-n)] for a positive [n]: the last [n] elements, all of them
    when there are fewer. *)
Definition slice_last {A : Type} (n : nat) (xs : list A) : list A :=
  skipn (length xs - n) xs.

Definition visibleMessagesAtom (st : atoms) : list ChatMessage :=
  let allMessages := chatMessagesAtom st in
  if MAX_VISIBLE_MESSAGES <? length allMessages
  then slice_last MAX_VISIBLE_MESSAGES allMessages
  else allMessages.

(** The atoms whose value has the type [TemplateCreation] of [@src/types],
    which is not among the sources, and the modal flag. *)
Section Template.

Variable TemplateCreation : Type.

Record all_atoms := {
  chat : atoms;
  agentTemplateAtom : option TemplateCreation;
  isAgentModalOpenAtom : bool
}.

(** The write function of [clearChatAtom]. *)
Definition clearChatAtom (st : all_atoms) : all_atoms :=
  {| chat := {| chatMessagesAtom := [];
                chatInputAtom := [];
                isAgentTypingAtom := false;
                currentConversationAtom := None;
                generatedSDLAtom := None;
                agentConnectionStatusAtom := agentConnectionStatusAtom (chat st) |};
     agentTemplateAtom := None;
     isAgentModalOpenAtom := isAgentModalOpenAtom st |}.

(** The write function of [setGeneratedSDLAtom]; [template] is [None] when
    the argument is left out. *)
Definition setGeneratedSDLAtom (sdl : jsstring) (template : option TemplateCreation)
           (st : all_atoms) : all_atoms :=
  {| chat := {| chatMessagesAtom := chatMessagesAtom (chat st);
                chatInputAtom := chatInputAtom (chat st);
                isAgentTypingAtom := isAgentTypingAtom (chat st);
                currentConversationAtom := currentConversationAtom (chat st);
                generatedSDLAtom := Some sdl;
                agentConnectionStatusAtom := agentConnectionStatusAtom (chat st) |};
     agentTemplateAtom := match template with
                          | Some t => Some t
                          | None => agentTemplateAtom st
                          end;
     isAgentModalOpenAtom := isAgentModalOpenAtom st |}.

(** A write function of the chat atoms, on all the atoms. *)
Definition on_chat (f : atoms -> atoms) (st : all_atoms) : all_atoms :=
  {| chat := f (chat st);
     agentTemplateAtom := agentTemplateAtom st;
     isAgentModalOpenAtom := isAgentModalOpenAtom st |}.

End Template.

End AgentStore.

(* ===================================================================== *)
(** ** The chat state hook: [useChatState] *)
(* ===================================================================== *)

Module ChatState.
Import Store AgentStore.

(** The [options] of [addAgentMessage]. *)
Record AgentMessageOptions := {
  opt_sdl : option jsstring;
  opt_actionType : option jsstring;
  opt_sequenceIndex : option spec_float;
  opt_status : option message_status
}.

(** [options?.k]. *)
Definition optional {A B : Type} (options : option A) (k : A -> option B)
  : option B :=
  match options with
  | Some o => k o
  | None => None
  end.

(** [n] as a condition, for a number that may be undefined. *)
Definition index_truthy (n : option spec_float) : bool :=
  match n with
  | Some x => number_truthy x
  | None => false
  end.

Section Hook.

(** The string conversion of a number in a template literal, a built-in of
    the runtime. *)
Variable Number_toString : spec_float -> jsstring.

(** [addUserMessage(content)], given what [nanoid()] and [new Date()] give:
    the message returned and the store after. *)
Definition addUserMessage (content : jsstring) (nanoid : jsstring) (now : Z)
           (st : atoms) : ChatMessage * atoms :=
  let message :=
    {| id := nanoid; type := user; content := trim content; timestamp := now;
       status := Some sent; sdl := None; actionType := None;
       sequenceIndex := None |} in
  (message, addMessageAtom message st).

(** The [id] of an agent message:
    [options?.sequenceIndex ? `action-${options.sequenceIndex}` : nanoid()]. *)
Definition agent_message_id (options : option AgentMessageOptions)
           (nanoid : jsstring) : jsstring :=
  match optional options opt_sequenceIndex with
  | Some n => if number_truthy n then js "action-" ++ Number_toString n else nanoid
  | None => nanoid
  end.

(** [addAgentMessage(content, options)]. *)
Definition addAgentMessage (content : jsstring)
           (options : option AgentMessageOptions) (nanoid : jsstring) (now : Z)
           (st : atoms) : ChatMessage * atoms :=
  let message :=
    {| id := agent_message_id options nanoid;
       type := agent;
       content := trim content;
       timestamp := now;
       status := match optional options opt_status with
                 | Some s => Some s
                 | None => Some completed
                 end;
       sdl := optional options opt_sdl;
       actionType := optional options opt_actionType;
       sequenceIndex := optional options opt_sequenceIndex |} in
  (message, addMessageAtom message st).

(** [addErrorMessage(error)]. *)
Definition addErrorMessage (error_text : jsstring) (nanoid : jsstring) (now : Z)
           (st : atoms) : ChatMessage * atoms :=
  let message :=
    {| id := nanoid; type := agent;
       content := if str_truthy error_text then error_text
                  else js "I encountered an error processing your request. Please try again.";
       timestamp := now; status := Some failed; sdl := None;
       actionType := None; sequenceIndex := None |} in
  (message, addMessageAtom message st).

(** [updateExistingMessage(messageId, updates)]. *)
Definition updateExistingMessage (messageId : jsstring)
           (updates : ChatMessageUpdates) (st : atoms) : atoms :=
  updateMessageAtom messageId updates st.

End Hook.

Definition has_type (ty : sender) (m : ChatMessage) : bool :=
  match ty, type m with
  | user, user | agent, agent => true
  | _, _ => false
  end.

(** [getLastMessage(type)] on [messages], the visible messages. *)
Definition getLastMessage (ty : option sender) (st : atoms) : option ChatMessage :=
  let messages := visibleMessagesAtom st in
  match ty with
  | None => last_item messages
  | Some t =>
      let filteredMessages := filter (has_type t) messages in
      last_item filteredMessages
  end.

Definition getSDLMessages (st : atoms) : list ChatMessage :=
  filter has_sdl (visibleMessagesAtom st).

Definition is_failed (m : ChatMessage) : bool :=
  match status m with
  | Some failed => true
  | _ => false
  end.

Record ConversationStats := {
  stat_totalMessages : nat;
  stat_userMessages : nat;
  stat_agentMessages : nat;
  stat_sdlMessages : nat;
  stat_errorMessages : nat;
  stat_conversationDuration : Z;
  stat_lastActivity : option Z
}.

(** [getConversationStats()], given the value of [Date.now()]. *)
Definition getConversationStats (date_now : Z) (st : atoms) : ConversationStats :=
  let messages := visibleMessagesAtom st in
  {| stat_totalMessages := length messages;
     stat_userMessages := length (filter (has_type user) messages);
     stat_agentMessages := length (filter (has_type agent) messages);
     stat_sdlMessages := length (filter has_sdl messages);
     stat_errorMessages := length (filter is_failed messages);
     stat_conversationDuration :=
       match messages with
       | first :: _ => (date_now - timestamp first)%Z
       | [] => 0%Z
       end;
     stat_lastActivity := option_map timestamp (last_item messages) |}.

End ChatState.

(* ===================================================================== *)
(** ** More on the consumer and the relay *)
(* ===================================================================== *)

(** The actions given to [onAction], in call order. *)
Definition delivered_actions (evs : list event) : list json :=
  flat_map (fun e => match e with OnAction a _ => [a] | _ => [] end) evs.

(** The action a line hands to [onAction], if it hands one: the [action] of
    a parsed record whose [type] is ['action'], when that action is
    truthy. *)
Definition action_of_line (JSON_parse : jsstring -> parse_result)
           (line : jsstring) : option json :=
  if str_truthy (trim line) then
    match JSON_parse (trim line) with
    | Parsed data =>
        if is_string_lit (discriminator data) "action" then
          match field data "action" with
          | Some a => if truthy (Some a) then Some a else None
          | None => None
          end
        else None
    | Unparsable _ => None
    end
  else None.

Definition actions_of_lines (JSON_parse : jsstring -> parse_result)
           (lines : list jsstring) : list json :=
  flat_map (fun l => match action_of_line JSON_parse l with
                     | Some a => [a]
                     | None => []
                     end) lines.

(** The events after [t0] are the deliveries of the actions of [lines]. *)
Definition tracked (JSON_parse : jsstring -> parse_result)
           (t0 : list event) (lines : list jsstring) (c : client) : Prop :=
  exists evs, trace c = t0 ++ evs
              /\ delivered_actions evs = actions_of_lines JSON_parse lines.

(** The calls of [onAction], in call order: the action and the count. *)
Definition onAction_calls (evs : list event) : list (json * nat) :=
  flat_map (fun e => match e with OnAction a n => [(a, n)] | _ => [] end) evs.

(** The lines the read loop handles during a call: the lines of the body
    that a newline ends, when the message is not blank and the response is
    ok and has a body; none otherwise. *)
Definition streamed_lines (message : jsstring) (fetched : fetch_result)
  : list jsstring :=
  if str_truthy (trim message) then
    match fetched with
    | FetchFulfilled r =>
        if ok r then
          match body r with
          | Some reader => complete_lines (concat (chunks reader))
          | None => []
          end
        else []
    | FetchRejected _ => []
    end
  else [].

(** White space other than the line feed. *)
Definition is_blank (u : code_unit) : Prop :=
  is_space u = true /\ u <> newline.

(** The other calls of the hook [useAkashAgent]. *)
Module AgentClient.

(** [await response.json()], given what it gives. *)
Definition response_json {S : Type} (parsed : completion json) : M S json :=
  fun s => (parsed, s).

(** [testConnection()], given what [fetch] and [response.json()] give.  The
    console output of the handler is not represented. *)
Definition testConnection (fetched : fetch_result) (parsed : completion json)
  : M client bool :=
  try_catch
    (setConnectionStatus connecting ;;
     response <- match fetched with
                 | FetchRejected e => throw e
                 | FetchFulfilled r => ret r
                 end ;;
     if negb (ok response) then
       setConnectionStatus error ;; ret false
     else
       data <- response_json parsed ;;
       status <- member data "status" ;;
       if is_string_lit status "connected" then
         setConnectionStatus connected ;; ret true
       else
         setConnectionStatus error ;; ret false)
    (fun _ => setConnectionStatus error ;; ret false).

(** [stopAgent(reason)]. *)
Definition stopAgent (fetched : fetch_result) : M client bool :=
  try_catch
    (response <- match fetched with
                 | FetchRejected e => throw e
                 | FetchFulfilled r => ret r
                 end ;;
     ret (ok response))
    (fun _ => ret false).

(** [sendMessage(message)]. *)
Definition sendMessage (message : jsstring) (fetched : fetch_result)
           (parsed : completion json) : M client json :=
  if negb (str_truthy (trim message)) then
    throw (ErrorObject Error (JStr (js "Message cannot be empty")))
  else
    try_catch
      (response <- match fetched with
                   | FetchRejected e => throw e
                   | FetchFulfilled r => ret r
                   end ;;
       if negb (ok response) then
         throw (ErrorObject Error
                  (JStr (js "HTTP " ++ nat_to_string (status response)
                           ++ js ": " ++ statusText response)))
       else response_json parsed)
      (fun e => throw e).

End AgentClient.

(* ===================================================================== *)
(** ** The chat input and the SDL preview *)
(* ===================================================================== *)

(** [s.includes(needle)]. *)
Fixpoint includes (needle s : jsstring) : bool :=
  match JsonText.strip_prefix needle s with
  | Some _ => true
  | None =>
      match s with
      | [] => false
      | _ :: s' => includes needle s'
      end
  end.

(** [parts.join('\n')]. *)
Definition join_lines (parts : list jsstring) : jsstring :=
  JsonText.join_with [newline] parts.

Module ChatInput.
Import Store AgentStore.

(** The props the component reads in [handleSend]. *)
Record Props := {
  disabled : bool;
  connectionStatus : connection_status;
  debugMode : bool
}.

Definition MAX_CHARS : nat := 2000.
Definition WARN_THRESHOLD : nat := 1800.

(** The atoms, the local [isSending] and the messages [onStreamingMessage]
    was called with, in call order. *)
Record component := {
  store : atoms;
  isSending : bool;
  calls : list jsstring
}.

(** What the body of [handleSend] reads: the values of the render in which
    this instance of the callback was created, not those of the moment of
    the call. *)
Record captured := {
  c_debugMode : bool;
  c_disabled : bool;
  c_connectionStatus : connection_status;
  c_input : jsstring;
  c_isAgentTyping : bool;
  c_canSend : bool
}.

(** The values of a render with the props [props] and the atoms [st]:
    what a callback created in that render captures. *)
Definition render (props : Props) (st : atoms) : captured :=
  {| c_debugMode := debugMode props;
     c_disabled := disabled props;
     c_connectionStatus := connectionStatus props;
     c_input := chatInputAtom st;
     c_isAgentTyping := isAgentTypingAtom st;
     c_canSend := canSendMessageAtom st |}.

(** The instance [useCallback] gives in a render with [props] and [st]: the
    dependencies [[canSend, input, disabled, isAgentTyping,
    connectionStatus, onStreamingMessage, setInput]] have their values of
    this render, since a changed dependency makes a new instance;
    [debugMode] is not among them and has the value of the render in which
    the instance was created.  This is the [handleSend] the send button
    calls; [handleKeyDown], whose own dependencies are [[disabled,
    isAgentTyping, setInput]], calls the instance of the render in which it
    was created itself. *)
Definition memoised (created_debugMode : bool) (props : Props) (st : atoms)
  : captured :=
  {| c_debugMode := created_debugMode;
     c_disabled := disabled props;
     c_connectionStatus := connectionStatus props;
     c_input := chatInputAtom st;
     c_isAgentTyping := isAgentTypingAtom st;
     c_canSend := canSendMessageAtom st |}.

(** The condition under which [handleSend] goes on:
    [canSendInDebug || canSendNormal]. *)
Definition may_send (cap : captured) : bool :=
  let canSendInDebug :=
    c_debugMode cap && str_truthy (trim (c_input cap))
    && negb (c_isAgentTyping cap) && negb (c_disabled cap) in
  let canSendNormal :=
    negb (c_debugMode cap) && c_canSend cap && str_truthy (trim (c_input cap))
    && negb (c_disabled cap) && negb (c_isAgentTyping cap)
    && is_connected (c_connectionStatus cap) in
  canSendInDebug || canSendNormal.

(** [handleSend()], for the instance that captured [cap].
    [onStreamingMessage] is the callback of the parent: what it does to the
    atoms and whether its promise resolves ([true]) or rejects.  The
    setters act on the atoms as they are at the call.  The console output
    of the [catch] is not represented. *)
Definition handleSend (cap : captured)
           (onStreamingMessage : jsstring -> atoms -> atoms * bool)
           (st : component) : component :=
  if negb (may_send cap) then st
  else
    let messageToSend := trim (c_input cap) in
    if MAX_CHARS <? length messageToSend then st
    else
      let cleared := set_chatInputAtom [] (store st) in
      let '(after_call, resolved) := onStreamingMessage messageToSend cleared in
      {| store := if resolved then after_call
                  else set_chatInputAtom messageToSend after_call;
         isSending := false;
         calls := calls st ++ [messageToSend] |}.

(** The values the render derives; [charCount] is the local state that
    follows [input.length]. *)
Definition isInputDisabled (props : Props) (st : atoms) : bool :=
  disabled props || isAgentTypingAtom st
  || (negb (debugMode props) && negb (is_connected (connectionStatus props))).

Definition isOverLimit (charCount : nat) : bool := MAX_CHARS <? charCount.

Definition isNearLimit (charCount : nat) : bool := WARN_THRESHOLD <? charCount.

Definition canSendMessage (props : Props) (st : atoms) (charCount : nat) : bool :=
  if debugMode props then
    str_truthy (trim (chatInputAtom st)) && negb (disabled props)
    && negb (isAgentTypingAtom st) && negb (isOverLimit charCount)
  else
    canSendMessageAtom st && str_truthy (trim (chatInputAtom st))
    && negb (isInputDisabled props st) && negb (isOverLimit charCount).

End ChatInput.

Module SDLPreview.

Definition lines (sdl : jsstring) : list jsstring := split_newline sdl.

(** [lines.slice(0, 6)]. *)
Definition previewLines (sdl : jsstring) : list jsstring := firstn 6 (lines sdl).

Definition hasMoreLines (sdl : jsstring) : bool := 6 <? length (lines sdl).

Definition isValidSDL (sdl : jsstring) : bool :=
  includes (js "services:") sdl
  && (includes (js "deployment:") sdl || includes (js "version:") sdl).

(** The text in the [pre] element:
    [isExpanded ? sdl : previewLines.join('\n')]. *)
Definition shown (isExpanded : bool) (sdl : jsstring) : jsstring :=
  if isExpanded then sdl else join_lines (previewLines sdl).

End SDLPreview.

(* ===================================================================== *)
(** ** Inputs of the concrete instances *)
(* ===================================================================== *)

Definition indexed (n : Z) : ChatState.AgentMessageOptions :=
  {| ChatState.opt_sdl := None; ChatState.opt_actionType := None;
     ChatState.opt_sequenceIndex := Some (number_of_Z n);
     ChatState.opt_status := None |}.

Definition two_actions_then_done : jsstring :=
  chat_action_line ++ [newline] ++ chat_action_line ++ [newline]
  ++ final_line "Done".

Definition action_then_empty_response : jsstring :=
  chat_action_line ++ [newline] ++ final_line "".

Definition connection_reset : exn :=
  ErrorObject TypeError (JStr (js "network error")).

Definition nginx_request : Relay.NextApiRequest :=
  Relay.example_request (Some (js "POST")) (Some (JStr (js "Deploy nginx")))
    (Some (js "http://agent:8000")).

Definition upstream_answer (values : list jsstring) (failure : option exn)
  : Response :=
  {| ok := true; status := 200; statusText := js "OK";
     body := Some {| chunks := values; read_failure := failure |} |}.

Definition healthy : json := JObj [(js "status", JStr (js "connected"))].

Definition plain_props : ChatInput.Props :=
  {| ChatInput.disabled := false; ChatInput.connectionStatus := connected;
     ChatInput.debugMode := false |}.

Definition typed (input : jsstring) : ChatInput.component :=
  {| ChatInput.store :=
       AgentStore.set_chatInputAtom input
         (AgentStore.setConnectionStatusAtom connected Store.initial);
     ChatInput.isSending := false;
     ChatInput.calls := [] |}.

(** Debug mode switched on, with a disconnected agent, and an input typed
    in that state. *)
Definition debugging_props : ChatInput.Props :=
  {| ChatInput.disabled := false; ChatInput.connectionStatus := disconnected;
     ChatInput.debugMode := true |}.

Definition offline_input : ChatInput.component :=
  {| ChatInput.store := AgentStore.set_chatInputAtom (js "Deploy nginx")
                          Store.initial;
     ChatInput.isSending := false;
     ChatInput.calls := [] |}.

Definition rejecting (_ : jsstring) (s : Store.atoms) : Store.atoms * bool :=
  (s, false).

Definition resolving (_ : jsstring) (s : Store.atoms) : Store.atoms * bool :=
  (s, true).

(** A decoder of one- and two-byte UTF-8 sequences, one byte at a time: a
    lead byte is kept until its continuation byte comes. *)
Definition two_byte_decoder (st : option N) (b : N) : option N * jsstring :=
  match st with
  | Some lead => (None, [(lead - 192) * 64 + (b - 128)])
  | None => if (192 <=? b) then (Some b, []) else (None, [b])
  end%N.

(* ===================================================================== *)
(** * Properties *)
(* ===================================================================== *)

(** ** Line framing *)

Lemma cons_head_nonempty c ls : cons_head c ls <> [].
Proof. destruct ls; discriminate. Qed.

Lemma split_newline_nonempty s : split_newline s <> [].
Proof.
  destruct s as [|c s]; simpl; [discriminate|].
  destruct (c =? newline)%N; [discriminate | apply cons_head_nonempty].
Qed.

Lemma cons_head_app c l ls :
  l <> [] -> cons_head c (l ++ ls) = cons_head c l ++ ls.
Proof. destruct l; [congruence | reflexivity]. Qed.

(** Splitting a concatenation: the complete lines of the first part, then
    the split of what the first part left over followed by the second. *)
Lemma split_newline_app a b :
  split_newline (a ++ b)
  = complete_lines a ++ split_newline (residual a ++ b).
Proof.
  unfold complete_lines, residual.
  induction a as [|c a IH]; simpl; [reflexivity|].
  pose proof (split_newline_nonempty a) as Hne.
  destruct (c =? newline)%N eqn:Hc.
  - rewrite IH. destruct (split_newline a) as [|l ls]; [congruence|].
    reflexivity.
  - rewrite IH.
    destruct (split_newline a) as [|l [|l' ls]] eqn:Hs; [congruence| |].
    + simpl. rewrite Hc. reflexivity.
    + change (removelast (l :: l' :: ls)) with (l :: removelast (l' :: ls)).
      change (last (l :: l' :: ls) []) with (last (l' :: ls) []).
      change (cons_head c (l :: l' :: ls)) with ((c :: l) :: l' :: ls).
      change (removelast ((c :: l) :: l' :: ls))
        with ((c :: l) :: removelast (l' :: ls)).
      change (last ((c :: l) :: l' :: ls) []) with (last (l' :: ls) []).
      reflexivity.
Qed.

Lemma split_newline_decompose s :
  split_newline s = complete_lines s ++ [residual s].
Proof.
  unfold complete_lines, residual.
  apply app_removelast_last, split_newline_nonempty.
Qed.

Lemma complete_lines_app a b :
  complete_lines (a ++ b) = complete_lines a ++ complete_lines (residual a ++ b).
Proof.
  unfold complete_lines at 1. rewrite split_newline_app.
  rewrite (split_newline_decompose (residual a ++ b)), app_assoc.
  apply removelast_last.
Qed.

Lemma residual_app a b : residual (a ++ b) = residual (residual a ++ b).
Proof.
  unfold residual at 1. rewrite split_newline_app.
  rewrite (split_newline_decompose (residual a ++ b)), app_assoc.
  apply last_last.
Qed.

(** Across a newline the fragments of both sides are put side by side. *)
Lemma split_newline_join a b :
  split_newline (a ++ newline :: b) = split_newline a ++ split_newline b.
Proof.
  induction a as [|c a IH]; simpl; [reflexivity|].
  destruct (c =? newline)%N; rewrite IH; [reflexivity|].
  apply cons_head_app, split_newline_nonempty.
Qed.

Lemma split_newline_line l :
  Forall (fun c => c <> newline) l -> split_newline l = [l].
Proof.
  induction 1 as [|c l Hc _ IH]; simpl; [reflexivity|].
  destruct (N.eqb_spec c newline); [contradiction|]. rewrite IH. reflexivity.
Qed.

Lemma pop_split s : pop (split_newline s) = (Some (residual s), complete_lines s).
Proof.
  unfold pop. rewrite split_newline_decompose, rev_unit.
  cbv iota. rewrite rev_involutive. reflexivity.
Qed.

Lemma or_empty_Some s : or_empty (Some s) = s.
Proof. destruct s; reflexivity. Qed.

Lemma residual_aligned prefix : line_aligned prefix -> residual prefix = [].
Proof.
  intros [->|[p ->]]; [reflexivity|].
  unfold residual. change (p ++ [newline]) with (p ++ newline :: []).
  rewrite split_newline_join. apply last_last.
Qed.

Lemma complete_lines_aligned prefix rest :
  line_aligned prefix ->
  complete_lines (prefix ++ rest) = complete_lines prefix ++ complete_lines rest.
Proof.
  intros H. rewrite complete_lines_app, (residual_aligned H). reflexivity.
Qed.

Lemma residual_aligned_app prefix rest :
  line_aligned prefix -> residual (prefix ++ rest) = residual rest.
Proof.
  intros H. rewrite residual_app, (residual_aligned H). reflexivity.
Qed.

(** A whole line followed by its newline is one complete line. *)
Lemma complete_lines_line line rest :
  Forall (fun c => c <> newline) line ->
  complete_lines (line ++ newline :: rest) = line :: complete_lines rest.
Proof.
  intros H. unfold complete_lines.
  rewrite split_newline_join, (split_newline_line H).
  simpl. destruct (split_newline rest) eqn:E; [|reflexivity].
  now apply split_newline_nonempty in E.
Qed.

Lemma residual_line line rest :
  Forall (fun c => c <> newline) line ->
  residual (line ++ newline :: rest) = residual rest.
Proof.
  intros H. unfold residual.
  rewrite split_newline_join, (split_newline_line H).
  simpl. destruct (split_newline rest) eqn:E; [|reflexivity].
  now apply split_newline_nonempty in E.
Qed.

(** ** The decoder *)

Section DecoderFacts.

Variable decoder_state : Type.
Variable decode_byte : decoder_state -> N -> decoder_state * jsstring.

Lemma decode_app st a b :
  decode decode_byte st (a ++ b)
  = (fst (decode decode_byte (fst (decode decode_byte st a)) b),
     snd (decode decode_byte st a)
     ++ snd (decode decode_byte (fst (decode decode_byte st a)) b)).
Proof.
  revert st. induction a as [|x a IH]; intros st; simpl.
  - now destruct (decode decode_byte st b).
  - destruct (decode_byte st x) as [st1 t1]. rewrite IH.
    destruct (decode decode_byte st1 a) as [st2 t2]. simpl.
    destruct (decode decode_byte st2 b) as [st3 t3]. simpl.
    now rewrite app_assoc.
Qed.

(** The texts of the reads, put together, are the text of the bytes put
    together: however the bytes are cut into reads. *)
Lemma decode_reads_concat values : forall st,
  concat (decode_reads decode_byte st values)
  = snd (decode decode_byte st (concat values)).
Proof.
  induction values as [|v values IH]; intros st; simpl; [reflexivity|].
  rewrite decode_app.
  destruct (decode decode_byte st v) as [st1 t]. simpl. now rewrite IH.
Qed.

End DecoderFacts.

(** ** The read loop *)

Section ConsumerFacts.

Variable JSON_parse : jsstring -> parse_result.
Variable onAction_throws : json -> nat -> option exn.

Notation process_line := (process_line JSON_parse onAction_throws).
Notation process_chunk := (process_chunk JSON_parse onAction_throws).
Notation process_remaining := (process_remaining JSON_parse).
Notation read_loop := (read_loop JSON_parse onAction_throws).
Notation consume := (consume JSON_parse onAction_throws).
Notation after_line := (after_line JSON_parse onAction_throws).
Notation after_lines := (after_lines JSON_parse onAction_throws).

(** No line makes the loop body throw: whatever is thrown while a line is
    handled is caught by the [catch] of that line. *)
Lemma process_line_normal line c :
  process_line line c = (Normal tt, after_line c line).
Proof.
  unfold after_line, Consumer.process_line.
  destruct (negb (str_truthy (trim line))); [reflexivity|].
  unfold try_catch.
  match goal with |- context [match ?m c with _ => _ end] =>
    destruct (m c) as [[[]|e] c'] end; reflexivity.
Qed.

Lemma for_of_lines lines c :
  for_of lines process_line c = (Normal tt, after_lines lines c).
Proof.
  revert c. induction lines as [|l lines IH]; intros c; [reflexivity|].
  simpl. unfold bind at 1. rewrite process_line_normal. apply IH.
Qed.

Lemma after_lines_app a b c :
  after_lines (a ++ b) c = after_lines b (after_lines a c).
Proof. apply fold_left_app. Qed.

Lemma process_remaining_normal buffer c :
  process_remaining buffer c = (Normal tt, snd (process_remaining buffer c)).
Proof.
  unfold Consumer.process_remaining.
  destruct (str_truthy (trim buffer)); [|reflexivity].
  unfold try_catch.
  match goal with |- context [match ?m c with _ => _ end] =>
    destruct (m c) as [[[]|e] c'] end; reflexivity.
Qed.

Lemma process_chunk_spec buffer value c :
  process_chunk buffer value c
  = (Normal (residual (buffer ++ value)),
     after_lines (complete_lines (buffer ++ value)) c).
Proof.
  unfold Consumer.process_chunk. rewrite pop_split, or_empty_Some.
  unfold bind. rewrite for_of_lines. reflexivity.
Qed.

(** After any prefix [p] of the payload the loop holds [residual p] in its
    buffer and has handled [complete_lines p]; further chunks extend the
    prefix. *)
Lemma read_loop_spec values failure : forall p c,
  read_loop values failure (residual p) (after_lines (complete_lines p) c)
  = (match failure with
     | None => Normal (residual (p ++ concat values))
     | Some e => Throw e
     end,
     after_lines (complete_lines (p ++ concat values)) c).
Proof.
  induction values as [|v values IH]; intros p c; simpl.
  - rewrite app_nil_r. destruct failure; reflexivity.
  - unfold bind. rewrite process_chunk_spec.
    rewrite <- after_lines_app, <- complete_lines_app, <- residual_app.
    rewrite IH, app_assoc. reflexivity.
Qed.

Lemma read_loop_payload values failure c :
  read_loop values failure [] c
  = (match failure with
     | None => Normal (residual (concat values))
     | Some e => Throw e
     end,
     after_lines (complete_lines (concat values)) c).
Proof. exact (read_loop_spec values failure [] c). Qed.

Lemma consume_spec reader c :
  consume reader c
  = let c1 := after_lines (complete_lines (concat (chunks reader))) (reset c) in
    match read_failure reader with
    | Some e => (Throw e, c1)
    | None =>
        let c2 := snd (process_remaining (residual (concat (chunks reader))) c1) in
        (Normal (finalResponse c2), c2)
    end.
Proof.
  unfold Consumer.consume, bind, set_actionCount, set_finalResponse, modify, gets.
  simpl. fold (reset c). rewrite read_loop_payload.
  destruct (read_failure reader); [reflexivity|].
  rewrite process_remaining_normal. reflexivity.
Qed.

End ConsumerFacts.

Section LineFacts.

#[local] Arguments truthy : simpl never.
#[local] Arguments is_string_lit : simpl never.
#[local] Arguments lookup_member : simpl never.

Variable JSON_parse : jsstring -> parse_result.
Variable onAction_throws : json -> nat -> option exn.

Notation process_line := (process_line JSON_parse onAction_throws).
Notation after_line := (after_line JSON_parse onAction_throws).
Notation after_lines := (after_lines JSON_parse onAction_throws).
Notation line_effect := (line_effect JSON_parse onAction_throws).

(** The loop body refines to [line_effect]. *)
Lemma after_line_effect line c : after_line c line = line_effect line c.
Proof.
  unfold Consumer.after_line, Consumer.process_line, Consumer.line_effect.
  destruct (str_truthy (trim line)); simpl; [|reflexivity].
  unfold try_catch, bind, parse.
  destruct (JSON_parse (trim line)) as [data|msg]; [|reflexivity].
  destruct data as [|b|n|s|items|ms]; try reflexivity.
  unfold record_effect, dispatch, member, bind, ret, discriminator, field. simpl.
  destruct (is_string_lit (lookup_member (js "type") ms) "action").
  { destruct (lookup_member (js "action") ms) as [a|]; [|reflexivity].
    destruct (truthy (Some a)); [|reflexivity].
    unfold gets, set_actionCount, modify, onAction, emit, bind, modify. simpl.
    destruct (onAction_throws a (S (actionCount c))); reflexivity. }
  destruct (is_string_lit (lookup_member (js "type") ms) "final_response").
  { destruct (lookup_member (js "response") ms) as [r|]; [|reflexivity].
    destruct (truthy (Some r)); reflexivity. }
  destruct (is_string_lit (lookup_member (js "type") ms) "error"); reflexivity.
Qed.

Lemma process_line_effect line c :
  process_line line c = (Normal tt, line_effect line c).
Proof. rewrite process_line_normal. f_equal. apply after_line_effect. Qed.

Lemma after_lines_effect lines c :
  after_lines lines c = fold_left (fun c' l => line_effect l c') lines c.
Proof.
  revert c. induction lines as [|l lines IH]; intros c; [reflexivity|].
  simpl. rewrite after_line_effect. apply IH.
Qed.

(** The handling of the residual refines to [residual_effect]. *)
Lemma process_remaining_effect buffer c :
  process_remaining JSON_parse buffer c
  = (Normal tt, residual_effect JSON_parse buffer c).
Proof.
  rewrite process_remaining_normal. f_equal.
  unfold process_remaining, residual_effect.
  destruct (str_truthy (trim buffer)); simpl; [|reflexivity].
  unfold try_catch, bind, parse.
  destruct (JSON_parse (trim buffer)) as [data|msg]; [|reflexivity].
  destruct data as [|b|n|s|items|ms]; try reflexivity.
  unfold residual_record_effect, member, bind, ret, discriminator, field. simpl.
  destruct (is_string_lit (lookup_member (js "type") ms) "final_response");
    [|reflexivity].
  destruct (lookup_member (js "response") ms) as [r|]; [|reflexivity].
  destruct (truthy (Some r)); reflexivity.
Qed.

(** A stream that is read to its end: the call resolves with the stored
    [finalResponse], whatever the lines were. *)
Lemma consume_effect values c :
  consume JSON_parse onAction_throws {| chunks := values; read_failure := None |} c
  = let c' := payload_effect JSON_parse onAction_throws (concat values) (reset c) in
    (Normal (finalResponse c'), c').
Proof.
  rewrite consume_spec. simpl.
  rewrite process_remaining_effect, after_lines_effect. reflexivity.
Qed.

End LineFacts.

(** ** The claims about [sendStreamingMessage] *)

Section StreamingClaims.

Variable JSON_parse : jsstring -> parse_result.
Variable onAction_throws : json -> nat -> option exn.

Notation process_line := (process_line JSON_parse onAction_throws).
Notation line_effect := (line_effect JSON_parse onAction_throws).
Notation residual_effect := (residual_effect JSON_parse).
Notation payload_effect := (payload_effect JSON_parse onAction_throws).
Notation sendStreamingMessage := (sendStreamingMessage JSON_parse onAction_throws).
Notation consume := (consume JSON_parse onAction_throws).

#[local] Arguments truthy : simpl never.
#[local] Arguments is_string_lit : simpl never.
#[local] Arguments lookup_member : simpl never.

(** The read loop and the flush depend on the chunks through their
    concatenation only. *)
Lemma consume_chunking values1 values2 failure c :
  concat values1 = concat values2 ->
  consume {| chunks := values1; read_failure := failure |} c
  = consume {| chunks := values2; read_failure := failure |} c.
Proof. intros H. rewrite !consume_spec. simpl. rewrite H. reflexivity. Qed.

(** The whole call depends on the chunks through their concatenation
    only. *)
Lemma send_chunking message ok0 status0 statusText0 values1 values2 failure c :
  concat values1 = concat values2 ->
  sendStreamingMessage message
    (FetchFulfilled {| ok := ok0; status := status0; statusText := statusText0;
                       body := Some {| chunks := values1;
                                       read_failure := failure |} |}) c
  = sendStreamingMessage message
      (FetchFulfilled {| ok := ok0; status := status0; statusText := statusText0;
                         body := Some {| chunks := values2;
                                         read_failure := failure |} |}) c.
Proof.
  intros H. unfold Consumer.sendStreamingMessage.
  destruct (negb (str_truthy (trim message))); [reflexivity|].
  unfold try_catch, bind, setConnectionStatus, modify, ret. simpl.
  destruct ok0; simpl; [|reflexivity].
  rewrite (consume_chunking _ _ _ _ H). reflexivity.
Qed.

(** C2. Chunk-boundary independence: two ways of cutting the same payload
    into chunks give the same completion of the call and the same final
    state, hence the same ordered trace of action deliveries, final-response
    updates and warnings. *)
Theorem chunk_boundary_independence
  (message : jsstring) (ok0 : bool) (status0 : nat) (statusText0 : jsstring)
  (values1 values2 : list jsstring) (failure : option exn) (c : client) :
  concat values1 = concat values2 ->
  sendStreamingMessage message
    (FetchFulfilled {| ok := ok0; status := status0; statusText := statusText0;
                       body := Some {| chunks := values1;
                                       read_failure := failure |} |}) c
  = sendStreamingMessage message
      (FetchFulfilled {| ok := ok0; status := status0; statusText := statusText0;
                         body := Some {| chunks := values2;
                                         read_failure := failure |} |}) c.
Proof. apply send_chunking. Qed.

(** X28. The cut of the bytes into reads does not matter either: with a
    decoder that takes the bytes one at a time and keeps its state between
    reads, two streams of the same bytes give the same outcome and the same
    state, also when a read ends inside a character. *)
Lemma byte_boundary_independence
  (decoder_state : Type)
  (decode_byte : decoder_state -> N -> decoder_state * jsstring)
  (st : decoder_state) (message : jsstring)
  (reads1 reads2 : list (list N)) (failure : option exn) (c : client) :
  concat reads1 = concat reads2 ->
  sendStreamingMessage message
    (streaming_response (decode_reads decode_byte st reads1) failure) c
  = sendStreamingMessage message
      (streaming_response (decode_reads decode_byte st reads2) failure) c.
Proof.
  intros H. apply send_chunking. rewrite !decode_reads_concat, H. reflexivity.
Qed.

(** *** Arrival counts *)

Lemma action_counts_app a b :
  action_counts (a ++ b) = action_counts a ++ action_counts b.
Proof. apply flat_map_app. Qed.

Lemma counted_warned t0 c w : counted t0 c -> counted t0 (warned c w).
Proof.
  intros [evs [Ht Hc]]. exists (evs ++ [ConsoleWarn w]). simpl. split.
  - rewrite Ht, app_assoc. reflexivity.
  - rewrite action_counts_app, Hc. apply app_nil_r.
Qed.

Lemma counted_answered t0 c r : counted t0 c -> counted t0 (answered c r).
Proof.
  intros [evs [Ht Hc]]. exists (evs ++ [FinalResponseSet r]). simpl. split.
  - rewrite Ht, app_assoc. reflexivity.
  - rewrite action_counts_app, Hc. apply app_nil_r.
Qed.

Lemma counted_delivered t0 c a : counted t0 c -> counted t0 (delivered c a).
Proof.
  intros [evs [Ht Hc]]. exists (evs ++ [OnAction a (S (actionCount c))]).
  split.
  - simpl. rewrite Ht, app_assoc. reflexivity.
  - rewrite action_counts_app, Hc.
    change (actionCount (delivered c a)) with (S (actionCount c)).
    rewrite seq_S. reflexivity.
Qed.

Lemma counted_record t0 trimmedLine data c :
  counted t0 c ->
  counted t0 (record_effect onAction_throws trimmedLine data c).
Proof.
  intros H. unfold record_effect.
  destruct (is_string_lit (discriminator data) "action").
  { destruct (field data "action") as [a|]; [|assumption].
    destruct (truthy (Some a)); [|assumption].
    destruct (onAction_throws a (S (actionCount c)));
      [apply counted_warned|]; now apply counted_delivered. }
  destruct (is_string_lit (discriminator data) "final_response").
  { destruct (field data "response") as [r|]; [|assumption].
    destruct (truthy (Some r)); [now apply counted_answered | assumption]. }
  destruct (is_string_lit (discriminator data) "error");
    now apply counted_warned.
Qed.

Lemma counted_line t0 line c : counted t0 c -> counted t0 (line_effect line c).
Proof.
  intros H. unfold Consumer.line_effect.
  destruct (str_truthy (trim line)); [|assumption].
  destruct (JSON_parse (trim line)) as [data|msg]; [|now apply counted_warned].
  destruct data; try (now apply counted_record). now apply counted_warned.
Qed.

Lemma counted_lines t0 lines : forall c,
  counted t0 c -> counted t0 (fold_left (fun c' l => line_effect l c') lines c).
Proof.
  induction lines as [|l lines IH]; intros c H; [assumption|].
  simpl. apply IH, counted_line, H.
Qed.

Lemma counted_residual t0 buffer c :
  counted t0 c -> counted t0 (residual_effect buffer c).
Proof.
  intros H. unfold Consumer.residual_effect.
  destruct (str_truthy (trim buffer)); [|assumption].
  destruct (JSON_parse (trim buffer)) as [data|msg]; [|now apply counted_warned].
  assert (Hgen : counted t0 (residual_record_effect data c)).
  { unfold residual_record_effect.
    destruct (is_string_lit (discriminator data) "final_response"); [|assumption].
    destruct (field data "response") as [r|]; [|assumption].
    destruct (truthy (Some r)); [now apply counted_answered | assumption]. }
  destruct data; try exact Hgen. now apply counted_warned.
Qed.

Lemma counted_reset c : counted (trace c) (reset c).
Proof. exists []. simpl. split; [now rewrite app_nil_r | reflexivity]. Qed.

Lemma counted_consume t0 reader c :
  t0 = trace c -> counted t0 (snd (consume reader c)).
Proof.
  intros ->. rewrite consume_spec. cbv zeta.
  rewrite after_lines_effect.
  assert (H : counted (trace c)
                (fold_left (fun c' l => line_effect l c')
                   (complete_lines (concat (chunks reader))) (reset c))).
  { apply counted_lines. exact (counted_reset c). }
  destruct (read_failure reader); simpl; [exact H|].
  rewrite process_remaining_effect. simpl. now apply counted_residual.
Qed.

Lemma counted_consecutive t0 c : counted t0 c -> consecutive t0 c.
Proof.
  intros [evs [Ht Hc]]. exists evs. split; [exact Ht|].
  rewrite Hc at 2. rewrite length_seq. exact Hc.
Qed.

Lemma consecutive_same_trace t0 c : trace c = t0 -> consecutive t0 c.
Proof. intros <-. exists []. split; [now rewrite app_nil_r | reflexivity]. Qed.

(** The counts given to [onAction] during one call are consecutive from
    1, in call order. *)
Lemma counts_consecutive_send
  (message : jsstring) (fetched : fetch_result) (c : client) :
  exists evs,
    trace (snd (sendStreamingMessage message fetched c)) = trace c ++ evs
    /\ action_counts evs = seq 1 (length (action_counts evs)).
Proof.
  change (consecutive (trace c) (snd (sendStreamingMessage message fetched c))).
  unfold Consumer.sendStreamingMessage.
  destruct (negb (str_truthy (trim message)));
    [now apply consecutive_same_trace|].
  unfold try_catch, bind, setConnectionStatus, modify, ret, throw. simpl.
  destruct fetched as [e|r]; simpl; [now apply consecutive_same_trace|].
  destruct (ok r); simpl; [|now apply consecutive_same_trace].
  destruct (body r) as [reader|]; simpl; [|now apply consecutive_same_trace].
  pose proof (@counted_consume (trace c) reader (with_status connected c) eq_refl)
    as H.
  apply counted_consecutive in H. unfold with_status in H.
  destruct (consume reader _) as [[v|e] c2]; exact H.
Qed.

(** *** A stream read to its end *)

Lemma send_streaming_effect message values c :
  str_truthy (trim message) = true ->
  sendStreamingMessage message (streaming_response values None) c
  = let c' := payload_effect (concat values) (reset (with_status connected c)) in
    (Normal (finalResponse c'), c').
Proof.
  intros Hm. unfold Consumer.sendStreamingMessage. rewrite Hm. simpl.
  unfold try_catch, bind, setConnectionStatus, modify, ret. simpl.
  fold (with_status connected c).
  rewrite (consume_effect JSON_parse onAction_throws values
             (with_status connected c)).
  reflexivity.
Qed.

(** *** States that differ in warnings only *)

Lemma sim_refl c : same_but_warnings c c.
Proof. repeat split. Qed.

Lemma sim_warned_left c c' w :
  same_but_warnings c c' -> same_but_warnings (warned c w) c'.
Proof.
  intros (H1 & H2 & H3 & H4). repeat split; try assumption.
  simpl. rewrite filter_app, H4. simpl. apply app_nil_r.
Qed.

Lemma sim_warned_right c c' w :
  same_but_warnings c c' -> same_but_warnings c (warned c' w).
Proof.
  intros (H1 & H2 & H3 & H4). repeat split; try assumption.
  simpl. rewrite filter_app, H4. simpl. symmetry. apply app_nil_r.
Qed.

Lemma sim_warned c c' w w' :
  same_but_warnings c c' -> same_but_warnings (warned c w) (warned c' w').
Proof. intros H. now apply sim_warned_left, sim_warned_right. Qed.

Lemma sim_delivered c c' a :
  same_but_warnings c c' -> same_but_warnings (delivered c a) (delivered c' a).
Proof.
  intros (H1 & H2 & H3 & H4). repeat split; simpl; try congruence.
  rewrite !filter_app, H4, H1. reflexivity.
Qed.

Lemma sim_answered c c' r :
  same_but_warnings c c' -> same_but_warnings (answered c r) (answered c' r).
Proof.
  intros (H1 & H2 & H3 & H4). repeat split; simpl; try congruence.
  rewrite !filter_app, H4. reflexivity.
Qed.

Lemma sim_with_status c c' st :
  same_but_warnings c c' ->
  same_but_warnings (with_status st c) (with_status st c').
Proof. intros (H1 & H2 & H3 & H4). repeat split; assumption. Qed.

Lemma sim_record trimmedLine data c c' :
  same_but_warnings c c' ->
  same_but_warnings (record_effect onAction_throws trimmedLine data c)
                    (record_effect onAction_throws trimmedLine data c').
Proof.
  intros H. pose proof H as (Hn & _). unfold record_effect. rewrite <- Hn.
  destruct (is_string_lit (discriminator data) "action").
  { destruct (field data "action") as [a|]; [|assumption].
    destruct (truthy (Some a)); [|assumption].
    destruct (onAction_throws a (S (actionCount c)));
      [apply sim_warned|]; now apply sim_delivered. }
  destruct (is_string_lit (discriminator data) "final_response").
  { destruct (field data "response") as [r|]; [|assumption].
    destruct (truthy (Some r)); [now apply sim_answered | assumption]. }
  destruct (is_string_lit (discriminator data) "error"); now apply sim_warned.
Qed.

Lemma sim_line line c c' :
  same_but_warnings c c' ->
  same_but_warnings (line_effect line c) (line_effect line c').
Proof.
  intros H. unfold Consumer.line_effect.
  destruct (str_truthy (trim line)); [|assumption].
  destruct (JSON_parse (trim line)) as [data|msg]; [|now apply sim_warned].
  destruct data; try (now apply sim_record). now apply sim_warned.
Qed.

Lemma sim_lines lines : forall c c',
  same_but_warnings c c' ->
  same_but_warnings (fold_left (fun s l => line_effect l s) lines c)
                    (fold_left (fun s l => line_effect l s) lines c').
Proof.
  induction lines as [|l lines IH]; intros c c' H; [assumption|].
  simpl. apply IH, sim_line, H.
Qed.

Lemma sim_residual buffer c c' :
  same_but_warnings c c' ->
  same_but_warnings (residual_effect buffer c) (residual_effect buffer c').
Proof.
  intros H. unfold Consumer.residual_effect.
  destruct (str_truthy (trim buffer)); [|assumption].
  destruct (JSON_parse (trim buffer)) as [data|msg]; [|now apply sim_warned].
  assert (Hgen : same_but_warnings (residual_record_effect data c)
                                   (residual_record_effect data c')).
  { unfold residual_record_effect.
    destruct (is_string_lit (discriminator data) "final_response"); [|assumption].
    destruct (field data "response") as [r|]; [|assumption].
    destruct (truthy (Some r)); [now apply sim_answered | assumption]. }
  destruct data; try exact Hgen. now apply sim_warned.
Qed.

(** *** Lines that leave no trace but a warning *)

Lemma unrecognized_line_effect line c :
  unrecognized_line JSON_parse line ->
  line_effect line c = c \/ exists w, line_effect line c = warned c w.
Proof.
  intros H. unfold Consumer.line_effect.
  destruct (str_truthy (trim line)); [|now left].
  destruct H as [[msg ->]|[data [-> Hr]]]; [right; eauto|].
  unfold recognized in Hr.
  apply orb_false_iff in Hr as [Hr He]. apply orb_false_iff in Hr as [Ha Hf].
  assert (Hrec : exists w, record_effect onAction_throws (trim line) data c
                           = warned c w).
  { unfold record_effect. rewrite Ha, Hf, He. eauto. }
  right. destruct data; try exact Hrec. eauto.
Qed.

Lemma action_line_without_action_effect line c :
  action_line_without_action JSON_parse line -> line_effect line c = c.
Proof.
  intros (data & Hp & Ht & Ha). unfold Consumer.line_effect.
  destruct (str_truthy (trim line)); [|reflexivity].
  rewrite Hp.
  assert (Hrec : record_effect onAction_throws (trim line) data c = c).
  { unfold record_effect. rewrite Ht.
    destruct (field data "action") as [a|]; [|reflexivity].
    rewrite Ha. reflexivity. }
  destruct data; try exact Hrec. discriminate Ht.
Qed.

(** With and without a line that changes nothing but the warnings. *)
Lemma consume_insert_sim line before after values1 values2 failure c :
  (forall s, same_but_warnings (line_effect line s) s) ->
  line_aligned before ->
  Forall (fun u => u <> newline) line ->
  concat values1 = before ++ line ++ newline :: after ->
  concat values2 = before ++ after ->
  same_outcome_but_warnings
    (consume {| chunks := values1; read_failure := failure |} c)
    (consume {| chunks := values2; read_failure := failure |} c).
Proof.
  intros Hline Ha Hl H1 H2. rewrite !consume_spec. simpl.
  rewrite H1, H2, !after_lines_effect.
  rewrite (complete_lines_aligned _ Ha), (complete_lines_line _ Hl).
  rewrite (complete_lines_aligned _ Ha), !fold_left_app. simpl.
  set (s0 := fold_left (fun c' l => line_effect l c') (complete_lines before)
               (reset c)).
  assert (Hs : same_but_warnings
                 (fold_left (fun c' l => line_effect l c') (complete_lines after)
                    (line_effect line s0))
                 (fold_left (fun c' l => line_effect l c') (complete_lines after)
                    s0)) by apply sim_lines, Hline.
  destruct failure as [e|]; [split; [reflexivity | exact Hs]|].
  rewrite !process_remaining_effect. simpl.
  rewrite (residual_aligned_app _ Ha), (residual_line _ Hl).
  rewrite (residual_aligned_app _ Ha).
  pose proof (sim_residual (residual after) Hs) as Hr.
  split; [|exact Hr]. simpl. f_equal. apply Hr.
Qed.

(** From the body of the response to the whole call. *)
Lemma send_sim message ok0 status0 statusText0 r1 r2 c :
  (forall s, same_outcome_but_warnings (consume r1 s) (consume r2 s)) ->
  same_outcome_but_warnings
    (sendStreamingMessage message
       (FetchFulfilled {| ok := ok0; status := status0;
                          statusText := statusText0; body := Some r1 |}) c)
    (sendStreamingMessage message
       (FetchFulfilled {| ok := ok0; status := status0;
                          statusText := statusText0; body := Some r2 |}) c).
Proof.
  intros H. unfold Consumer.sendStreamingMessage.
  destruct (negb (str_truthy (trim message)));
    [split; [reflexivity | apply sim_refl]|].
  unfold try_catch, bind, setConnectionStatus, modify, ret, throw. simpl.
  destruct ok0; simpl; [|split; [reflexivity | apply sim_refl]].
  fold (with_status connected c).
  destruct (H (with_status connected c)) as [Hf Hs].
  destruct (consume r1 _) as [[v1|e1] s1], (consume r2 _) as [[v2|e2] s2];
    simpl in Hf, Hs; try discriminate Hf.
  - split; [exact Hf | exact Hs].
  - split; [exact Hf | exact (sim_with_status error Hs)].
Qed.

(** C5. A line that is not valid JSON, or whose type discriminator is absent
    or unrecognized, is skipped: the loop body completes normally and
    changes nothing, or adds one console warning; the following lines are
    handled from there.  For a whole stream: with the line or without it
    the call completes the same way, with the same count, the same
    [finalResponse] and the same events other than warnings. *)
Theorem unrecognized_line_skipped (line : jsstring) :
  unrecognized_line JSON_parse line ->
  (forall c rest,
      exists c',
        process_line line c = (Normal tt, c')
        /\ (c' = c \/ exists w, c' = warned c w)
        /\ for_of (line :: rest) process_line c = for_of rest process_line c')
  /\ (forall message ok0 status0 statusText0 values1 values2 failure
             before after c,
         line_aligned before ->
         Forall (fun u => u <> newline) line ->
         concat values1 = before ++ line ++ newline :: after ->
         concat values2 = before ++ after ->
         same_outcome_but_warnings
           (sendStreamingMessage message
              (FetchFulfilled
                 {| ok := ok0; status := status0; statusText := statusText0;
                    body := Some {| chunks := values1;
                                    read_failure := failure |} |}) c)
           (sendStreamingMessage message
              (FetchFulfilled
                 {| ok := ok0; status := status0; statusText := statusText0;
                    body := Some {| chunks := values2;
                                    read_failure := failure |} |}) c)).
Proof.
  intros H. split.
  - intros c rest. exists (line_effect line c).
    split; [apply process_line_effect|].
    split; [apply unrecognized_line_effect, H|].
    simpl. unfold bind at 1. rewrite process_line_effect. reflexivity.
  - intros message ok0 status0 statusText0 values1 values2 failure
           before after c Ha Hl H1 H2.
    apply send_sim. intros s.
    apply consume_insert_sim with (line := line) (before := before) (after := after);
      try assumption.
    intros s'. destruct (unrecognized_line_effect s' H) as [->|[w ->]];
      [apply sim_refl | apply sim_warned_left, sim_refl].
Qed.

(** C10. A well-formed line of type ['action'] whose [action] member is
    absent or falsy calls no callback, leaves the count as it is and does not
    stop the loop: the loop body completes normally with the state unchanged,
    and a stream with such a line behaves exactly as the stream without it. *)
Theorem action_without_payload_ignored (line : jsstring) :
  action_line_without_action JSON_parse line ->
  (forall c rest,
      process_line line c = (Normal tt, c)
      /\ for_of (line :: rest) process_line c = for_of rest process_line c)
  /\ (forall message ok0 status0 statusText0 values1 values2 failure
             before after c,
         line_aligned before ->
         Forall (fun u => u <> newline) line ->
         concat values1 = before ++ line ++ newline :: after ->
         concat values2 = before ++ after ->
         sendStreamingMessage message
           (FetchFulfilled
              {| ok := ok0; status := status0; statusText := statusText0;
                 body := Some {| chunks := values1;
                                 read_failure := failure |} |}) c
         = sendStreamingMessage message
             (FetchFulfilled
                {| ok := ok0; status := status0; statusText := statusText0;
                   body := Some {| chunks := values2;
                                   read_failure := failure |} |}) c).
Proof.
  intros H.
  assert (Hline : forall c, process_line line c = (Normal tt, c)).
  { intros c. rewrite process_line_effect.
    now rewrite (action_line_without_action_effect c H). }
  split.
  - intros c rest. split; [apply Hline|].
    simpl. unfold bind at 1. rewrite Hline. reflexivity.
  - intros message ok0 status0 statusText0 values1 values2 failure
           before after c Ha Hl H1 H2.
    transitivity
      (sendStreamingMessage message
         (FetchFulfilled
            {| ok := ok0; status := status0; statusText := statusText0;
               body := Some {| chunks := [before ++ line ++ newline :: after];
                               read_failure := failure |} |}) c).
    { apply send_chunking. simpl. now rewrite app_nil_r. }
    transitivity
      (sendStreamingMessage message
         (FetchFulfilled
            {| ok := ok0; status := status0; statusText := statusText0;
               body := Some {| chunks := [before ++ after];
                               read_failure := failure |} |}) c).
    2:{ apply send_chunking. simpl. now rewrite app_nil_r. }
    unfold Consumer.sendStreamingMessage.
    destruct (negb (str_truthy (trim message))); [reflexivity|].
    unfold try_catch, bind, setConnectionStatus, modify, ret. simpl.
    destruct ok0; simpl; [|reflexivity].
    rewrite !consume_spec. simpl. rewrite !app_nil_r, !after_lines_effect.
    rewrite (complete_lines_aligned _ Ha), (complete_lines_line _ Hl).
    rewrite (complete_lines_aligned _ Ha), !fold_left_app. simpl.
    rewrite (action_line_without_action_effect _ H).
    rewrite (residual_aligned_app _ Ha), (residual_line _ Hl).
    rewrite (residual_aligned_app _ Ha). reflexivity.
Qed.

(** *** The final response *)

Lemma is_string_lit_exclusive v a b :
  is_string_lit v a = true -> is_string_lit v b = true -> js a = js b.
Proof.
  destruct v as [[| | |s| |]|]; try discriminate.
  unfold is_string_lit, str_eqb.
  destruct (list_eq_dec N.eq_dec s (js a)), (list_eq_dec N.eq_dec s (js b));
    try discriminate.
  congruence.
Qed.

Lemma action_is_not_final_response v :
  is_string_lit v "action" = true -> is_string_lit v "final_response" = false.
Proof.
  intros Ha. destruct (is_string_lit v "final_response") eqn:Hf; [|reflexivity].
  pose proof (is_string_lit_exclusive _ _ _ Ha Hf) as H. discriminate H.
Qed.

Lemma final_payload_record data trimmedLine c :
  finalResponse (record_effect onAction_throws trimmedLine data c)
  = if is_string_lit (discriminator data) "final_response" then
      match field data "response" with
      | Some r => if truthy (Some r) then r else finalResponse c
      | None => finalResponse c
      end
    else finalResponse c.
Proof.
  unfold record_effect.
  destruct (is_string_lit (discriminator data) "action") eqn:Ha.
  { rewrite (action_is_not_final_response _ Ha).
    destruct (field data "action") as [a|]; [|reflexivity].
    destruct (truthy (Some a)); [|reflexivity].
    destruct (onAction_throws a (S (actionCount c))); reflexivity. }
  destruct (is_string_lit (discriminator data) "final_response").
  { destruct (field data "response") as [r|]; [|reflexivity].
    destruct (truthy (Some r)); reflexivity. }
  destruct (is_string_lit (discriminator data) "error"); reflexivity.
Qed.

Lemma finalResponse_line line c :
  finalResponse (line_effect line c) = overwrite JSON_parse (finalResponse c) line.
Proof.
  unfold Consumer.line_effect, overwrite, final_payload.
  destruct (str_truthy (trim line)); [|reflexivity].
  destruct (JSON_parse (trim line)) as [data|msg]; [|reflexivity].
  destruct data as [|b|n|s|items|ms]; try reflexivity.
  rewrite final_payload_record. unfold discriminator, field.
  destruct (is_string_lit (lookup_member (js "type") ms) "final_response");
    [|reflexivity].
  destruct (lookup_member (js "response") ms) as [r|]; [|reflexivity].
  destruct (truthy (Some r)); reflexivity.
Qed.

Lemma finalResponse_residual buffer c :
  finalResponse (residual_effect buffer c)
  = overwrite JSON_parse (finalResponse c) buffer.
Proof.
  unfold Consumer.residual_effect, overwrite, final_payload.
  destruct (str_truthy (trim buffer)); [|reflexivity].
  destruct (JSON_parse (trim buffer)) as [data|msg]; [|reflexivity].
  destruct data as [|b|n|s|items|ms]; try reflexivity.
  unfold residual_record_effect, discriminator, field.
  destruct (is_string_lit (lookup_member (js "type") ms) "final_response");
    [|reflexivity].
  destruct (lookup_member (js "response") ms) as [r|]; [|reflexivity].
  destruct (truthy (Some r)); reflexivity.
Qed.

Lemma finalResponse_lines lines : forall c,
  finalResponse (fold_left (fun c' l => line_effect l c') lines c)
  = fold_left (overwrite JSON_parse) lines (finalResponse c).
Proof.
  induction lines as [|l lines IH]; intros c; [reflexivity|].
  simpl. rewrite IH, finalResponse_line. reflexivity.
Qed.

(** The stored response after a payload: every fragment of the split, the
    residual included, overwrites in turn. *)
Lemma finalResponse_payload payload c :
  finalResponse (payload_effect payload c)
  = fold_left (overwrite JSON_parse) (split_newline payload) (finalResponse c).
Proof.
  unfold Consumer.payload_effect.
  rewrite finalResponse_residual, finalResponse_lines.
  rewrite (split_newline_decompose payload), fold_left_app. reflexivity.
Qed.

Lemma overwrite_silent lines stored :
  (forall l, In l lines -> final_payload JSON_parse l = None) ->
  fold_left (overwrite JSON_parse) lines stored = stored.
Proof.
  revert stored. induction lines as [|l lines IH]; intros stored H; [reflexivity|].
  simpl. unfold overwrite at 2. rewrite (H l (or_introl eq_refl)).
  apply IH. intros l' Hl'. apply H. now right.
Qed.

Lemma final_payload_event line r :
  final_response_event JSON_parse line r -> truthy (Some r) = true ->
  final_payload JSON_parse line = Some r.
Proof.
  intros (Ht & data & Hp & Hd & Hf) Hr. unfold final_payload.
  rewrite Ht, Hp. destruct data as [|b|n|s|items|ms]; try discriminate Hd.
  unfold discriminator in Hd. unfold field in Hf. rewrite Hd, Hf, Hr.
  reflexivity.
Qed.

Lemma final_payload_none line :
  (forall r, final_response_event JSON_parse line r -> truthy (Some r) = false) ->
  final_payload JSON_parse line = None.
Proof.
  intros H. unfold final_payload.
  destruct (str_truthy (trim line)) eqn:Ht; [|reflexivity].
  destruct (JSON_parse (trim line)) as [data|msg] eqn:Hp; [|reflexivity].
  destruct data as [|b|n|s|items|ms]; try reflexivity.
  destruct (is_string_lit (lookup_member (js "type") ms) "final_response") eqn:Hd;
    [|reflexivity].
  destruct (lookup_member (js "response") ms) as [r|] eqn:Hf; [|reflexivity].
  rewrite (H r); [reflexivity|].
  split; [exact Ht|]. exists (JObj ms). repeat split; assumption.
Qed.

(** A [final_response] event whose response is absent or falsy leaves the
    stored response, and the whole state, as it is: in the loop ... *)
Lemma falsy_final_response_keeps_stored line c :
  (exists data, JSON_parse (trim line) = Parsed data
                /\ is_string_lit (discriminator data) "final_response" = true
                /\ truthy (field data "response") = false) ->
  process_line line c = (Normal tt, c).
Proof.
  intros (data & Hp & Hd & Hf). rewrite process_line_effect. f_equal.
  unfold Consumer.line_effect.
  destruct (str_truthy (trim line)); [|reflexivity].
  rewrite Hp.
  assert (Hrec : record_effect onAction_throws (trim line) data c = c).
  { unfold record_effect.
    destruct (is_string_lit (discriminator data) "action") eqn:Ha.
    { rewrite (action_is_not_final_response _ Ha) in Hd. discriminate Hd. }
    rewrite Hd. destruct (field data "response") as [r|]; [|reflexivity].
    rewrite Hf. reflexivity. }
  destruct data; try exact Hrec. discriminate Hd.
Qed.

(** ... and in the flush. *)
Lemma falsy_final_response_residual buffer c :
  (exists data, JSON_parse (trim buffer) = Parsed data
                /\ is_string_lit (discriminator data) "final_response" = true
                /\ truthy (field data "response") = false) ->
  process_remaining JSON_parse buffer c = (Normal tt, c).
Proof.
  intros (data & Hp & Hd & Hf). rewrite process_remaining_effect. f_equal.
  unfold Consumer.residual_effect.
  destruct (str_truthy (trim buffer)); [|reflexivity].
  rewrite Hp.
  assert (Hrec : residual_record_effect data c = c).
  { unfold residual_record_effect. rewrite Hd.
    destruct (field data "response") as [r|]; [|reflexivity].
    rewrite Hf. reflexivity. }
  destruct data; try exact Hrec. discriminate Hd.
Qed.

(** What a [final_response] event assigns. *)
Lemma final_payload_of_event line r :
  final_response_event JSON_parse line r ->
  final_payload JSON_parse line = if truthy (Some r) then Some r else None.
Proof.
  intros He. destruct (truthy (Some r)) eqn:Hr.
  - now apply final_payload_event.
  - apply final_payload_none. intros r' (_ & data' & Hp' & _ & Hf').
    destruct He as (_ & data & Hp & _ & Hf). congruence.
Qed.

(** C6, amended. In a stream with two [final_response] events the call
    returns the stored response, which is the response of the second event
    whenever that response is truthy (for a string: not empty); a second
    response that is falsy leaves the stored value as the first event left
    it: the first response when truthy, the initial empty string otherwise.
    A [final_response] event whose response is absent or falsy changes
    nothing, in the loop and in the flush alike. *)
Theorem last_write_wins_when_truthy
  (message : jsstring) (values : list jsstring)
  (pre mid post : list jsstring) (first second : jsstring) (r1 r2 : json)
  (c : client) :
  str_truthy (trim message) = true ->
  split_newline (concat values) = pre ++ first :: mid ++ second :: post ->
  final_response_event JSON_parse first r1 ->
  final_response_event JSON_parse second r2 ->
  (forall l r, In l (pre ++ mid ++ post) -> ~ final_response_event JSON_parse l r) ->
  fst (sendStreamingMessage message (streaming_response values None) c)
  = Normal (if truthy (Some r2) then r2
            else if truthy (Some r1) then r1 else JStr [])
  /\ finalResponse (snd (sendStreamingMessage message
                           (streaming_response values None) c))
     = (if truthy (Some r2) then r2
        else if truthy (Some r1) then r1 else JStr [])
  /\ (forall line c',
        (exists data,
            JSON_parse (trim line) = Parsed data
            /\ is_string_lit (discriminator data) "final_response" = true
            /\ truthy (field data "response") = false) ->
        process_line line c' = (Normal tt, c')
        /\ process_remaining JSON_parse line c' = (Normal tt, c')).
Proof.
  intros Hm Hs H1 H2 Hothers.
  assert (Hsilent : forall ls,
             (forall l, In l ls -> In l (pre ++ mid ++ post)) ->
             forall stored, fold_left (overwrite JSON_parse) ls stored = stored).
  { intros ls Hin stored. apply overwrite_silent. intros l Hl.
    apply final_payload_none. intros r He.
    exfalso. exact (Hothers l r (Hin l Hl) He). }
  assert (H : finalResponse
                (payload_effect (concat values) (reset (with_status connected c)))
              = if truthy (Some r2) then r2
                else if truthy (Some r1) then r1 else JStr []).
  { rewrite finalResponse_payload, Hs. rewrite fold_left_app. simpl.
    rewrite fold_left_app. simpl.
    rewrite (Hsilent pre) by (intros l Hl; apply in_or_app; now left).
    rewrite (Hsilent mid)
      by (intros l Hl; apply in_or_app; right; apply in_or_app; now left).
    rewrite (Hsilent post)
      by (intros l Hl; apply in_or_app; right; apply in_or_app; now right).
    unfold overwrite.
    rewrite (final_payload_of_event H1), (final_payload_of_event H2).
    destruct (truthy (Some r2)), (truthy (Some r1)); reflexivity. }
  rewrite send_streaming_effect by exact Hm. cbv zeta. simpl. rewrite H.
  split; [reflexivity|]. split; [reflexivity|].
  intros line c' Hline. split.
  - now apply falsy_final_response_keeps_stored.
  - now apply falsy_final_response_residual.
Qed.

(** *** What the loop does with an [error] event, and the flush with an
    action *)

(** A well-formed [error] event: the [throw] of the loop body is caught by
    the [catch] of the same line, which logs the error and goes on. *)
Lemma error_event_only_warns line data c :
  str_truthy (trim line) = true ->
  JSON_parse (trim line) = Parsed data ->
  is_string_lit (discriminator data) "error" = true ->
  process_line line c
  = (Normal tt,
     warned c (FailedToParseStreamingData
                 (ErrorObject Error (message_or_default (field data "message")))
                 (trim line))).
Proof.
  intros Ht Hp He. rewrite process_line_effect. f_equal.
  unfold Consumer.line_effect. rewrite Ht, Hp.
  assert (Hrec : record_effect onAction_throws (trim line) data c
                 = warned c (FailedToParseStreamingData
                     (ErrorObject Error (message_or_default (field data "message")))
                     (trim line))).
  { unfold record_effect.
    destruct (is_string_lit (discriminator data) "action") eqn:Ha.
    { pose proof (is_string_lit_exclusive _ _ _ Ha He) as H. discriminate H. }
    destruct (is_string_lit (discriminator data) "final_response") eqn:Hf.
    { pose proof (is_string_lit_exclusive _ _ _ Hf He) as H. discriminate H. }
    rewrite He. reflexivity. }
  destruct data; try exact Hrec. discriminate He.
Qed.

(** X27. No content of a stream that is read to its end makes the call
    fail: whatever the lines hold, text that is not JSON, unknown records,
    error events or a callback that throws, the call resolves. *)
Lemma stream_content_never_rejects message values c :
  str_truthy (trim message) = true ->
  exists v, fst (sendStreamingMessage message (streaming_response values None) c)
            = Normal v.
Proof.
  intros Hm. rewrite send_streaming_effect by exact Hm. eexists. reflexivity.
Qed.

(** The flush never calls [onAction]. *)
Lemma residual_never_delivers buffer c :
  actionCount (residual_effect buffer c) = actionCount c
  /\ action_counts (trace (residual_effect buffer c)) = action_counts (trace c).
Proof.
  unfold Consumer.residual_effect.
  destruct (str_truthy (trim buffer)); [|now split].
  assert (Hw : forall w, actionCount (warned c w) = actionCount c
                         /\ action_counts (trace (warned c w))
                            = action_counts (trace c)).
  { intros w. split; [reflexivity|]. simpl.
    rewrite action_counts_app. apply app_nil_r. }
  destruct (JSON_parse (trim buffer)) as [data|msg]; [|apply Hw].
  assert (Hgen : actionCount (residual_record_effect data c) = actionCount c
                 /\ action_counts (trace (residual_record_effect data c))
                    = action_counts (trace c)).
  { unfold residual_record_effect.
    destruct (is_string_lit (discriminator data) "final_response"); [|now split].
    destruct (field data "response") as [r|]; [|now split].
    destruct (truthy (Some r)); [|now split].
    split; [reflexivity|]. simpl. rewrite action_counts_app. apply app_nil_r. }
  destruct data; try exact Hgen. apply Hw.
Qed.

End StreamingClaims.

(** ** Concrete streams *)

(** The example of the specification: one action, then the final response. *)
Example end_to_end_example :
  run [chat_action_line ++ [newline] ++ final_line "Done" ++ [newline]]
  = (Normal (JStr (js "Done")),
     {| actionCount := 1; finalResponse := JStr (js "Done");
        connectionStatus := connected;
        trace := [OnAction chat_action 1; FinalResponseSet (JStr (js "Done"))] |}).
Proof. vm_compute. reflexivity. Qed.

(** C1. A stream whose only line is a well-formed [error] event: the call
    resolves with the empty response; the error is caught by the [catch] of
    the line and only logged as a parse failure. *)
Theorem error_event_swallowed :
  run [error_line ++ [newline]]
  = (Normal (JStr []),
     {| actionCount := 0; finalResponse := JStr [];
        connectionStatus := connected;
        trace := [ConsoleWarn
                    (FailedToParseStreamingData
                       (ErrorObject Error (JStr (js "boom"))) error_line)] |}).
Proof. vm_compute. reflexivity. Qed.

(** C7. An action in the residual (no newline after it) is not given to
    [onAction]; the same line followed by a newline is. *)
Theorem residual_action_dropped :
  run [chat_action_line]
  = (Normal (JStr []),
     {| actionCount := 0; finalResponse := JStr [];
        connectionStatus := connected; trace := [] |})
  /\ run [chat_action_line ++ [newline]]
     = (Normal (JStr []),
        {| actionCount := 1; finalResponse := JStr [];
           connectionStatus := connected;
           trace := [OnAction chat_action 1] |}).
Proof. split; vm_compute; reflexivity. Qed.

(** Number literals with a fraction or an exponent, read and written. *)
Example number_literals :
  JsonText.JSON_parse (js "1719676117.1")
  = Parsed (JNum (S754_finite false 7212844416656998 (-22)))
  /\ JsonText.JSON_parse (js "-2.5e-7")
     = Parsed (JNum (S754_finite true 4722366482869645 (-74)))
  /\ JsonText.Number_toString (S754_finite false 7212844416656998 (-22))
     = js "1719676117.1"
  /\ JsonText.Number_toString (S754_finite false 6755399441055744 (-52))
     = js "1.5"
  /\ JsonText.Number_toString (S754_finite false 7629394531250000 17)
     = js "1e+21"
  /\ JsonText.JSON_stringify (JNum (S754_finite true 4722366482869645 (-74)))
     = js "-2.5e-7".
Proof. repeat split; vm_compute; reflexivity. Qed.

(** An action whose timestamp has a fraction is delivered like any other. *)
Example fractional_timestamp_delivered :
  run [wire "{'type':'action','action':{'command':'chat','timestamp':1719676117.1}}|"]
  = (Normal (JStr []),
     {| actionCount := 1; finalResponse := JStr [];
        connectionStatus := connected;
        trace := [OnAction
                    (JObj [(js "command", JStr (js "chat"));
                           (js "timestamp",
                            JNum (S754_finite false 7212844416656998 (-22)))])
                    1] |}).
Proof. vm_compute. reflexivity. Qed.

(** A final response in the residual is honoured. *)
Example residual_final_response_kept :
  run [chat_action_line ++ [newline] ++ final_line "Done"]
  = (Normal (JStr (js "Done")),
     {| actionCount := 1; finalResponse := JStr (js "Done");
        connectionStatus := connected;
        trace := [OnAction chat_action 1; FinalResponseSet (JStr (js "Done"))] |}).
Proof. vm_compute. reflexivity. Qed.

Lemma final_line_event text :
  JsonText.JSON_parse (trim (final_line text)) = Parsed (final_record text) ->
  str_truthy (trim (final_line text)) = true ->
  final_response_event JsonText.JSON_parse (final_line text) (JStr (js text)).
Proof.
  intros Hp Ht. split; [exact Ht|]. exists (final_record text).
  split; [exact Hp|]. split; reflexivity.
Qed.

Lemma blank_is_no_event l r :
  In l [[]] -> ~ final_response_event JsonText.JSON_parse l r.
Proof. intros [<-|[]] [Ht _]. discriminate Ht. Qed.

(** C6, the claim as stated fails: the second event carries the empty
    response and the call returns the first one. *)
Lemma last_write_wins_counterexample : ~ last_write_wins_unconditionally.
Proof.
  intros H.
  specialize (H JsonText.JSON_parse quiet_callback (js "Deploy nginx")
                [final_line "A" ++ [newline] ++ final_line "" ++ [newline]]
                [] [] [[]] (final_line "A") (final_line "")
                (JStr (js "A")) (JStr (js "")) fresh_client).
  assert (Hres : Normal (JStr (js "A")) = Normal (JStr (js ""))).
  { rewrite <- H; [vm_compute; reflexivity | reflexivity | vm_compute; reflexivity
                  | apply final_line_event; vm_compute; reflexivity
                  | apply final_line_event; vm_compute; reflexivity
                  | apply blank_is_no_event]. }
  discriminate Hres.
Qed.

(** C6, amended, at two concrete streams: the responses [A] and [B], and
    the responses [A] and the empty string, the second event being the
    residual; and at the line with the empty response on its own, in the
    loop and in the flush. *)
Lemma last_write_wins_when_truthy_witness :
  fst (run [final_line "A" ++ [newline] ++ final_line "B" ++ [newline]])
  = Normal (JStr (js "B"))
  /\ fst (run [final_line "A" ++ [newline] ++ final_line ""])
     = Normal (JStr (js "A"))
  /\ process_line JsonText.JSON_parse quiet_callback (final_line "")
       fresh_client
     = (Normal tt, fresh_client)
  /\ process_remaining JsonText.JSON_parse (final_line "") fresh_client
     = (Normal tt, fresh_client).
Proof.
  split; [|split].
  3:{ apply (@last_write_wins_when_truthy JsonText.JSON_parse quiet_callback
               (js "Deploy nginx")
               [final_line "A" ++ [newline] ++ final_line ""]
               [] [] [] (final_line "A") (final_line "")
               (JStr (js "A")) (JStr (js "")) fresh_client).
      - reflexivity.
      - vm_compute. reflexivity.
      - apply final_line_event; vm_compute; reflexivity.
      - apply final_line_event; vm_compute; reflexivity.
      - intros l r [].
      - exists (final_record "").
        split; [vm_compute; reflexivity|]. split; reflexivity. }
  - apply (@last_write_wins_when_truthy JsonText.JSON_parse quiet_callback
             (js "Deploy nginx")
             [final_line "A" ++ [newline] ++ final_line "B" ++ [newline]]
             [] [] [[]] (final_line "A") (final_line "B")
             (JStr (js "A")) (JStr (js "B")) fresh_client).
    + reflexivity.
    + vm_compute. reflexivity.
    + apply final_line_event; vm_compute; reflexivity.
    + apply final_line_event; vm_compute; reflexivity.
    + apply blank_is_no_event.
  - apply (@last_write_wins_when_truthy JsonText.JSON_parse quiet_callback
             (js "Deploy nginx")
             [final_line "A" ++ [newline] ++ final_line ""]
             [] [] [] (final_line "A") (final_line "")
             (JStr (js "A")) (JStr (js "")) fresh_client).
    + reflexivity.
    + vm_compute. reflexivity.
    + apply final_line_event; vm_compute; reflexivity.
    + apply final_line_event; vm_compute; reflexivity.
    + intros l r [].
Defined.

(** C2 at a concrete payload: the whole payload in one chunk and one code
    unit per chunk. *)
Lemma chunk_boundary_independence_witness :
  concat [chat_action_line ++ [newline] ++ final_line "Done"]
  = concat (one_by_one (chat_action_line ++ [newline] ++ final_line "Done"))
  /\ run [chat_action_line ++ [newline] ++ final_line "Done"]
     = run (one_by_one (chat_action_line ++ [newline] ++ final_line "Done")).
Proof.
  split; [vm_compute; reflexivity|].
  apply chunk_boundary_independence. vm_compute. reflexivity.
Defined.

Lemma no_newline_check l :
  forallb (fun u => negb (u =? newline)%N) l = true ->
  Forall (fun u => u <> newline) l.
Proof.
  intros H. apply Forall_forall. intros u Hu.
  rewrite forallb_forall in H. specialize (H u Hu).
  destruct (N.eqb_spec u newline); [discriminate H | assumption].
Qed.

(** C5 at a concrete stream: a record of an unknown type between an action
    and the final response. *)
Lemma unrecognized_line_skipped_witness :
  unrecognized_line JsonText.JSON_parse ping_line
  /\ (exists c',
        process_line JsonText.JSON_parse quiet_callback ping_line fresh_client
        = (Normal tt, c')
        /\ (c' = fresh_client \/ exists w, c' = warned fresh_client w)
        /\ for_of [ping_line; final_line "Done"]
             (process_line JsonText.JSON_parse quiet_callback) fresh_client
           = for_of [final_line "Done"]
               (process_line JsonText.JSON_parse quiet_callback) c')
  /\ same_outcome_but_warnings
       (run [chat_action_line ++ [newline] ++ ping_line ++ [newline]
               ++ final_line "Done"])
       (run [chat_action_line ++ [newline] ++ final_line "Done"]).
Proof.
  assert (H : unrecognized_line JsonText.JSON_parse ping_line).
  { right. exists (JObj [(js "type", JStr (js "ping"))]).
    split; vm_compute; reflexivity. }
  split; [exact H|]. split.
  - exact (proj1 (unrecognized_line_skipped quiet_callback H)
             fresh_client [final_line "Done"]).
  - apply (proj2 (unrecognized_line_skipped quiet_callback H))
      with (before := chat_action_line ++ [newline]) (after := final_line "Done").
    + right. exists chat_action_line. reflexivity.
    + apply no_newline_check. vm_compute. reflexivity.
    + vm_compute. reflexivity.
    + vm_compute. reflexivity.
Defined.

(** C10 at a concrete stream: an action record whose action is [null],
    between two actions. *)
Lemma action_without_payload_ignored_witness :
  action_line_without_action JsonText.JSON_parse empty_action_line
  /\ process_line JsonText.JSON_parse quiet_callback empty_action_line fresh_client
     = (Normal tt, fresh_client)
  /\ run [chat_action_line ++ [newline] ++ empty_action_line ++ [newline]
            ++ chat_action_line ++ [newline]]
     = run [chat_action_line ++ [newline] ++ chat_action_line ++ [newline]].
Proof.
  assert (H : action_line_without_action JsonText.JSON_parse empty_action_line).
  { exists (JObj [(js "type", JStr (js "action")); (js "action", JNull)]).
    repeat split; vm_compute; reflexivity. }
  split; [exact H|]. split.
  - exact (proj1 (proj1 (action_without_payload_ignored quiet_callback H)
                    fresh_client [])).
  - apply (proj2 (action_without_payload_ignored quiet_callback H))
      with (before := chat_action_line ++ [newline])
           (after := chat_action_line ++ [newline]).
    + right. exists chat_action_line. reflexivity.
    + apply no_newline_check. vm_compute. reflexivity.
    + vm_compute. reflexivity.
    + vm_compute. reflexivity.
Defined.

(** A callback that throws at every call: the counts go on, each throw is
    logged by the [catch] of its line. *)
Example throwing_callback_example :
  let boom := ErrorObject Error (JStr (js "render failed")) in
  snd (sendStreamingMessage JsonText.JSON_parse (fun _ _ => Some boom)
         (js "Deploy nginx")
         (streaming_response
            [chat_action_line ++ [newline] ++ chat_action_line ++ [newline]] None)
         fresh_client)
  = {| actionCount := 2; finalResponse := JStr [];
       connectionStatus := connected;
       trace := [OnAction chat_action 1;
                 ConsoleWarn (FailedToParseStreamingData boom chat_action_line);
                 OnAction chat_action 2;
                 ConsoleWarn (FailedToParseStreamingData boom chat_action_line)] |}.
Proof. vm_compute. reflexivity. Qed.

(** The counts with a missing, a repeated and a decreasing
    [sequence_index]. *)
Example arrival_counts_example :
  action_counts
    (trace (snd (run [wire "{'type':'action','action':{'command':'chat','sequence_index':7}}|{'type':'action','action':{'command':'chat'}}|{'type':'action','action':{'command':'chat','sequence_index':7}}|{'type':'action','action':{'command':'chat','sequence_index':2}}|"])))
  = [1; 2; 3; 4].
Proof. vm_compute. reflexivity. Qed.

(** ** The relay *)

Module RelayFacts.
Import Relay.

Section Handler.

Variable JSON_stringify : json -> jsstring.

Notation handler := (handler JSON_stringify).
Notation respond := (respond JSON_stringify).
Notation error_record := (error_record JSON_stringify).

Lemma str_eqb_eq a b : str_eqb a b = true <-> a = b.
Proof.
  unfold str_eqb. destruct (list_eq_dec N.eq_dec a b); split;
    intros H; congruence.
Qed.

Lemma is_POST_true m : is_POST m = true <-> m = Some (js "POST").
Proof.
  destruct m as [s|]; simpl; [|split; discriminate].
  rewrite str_eqb_eq. split; congruence.
Qed.

Lemma trimStart_spaces s :
  Forall (fun u => is_space u = true) s -> trimStart s = [].
Proof. induction 1 as [|u s Hu _ IH]; simpl; [|rewrite Hu]; auto. Qed.

Lemma trim_spaces s : Forall (fun u => is_space u = true) s -> trim s = [].
Proof. intros H. unfold trim. rewrite (trimStart_spaces H). reflexivity. Qed.

Lemma checked_message_unusable m : message_unusable m -> checked_message m = None.
Proof.
  unfold checked_message.
  intros [->|[(v & -> & Hv)|(s & -> & Hs)]]; [reflexivity| |].
  - destruct (negb (truthy (Some v))); [reflexivity|].
    destruct v; try reflexivity. now destruct (Hv s).
  - destruct (negb (truthy (Some (JStr s)))); [reflexivity|].
    rewrite (trim_spaces Hs). reflexivity.
Qed.

Lemma or_else_absent a b : absent a -> or_else a b = b.
Proof. intros [->| ->]; reflexivity. Qed.

Lemma resolve_baseUrl_missing fields env :
  base_address_missing fields env ->
  opt_truthy (resolve_baseUrl (agent_config fields) env) = false.
Proof.
  intros (Hc & Hb & Hp). unfold resolve_baseUrl.
  assert (Ha : absent (match agent_config fields with
                       | Some cfg => base_url cfg
                       | None => None
                       end)).
  { destruct (agent_config fields) as [cfg|];
      [apply Hc; reflexivity | now left]. }
  rewrite (@or_else_absent _ (AGENT_BASE_URL env) Ha).
  rewrite (@or_else_absent _ (AGENT_PROXY_URL env) Hb).
  destruct Hp as [->| ->]; reflexivity.
Qed.

Lemma rejected_no_upstream lo hi log out :
  rejected_with lo hi log out ->
  upstream_requests (snd out) = upstream_requests log.
Proof.
  intros (code & text & _ & ->). unfold upstream_requests. simpl.
  rewrite filter_app, length_app. simpl. apply Nat.add_0_r.
Qed.

Lemma handler_wrong_method req env upstream now log :
  method req <> Some (js "POST") ->
  handler req env upstream now log
  = (Normal tt,
     log ++ [ResStatus 405; ResJson (error_body "Method not allowed")]).
Proof.
  intros H. unfold Relay.handler.
  destruct (is_POST (method req)) eqn:E; [now apply is_POST_true in E|].
  simpl. unfold bind, perform, modify. simpl. now rewrite <- app_assoc.
Qed.

(** A POST whose body can be read goes on with the properties read. *)
Lemma handler_fields req fields env upstream now log :
  is_POST (method req) = true ->
  req_body req = BodyValue fields ->
  handler req env upstream now log = respond fields env upstream now log.
Proof. intros Hm Hb. unfold Relay.handler. rewrite Hm, Hb. reflexivity. Qed.

(** A POST whose body is [null] or [undefined]: the handler throws a
    [TypeError] and has done nothing. *)
Lemma handler_unreadable_body req env upstream now log :
  method req = Some (js "POST") ->
  (forall fields, req_body req <> BodyValue fields) ->
  exists m,
    handler req env upstream now log = (Throw (ErrorObject TypeError m), log).
Proof.
  intros Hm Hb. apply is_POST_true in Hm. unfold Relay.handler. rewrite Hm.
  destruct (req_body req) as [| |fields]; [| |now destruct (Hb fields)];
    eexists; reflexivity.
Qed.

Lemma respond_unusable_message fields env upstream now log :
  message_unusable (message fields) ->
  respond fields env upstream now log
  = (Normal tt,
     log ++ [ResStatus 400;
             ResJson (error_body
                        "Message is required and must be a non-empty string")]).
Proof.
  intros H. unfold Relay.respond. rewrite (checked_message_unusable H).
  unfold bind, perform, modify. simpl. now rewrite <- app_assoc.
Qed.

Lemma handler_unusable_message req fields env upstream now log :
  req_body req = BodyValue fields ->
  message_unusable (message fields) ->
  rejected_with 400 500 log (handler req env upstream now log).
Proof.
  intros Hb H.
  destruct (is_POST (method req)) eqn:Hm.
  - rewrite (@handler_fields req fields env upstream now log Hm Hb).
    rewrite (@respond_unusable_message fields env upstream now log H).
    exists 400, "Message is required and must be a non-empty string"%string.
    split; [lia | reflexivity].
  - exists 405, "Method not allowed"%string. split; [lia|].
    apply handler_wrong_method. intros E. apply is_POST_true in E. congruence.
Qed.

Lemma handler_missing_base_address req fields env upstream now log :
  req_body req = BodyValue fields ->
  base_address_missing fields env ->
  rejected_with 400 600 log (handler req env upstream now log).
Proof.
  intros Hb H.
  destruct (is_POST (method req)) eqn:Hm.
  - rewrite (@handler_fields req fields env upstream now log Hm Hb). unfold Relay.respond.
    destruct (checked_message (message fields)).
    + rewrite (resolve_baseUrl_missing H). simpl.
      exists 500, "Agent configuration missing. AGENT_BASE_URL or AGENT_PROXY_URL environment variable required."%string.
      split; [lia|]. unfold bind, perform, modify. simpl.
      now rewrite <- app_assoc.
    + exists 400, "Message is required and must be a non-empty string"%string.
      split; [lia|]. unfold bind, perform, modify. simpl.
      now rewrite <- app_assoc.
  - exists 405, "Method not allowed"%string. split; [lia|].
    apply handler_wrong_method. intros E. apply is_POST_true in E. congruence.
Qed.

(** C8, amended. A method other than POST is answered with 405, whatever
    the body; and for a body that is an object, as the [StreamRequest]
    annotation of the handler declares: a missing, non-string or
    white-space-only message is answered with a 4xx status, a base address
    that is missing or empty in the request and in the environment with a
    4xx or 5xx status; each time with a JSON body [{ error: ... }] and
    without any request to the upstream. *)
Theorem invalid_request_rejected
  (req : NextApiRequest) (env : process_env) (upstream : fetch_result)
  (now : spec_float) (log : server) :
  (method req <> Some (js "POST") ->
     handler req env upstream now log
     = (Normal tt,
        log ++ [ResStatus 405; ResJson (error_body "Method not allowed")])
     /\ upstream_requests (snd (handler req env upstream now log))
        = upstream_requests log)
  /\ (forall fields,
        req_body req = BodyValue fields ->
        message_unusable (message fields) ->
        rejected_with 400 500 log (handler req env upstream now log)
        /\ upstream_requests (snd (handler req env upstream now log))
           = upstream_requests log)
  /\ (forall fields,
        req_body req = BodyValue fields ->
        base_address_missing fields env ->
        rejected_with 400 600 log (handler req env upstream now log)
        /\ upstream_requests (snd (handler req env upstream now log))
           = upstream_requests log).
Proof.
  split; [|split].
  - intros H. split; [now apply handler_wrong_method|].
    apply rejected_no_upstream with (lo := 405) (hi := 406).
    exists 405, "Method not allowed"%string.
    split; [lia | now apply handler_wrong_method].
  - intros fields Hb H.
    assert (R : rejected_with 400 500 log (handler req env upstream now log))
      by exact (@handler_unusable_message req fields env upstream now log Hb H).
    split; [exact R | exact (rejected_no_upstream R)].
  - intros fields Hb H.
    assert (R : rejected_with 400 600 log (handler req env upstream now log))
      by exact (@handler_missing_base_address req fields env upstream now log Hb H).
    split; [exact R | exact (rejected_no_upstream R)].
Qed.

(** *** Requests that reach the upstream *)

Lemma forward_log values failure : forall log,
  forward values failure log
  = (match failure with
     | None => Normal tt
     | Some e => Throw e
     end,
     log ++ map ResWrite values).
Proof.
  induction values as [|v values IH]; intros log; simpl.
  - rewrite app_nil_r. destruct failure; reflexivity.
  - unfold bind, perform, modify. simpl. rewrite IH, <- app_assoc. reflexivity.
Qed.

Lemma reaches_upstream_guards req env url :
  reaches_upstream req env url ->
  exists fields,
    is_POST (method req) = true
    /\ req_body req = BodyValue fields
    /\ (exists s, checked_message (message fields) = Some s)
    /\ opt_truthy (resolve_baseUrl (agent_config fields) env) = true
    /\ template (resolve_baseUrl (agent_config fields) env) = url.
Proof.
  intros (Hm & fields & Hf & (s & Hs & Ht) & Hb & Hu). exists fields.
  split; [now apply is_POST_true|]. split; [exact Hf|]. split.
  - exists s. unfold checked_message. rewrite Hs.
    assert (Htrim : str_truthy (trim s) = true).
    { destruct (trim s) eqn:E; [now destruct Ht | reflexivity]. }
    assert (Hne : str_truthy s = true).
    { destruct s; [now destruct Ht | reflexivity]. }
    simpl. rewrite Hne, Htrim. reflexivity.
  - rewrite Hb. simpl. split; [|reflexivity].
    destruct url; [now destruct Hu | reflexivity].
Qed.







End Handler.


(** A POST whose body is [null]: the handler throws where it reads the
    body, before the [try]; nothing is written and the response is not
    ended. *)
Example null_body_post_throws :
  handler JsonText.JSON_stringify null_body_post empty_env
    service_unavailable example_now []
  = (Throw destructuring_null, [])
  /\ terminal_signals
       (snd (handler JsonText.JSON_stringify null_body_post empty_env
               service_unavailable example_now [])) = 0
  /\ upstream_requests
       (snd (handler JsonText.JSON_stringify null_body_post empty_env
               service_unavailable example_now [])) = 0.
Proof. repeat split. Qed.


(** C8 at three concrete requests: a GET, a POST with a blank message, a
    POST whose only base address is the empty string. *)
Lemma invalid_request_rejected_witness :
  handler JsonText.JSON_stringify
    (example_request (Some (js "GET")) (Some (JStr (js "Deploy nginx")))
                     (Some (js "http://agent:8000")))
    empty_env service_unavailable example_now []
  = (Normal tt, [ResStatus 405; ResJson (error_body "Method not allowed")])
  /\ rejected_with 400 500 []
       (handler JsonText.JSON_stringify
          (example_request (Some (js "POST")) (Some (JStr (js "   ")))
                           (Some (js "http://agent:8000")))
          empty_env service_unavailable example_now [])
  /\ rejected_with 400 600 []
       (handler JsonText.JSON_stringify
          (example_request (Some (js "POST")) (Some (JStr (js "Deploy nginx")))
                           (Some []))
          empty_env service_unavailable example_now []).
Proof.
  split; [|split].
  - apply (proj1 (invalid_request_rejected JsonText.JSON_stringify
                    (example_request (Some (js "GET"))
                       (Some (JStr (js "Deploy nginx")))
                       (Some (js "http://agent:8000")))
                    empty_env service_unavailable example_now [])).
    discriminate.
  - eapply (proj1 (proj2 (invalid_request_rejected JsonText.JSON_stringify
                    (example_request (Some (js "POST"))
                       (Some (JStr (js "   ")))
                       (Some (js "http://agent:8000")))
                    empty_env service_unavailable example_now []))).
    + reflexivity.
    + right. right. exists (js "   "). split; [reflexivity|].
      repeat constructor.
  - eapply (proj2 (proj2 (invalid_request_rejected JsonText.JSON_stringify
                    (example_request (Some (js "POST"))
                       (Some (JStr (js "Deploy nginx"))) (Some []))
                    empty_env service_unavailable example_now []))).
    + reflexivity.
    + split; [|split; left; reflexivity].
      intros cfg Hcfg. injection Hcfg as <-. right. reflexivity.
Defined.

(** C8, the claim as stated fails: a POST whose body is [null] carries no
    message, and is answered with no status and no JSON body; the handler
    throws a [TypeError]. *)
Lemma invalid_request_rejected_counterexample : ~ unusable_message_always_rejected.
Proof.
  intros H.
  destruct (H JsonText.JSON_stringify null_body_post empty_env
              service_unavailable example_now [] (or_introl eq_refl))
    as (code & text & _ & Hrun).
  discriminate Hrun.
Qed.

(** The record the relay writes on an upstream failure, read by the
    consumer: it is logged as a parse failure and the call resolves with the
    empty response. *)
Example relay_error_record_at_the_consumer :
  run (writes (snd (handler JsonText.JSON_stringify
                      (example_request (Some (js "POST"))
                         (Some (JStr (js "Deploy nginx")))
                         (Some (js "http://agent:8000")))
                      empty_env service_unavailable example_now [])))
  = (Normal (JStr []),
     {| actionCount := 0; finalResponse := JStr [];
        connectionStatus := connected;
        trace := [ConsoleWarn
                    (FailedToParseStreamingData
                       (ErrorObject Error
                          (JStr (js "Agent proxy error: 503 Service Unavailable")))
                       (wire "{'type':'error','message':'Agent proxy error: 503 Service Unavailable','timestamp':1719676117000}"))] |}).
Proof. vm_compute. reflexivity. Qed.

End RelayFacts.

(** ** The message log *)

Module StoreFacts.
Import Store.

(** C9. [addMessageAtom] appends: the new list is the old one followed by
    the new message; it is one longer, its first elements are the old
    messages in their order, and no other atom changes. *)
Theorem addMessageAtom_appends (message : ChatMessage) (st : atoms) :
  chatMessagesAtom (addMessageAtom message st) = chatMessagesAtom st ++ [message]
  /\ length (chatMessagesAtom (addMessageAtom message st))
     = S (length (chatMessagesAtom st))
  /\ firstn (length (chatMessagesAtom st))
            (chatMessagesAtom (addMessageAtom message st))
     = chatMessagesAtom st
  /\ (forall i m, nth_error (chatMessagesAtom st) i = Some m ->
                  nth_error (chatMessagesAtom (addMessageAtom message st)) i
                  = Some m)
  /\ nth_error (chatMessagesAtom (addMessageAtom message st))
               (length (chatMessagesAtom st))
     = Some message
  /\ chatInputAtom (addMessageAtom message st) = chatInputAtom st
  /\ isAgentTypingAtom (addMessageAtom message st) = isAgentTypingAtom st
  /\ currentConversationAtom (addMessageAtom message st)
     = currentConversationAtom st
  /\ generatedSDLAtom (addMessageAtom message st) = generatedSDLAtom st
  /\ agentConnectionStatusAtom (addMessageAtom message st)
     = agentConnectionStatusAtom st.
Proof.
  unfold addMessageAtom. simpl. repeat split.
  - rewrite length_app. simpl. lia.
  - rewrite firstn_app, Nat.sub_diag, firstn_all. simpl. apply app_nil_r.
  - intros i m H. rewrite nth_error_app1; [exact H|].
    apply nth_error_Some. congruence.
  - rewrite nth_error_app2, Nat.sub_diag; [reflexivity | lia].
Qed.

End StoreFacts.

(** ** The rest of the store *)

Module AgentStoreFacts.
Import Store AgentStore.

Lemma atoms_eta st :
  set_chatMessagesAtom (chatMessagesAtom st) st = st.
Proof. destruct st. reflexivity. Qed.

Lemma update_one_other messageId updates m :
  id m <> messageId -> update_one messageId updates m = m.
Proof.
  intros H. unfold update_one. unfold str_eqb.
  destruct (list_eq_dec N.eq_dec (id m) messageId); [contradiction | reflexivity].
Qed.

Lemma map_fixed {A : Type} (f : A -> A) (xs : list A) :
  (forall x, In x xs -> f x = x) -> map f xs = xs.
Proof.
  induction xs as [|x xs IH]; intros H; [reflexivity|].
  simpl. rewrite (H x (or_introl eq_refl)), IH; [reflexivity|].
  intros y Hy. apply H. now right.
Qed.

Lemma str_eqb_refl s : str_eqb s s = true.
Proof. unfold str_eqb. destruct (list_eq_dec N.eq_dec s s); congruence. Qed.

(** X1. An update for an identifier that no message has changes nothing:
    the store after [updateMessageAtom] is the store before, and nothing
    signals that the message was not found. *)
Theorem update_of_unknown_id_is_silent
  (messageId : jsstring) (updates : ChatMessageUpdates) (st : atoms) :
  (forall m, In m (chatMessagesAtom st) -> id m <> messageId) ->
  updateMessageAtom messageId updates st = st.
Proof.
  intros H. unfold updateMessageAtom. cbv zeta.
  rewrite map_fixed; [apply atoms_eta|].
  intros m Hm. apply update_one_other, H, Hm.
Qed.

Lemma update_of_unknown_id_is_silent_witness :
  updateMessageAtom (js "missing")
    {| new_id := None; new_type := None; new_content := Some (js "edited");
       new_timestamp := None; new_status := None; new_sdl := None;
       new_actionType := None; new_sequenceIndex := None |}
    (addMessageAtom
       {| id := js "m1"; type := user; content := js "Hi"; timestamp := 1;
          status := Some sent; sdl := None; actionType := None;
          sequenceIndex := None |} initial)
  = addMessageAtom
      {| id := js "m1"; type := user; content := js "Hi"; timestamp := 1;
         status := Some sent; sdl := None; actionType := None;
         sequenceIndex := None |} initial.
Proof.
  apply update_of_unknown_id_is_silent.
  intros m [<-|[]]. discriminate.
Defined.

Lemma spread_merge m u1 u2 :
  spread (spread m u1) u2 = spread m (merge u1 u2).
Proof.
  unfold spread, merge, later, later_key. simpl.
  destruct (new_id u2), (new_type u2), (new_content u2), (new_timestamp u2),
    (new_status u2), (new_sdl u2), (new_actionType u2), (new_sequenceIndex u2);
    reflexivity.
Qed.

(** X2. Two updates of the same identifier, the first of which does not
    change the identifier (it has no [id] key, or one that gives the same
    identifier), are one update with the later keys winning; in particular
    every message with that identifier gets both. *)
Theorem updates_compose
  (messageId : jsstring) (u1 u2 : ChatMessageUpdates) (st : atoms) :
  (forall i, new_id u1 = Some i -> i = messageId) ->
  updateMessageAtom messageId u2 (updateMessageAtom messageId u1 st)
  = updateMessageAtom messageId (merge u1 u2) st.
Proof.
  intros H. unfold updateMessageAtom, set_chatMessagesAtom. simpl. f_equal.
  rewrite map_map. apply map_ext. intros m. unfold update_one.
  destruct (str_eqb (id m) messageId) eqn:E.
  - assert (Hid : id (spread m u1) = id m).
    { unfold spread. simpl. destruct (new_id u1) as [i|] eqn:Hi; [|reflexivity].
      simpl. rewrite (H i eq_refl). unfold str_eqb in E.
      destruct (list_eq_dec N.eq_dec (id m) messageId);
        [congruence | discriminate E]. }
    rewrite Hid, E. apply spread_merge.
  - rewrite E. reflexivity.
Qed.

(** X2 on a log of a user message and an agent message with the identifier:
    the first update sets the content and the status and repeats the
    identifier, the second sets the status again. *)
Lemma updates_compose_witness :
  chatMessagesAtom
    (updateMessageAtom (js "action-5")
       {| new_id := None; new_type := None; new_content := None;
          new_timestamp := None; new_status := Some (Some completed);
          new_sdl := None; new_actionType := None; new_sequenceIndex := None |}
       (updateMessageAtom (js "action-5")
          {| new_id := Some (js "action-5"); new_type := None;
             new_content := Some (js "done"); new_timestamp := None;
             new_status := Some (Some pending); new_sdl := None;
             new_actionType := None; new_sequenceIndex := None |}
          (addMessageAtom
             {| id := js "action-5"; type := agent; content := js "working";
                timestamp := 2; status := Some sending; sdl := None;
                actionType := None; sequenceIndex := None |}
             (addMessageAtom
                {| id := js "m1"; type := user; content := js "Hi";
                   timestamp := 1; status := Some sent; sdl := None;
                   actionType := None; sequenceIndex := None |} initial))))
  = [ {| id := js "m1"; type := user; content := js "Hi"; timestamp := 1;
         status := Some sent; sdl := None; actionType := None;
         sequenceIndex := None |};
      {| id := js "action-5"; type := agent; content := js "done";
         timestamp := 2; status := Some completed; sdl := None;
         actionType := None; sequenceIndex := None |} ].
Proof.
  rewrite updates_compose.
  - reflexivity.
  - intros i Hi. injection Hi as <-. reflexivity.
Defined.

(** X3. Appending and updating commute up to the new message itself:
    updating after an append is appending, to the updated log, the new
    message updated if it has the identifier and as it is otherwise. *)
Theorem update_after_add
  (messageId : jsstring) (updates : ChatMessageUpdates)
  (message : ChatMessage) (st : atoms) :
  updateMessageAtom messageId updates (addMessageAtom message st)
  = addMessageAtom (update_one messageId updates message)
      (updateMessageAtom messageId updates st).
Proof.
  unfold updateMessageAtom, addMessageAtom, set_chatMessagesAtom. simpl.
  rewrite map_app. reflexivity.
Qed.

Lemma skipn_suffix {A : Type} n (xs : list A) :
  xs = firstn n xs ++ skipn n xs.
Proof. symmetry. apply firstn_skipn. Qed.

Lemma visible_messages_window (st : atoms) :
  exists hidden,
    chatMessagesAtom st = hidden ++ visibleMessagesAtom st
    /\ length (visibleMessagesAtom st) = Nat.min (length (chatMessagesAtom st)) 100
    /\ length hidden = length (chatMessagesAtom st) - 100.
Proof.
  unfold visibleMessagesAtom, MAX_VISIBLE_MESSAGES, slice_last. cbv zeta.
  destruct (Nat.ltb_spec 100 (length (chatMessagesAtom st))) as [H|H].
  - exists (firstn (length (chatMessagesAtom st) - 100) (chatMessagesAtom st)).
    split; [apply skipn_suffix|].
    rewrite length_skipn, length_firstn. split; lia.
  - exists []. simpl. split; [reflexivity|]. split; lia.
Qed.

(** X4. The visible messages are the last 100 of the log: the log is some
    hidden older messages followed by the visible ones, which are all of the
    log when it has at most 100 messages and exactly 100 otherwise. *)
Theorem visible_messages_are_the_last_100 (st : atoms) :
  exists hidden,
    chatMessagesAtom st = hidden ++ visibleMessagesAtom st
    /\ length (visibleMessagesAtom st) = Nat.min (length (chatMessagesAtom st)) 100
    /\ length hidden = length (chatMessagesAtom st) - 100.
Proof. apply visible_messages_window. Qed.

Lemma filter_user_agent (messages : list ChatMessage) :
  length messages
  = length (filter is_user messages) + length (filter is_agent messages).
Proof.
  induction messages as [|m messages IH]; [reflexivity|].
  assert (H : is_agent m = negb (is_user m)).
  { unfold is_user, is_agent. now destruct (type m). }
  simpl. rewrite H. destruct (is_user m); simpl; lia.
Qed.

Lemma last_item_app {A : Type} (xs : list A) x : last_item (xs ++ [x]) = Some x.
Proof.
  unfold last_item. rewrite length_app. simpl.
  rewrite nth_error_app2 by lia.
  replace (length xs + 1 - 1 - length xs) with 0 by lia. reflexivity.
Qed.

(** X5. In the conversation summary the total is the number of user
    messages plus the number of agent messages, and an append raises the
    total by one, makes the new message's time the last activity and leaves
    the start time of a non-empty conversation as it is. *)
Theorem summary_counts (message : ChatMessage) (st : atoms) :
  totalMessages (conversationSummaryAtom st)
  = userMessages (conversationSummaryAtom st)
    + agentMessages (conversationSummaryAtom st)
  /\ totalMessages (conversationSummaryAtom (addMessageAtom message st))
     = S (totalMessages (conversationSummaryAtom st))
  /\ lastActivity (conversationSummaryAtom (addMessageAtom message st))
     = Some (timestamp message)
  /\ startTime (conversationSummaryAtom (addMessageAtom message st))
     = match startTime (conversationSummaryAtom st) with
       | Some t => Some t
       | None => Some (timestamp message)
       end.
Proof.
  unfold conversationSummaryAtom, addMessageAtom. simpl.
  split; [apply filter_user_agent|]. split.
  - rewrite length_app. simpl. lia.
  - split; [now rewrite last_item_app|].
    unfold first_item. destruct (chatMessagesAtom st); reflexivity.
Qed.

(** X6. The last agent message after an append: the new message when it is
    an agent message, the one before when it is a user message. *)
Theorem last_agent_message_after_add (message : ChatMessage) (st : atoms) :
  lastAgentMessageAtom (addMessageAtom message st)
  = match type message with
    | agent => Some message
    | user => lastAgentMessageAtom st
    end.
Proof.
  unfold lastAgentMessageAtom, addMessageAtom. simpl.
  rewrite filter_app. simpl. unfold is_agent at 2.
  destruct (type message).
  - now rewrite app_nil_r.
  - apply last_item_app.
Qed.

Section Template.

Variable TemplateCreation : Type.

(** X7. Clearing the chat, from any state: no message is left or visible,
    the welcome screen is shown, nothing can be sent, the generated SDL and
    the template are gone; the connection status and the modal flag are
    kept; clearing twice is clearing once. *)
Theorem clear_chat_resets (st : all_atoms TemplateCreation) :
  let st' := clearChatAtom st in
  messageCountAtom (chat st') = 0
  /\ visibleMessagesAtom (chat st') = []
  /\ shouldShowWelcomeAtom (chat st') = true
  /\ isConversationActiveAtom (chat st') = false
  /\ canSendMessageAtom (chat st') = false
  /\ generatedSDLAtom (chat st') = None
  /\ agentTemplateAtom st' = None
  /\ agentConnectionStatusAtom (chat st') = agentConnectionStatusAtom (chat st)
  /\ isAgentModalOpenAtom st' = isAgentModalOpenAtom st
  /\ clearChatAtom st' = st'.
Proof. repeat split. Qed.

End Template.

End AgentStoreFacts.

(** ** Trimming *)

Lemma trimStart_head s :
  trimStart s = [] \/ exists c r, trimStart s = c :: r /\ is_space c = false.
Proof.
  induction s as [|c s IH]; simpl; [now left|].
  destruct (is_space c) eqn:E; [exact IH|]. right. now exists c, s.
Qed.

Lemma trimStart_fixed c r : is_space c = false -> trimStart (c :: r) = c :: r.
Proof. intros H. simpl. now rewrite H. Qed.

Lemma trimStart_idempotent s : trimStart (trimStart s) = trimStart s.
Proof.
  destruct (trimStart_head s) as [->|(c & r & -> & H)]; [reflexivity|].
  now apply trimStart_fixed.
Qed.

Lemma trimStart_keeps_last l c :
  is_space c = false -> exists l', trimStart (l ++ [c]) = l' ++ [c].
Proof.
  intros H. induction l as [|x l IH]; simpl.
  - rewrite H. now exists [].
  - destruct (is_space x); [exact IH|]. now exists (x :: l).
Qed.

Lemma trimEnd_keeps_head c r :
  is_space c = false -> exists r', trimEnd (c :: r) = c :: r'.
Proof.
  intros H. unfold trimEnd. simpl.
  destruct (trimStart_keeps_last (rev r) c H) as [l' ->].
  rewrite rev_unit. now exists (rev l').
Qed.

Lemma trimEnd_idempotent s : trimEnd (trimEnd s) = trimEnd s.
Proof. unfold trimEnd. now rewrite rev_involutive, trimStart_idempotent. Qed.

Lemma trimEnd_last s :
  trimEnd s = [] \/ exists r c, trimEnd s = r ++ [c] /\ is_space c = false.
Proof.
  unfold trimEnd.
  destruct (trimStart_head (rev s)) as [->|(c & r & -> & H)]; [now left|].
  right. exists (rev r), c. now split.
Qed.

(** What [trim] gives is empty, or begins and ends with a code unit that is
    not white space. *)
Lemma trim_shape s :
  trim s = []
  \/ ((exists c r, trim s = c :: r /\ is_space c = false)
      /\ (exists r c, trim s = r ++ [c] /\ is_space c = false)).
Proof.
  unfold trim.
  destruct (trimStart_head s) as [->|(c & r & -> & H)]; [now left|].
  right. split.
  - destruct (trimEnd_keeps_head c r H) as [r' ->]. now exists c, r'.
  - destruct (trimEnd_last (c :: r)) as [E|Hlast]; [|exact Hlast].
    destruct (trimEnd_keeps_head c r H) as [r' E']. congruence.
Qed.

Lemma trim_idempotent s : trim (trim s) = trim s.
Proof.
  unfold trim.
  destruct (trimStart_head s) as [E0|(c & r & E0 & H)]; rewrite E0;
    [reflexivity|].
  destruct (trimEnd_keeps_head c r H) as [r' E].
  rewrite E, (trimStart_fixed c r' H), <- E.
  apply trimEnd_idempotent.
Qed.

Lemma length_trimStart s : length (trimStart s) <= length s.
Proof.
  induction s as [|c s IH]; simpl; [lia|].
  destruct (is_space c); simpl; lia.
Qed.

Lemma length_trim s : length (trim s) <= length s.
Proof.
  unfold trim, trimEnd. rewrite length_rev.
  pose proof (length_trimStart (rev (trimStart s))) as H1.
  pose proof (length_trimStart s) as H2.
  rewrite length_rev in H1. lia.
Qed.

Lemma trim_all_spaces s : Forall (fun u => is_space u = true) s -> trim s = [].
Proof.
  intros H. unfold trim.
  assert (E : trimStart s = []).
  { induction H as [|u s Hu _ IH]; simpl; [|rewrite Hu]; auto. }
  now rewrite E.
Qed.

(** ** The chat state hook *)

Module ChatStateFacts.
Import Store AgentStore ChatState.

Section Hook.

Variable Number_toString : spec_float -> jsstring.

Notation addAgentMessage := (addAgentMessage Number_toString).

(** X8. Agent messages are identified by their sequence index when it is
    truthy, not by a fresh identifier: two agent messages added with the
    same non-zero index get the same [id], whatever [nanoid()] gives, and an
    update for that [id] rewrites both entries of the log. *)
Theorem same_sequence_index_same_id
  (content1 content2 : jsstring) (o1 o2 : AgentMessageOptions)
  (n : spec_float) (nanoid1 nanoid2 : jsstring) (t1 t2 : Z)
  (updates : ChatMessageUpdates) (st : atoms) :
  opt_sequenceIndex o1 = Some n ->
  opt_sequenceIndex o2 = Some n ->
  number_truthy n = true ->
  let '(m1, st1) := addAgentMessage content1 (Some o1) nanoid1 t1 st in
  let '(m2, st2) := addAgentMessage content2 (Some o2) nanoid2 t2 st1 in
  id m1 = js "action-" ++ Number_toString n
  /\ id m2 = id m1
  /\ chatMessagesAtom (updateExistingMessage (id m1) updates st2)
     = chatMessagesAtom (updateExistingMessage (id m1) updates st)
       ++ [spread m1 updates; spread m2 updates].
Proof.
  intros H1 H2 Hn. unfold ChatState.addAgentMessage, agent_message_id. simpl.
  rewrite H1, H2, Hn. split; [reflexivity|]. split; [reflexivity|].
  unfold updateExistingMessage, updateMessageAtom, addMessageAtom. simpl.
  rewrite <- app_assoc, map_app. simpl.
  unfold update_one at 2 3. simpl.
  rewrite AgentStoreFacts.str_eqb_refl. reflexivity.
Qed.

(** X9. The content stored by [addUserMessage] and [addAgentMessage] is the
    given content trimmed: it is empty, or begins and ends with a code unit
    that is not white space; a content of white space only is stored as a
    message with the empty content. *)
Theorem stored_content_is_trimmed
  (content : jsstring) (options : option AgentMessageOptions)
  (nanoid : jsstring) (now : Z) (st : atoms) :
  let mu := fst (addUserMessage content nanoid now st) in
  let ma := fst (addAgentMessage content options nanoid now st) in
  Store.content mu = Store.content ma
  /\ trim (Store.content mu) = Store.content mu
  /\ (Store.content mu = []
      \/ ((exists c r, Store.content mu = c :: r /\ is_space c = false)
          /\ (exists r c, Store.content mu = r ++ [c] /\ is_space c = false)))
  /\ (Forall (fun u => is_space u = true) content -> Store.content mu = [])
  /\ chatMessagesAtom (snd (addUserMessage content nanoid now st))
     = chatMessagesAtom st ++ [mu].
Proof.
  simpl. split; [reflexivity|]. split; [apply trim_idempotent|].
  split; [apply trim_shape|]. split; [apply trim_all_spaces | reflexivity].
Qed.

End Hook.

Lemma filter_length_le {A : Type} (f : A -> bool) (xs : list A) :
  length (filter f xs) <= length xs.
Proof.
  induction xs as [|x xs IH]; simpl; [lia|]. destruct (f x); simpl; lia.
Qed.

Lemma has_type_partition (messages : list ChatMessage) :
  length messages
  = length (filter (has_type user) messages)
    + length (filter (has_type agent) messages).
Proof.
  induction messages as [|m messages IH]; [reflexivity|].
  assert (H : has_type agent m = negb (has_type user m)).
  { unfold has_type. now destruct (type m). }
  cbn [filter]. rewrite H. destruct (has_type user m); simpl; lia.
Qed.

(** X10. The statistics of the hook are taken over the visible messages
    only: the total never exceeds 100, it is the number of user messages
    plus the number of agent messages, and the numbers of SDL and error
    messages are at most the total. *)
Theorem conversation_stats_bounds (date_now : Z) (st : atoms) :
  let stats := getConversationStats date_now st in
  stat_totalMessages stats = Nat.min (length (chatMessagesAtom st)) 100
  /\ stat_totalMessages stats = stat_userMessages stats + stat_agentMessages stats
  /\ stat_sdlMessages stats <= stat_totalMessages stats
  /\ stat_errorMessages stats <= stat_totalMessages stats.
Proof.
  simpl. split.
  - destruct (AgentStoreFacts.visible_messages_window st) as (hidden & _ & H & _).
    exact H.
  - split; [apply has_type_partition|]. split; apply filter_length_le.
Qed.

(** X11. [getLastMessage(type)] gives a visible message of that type, the
    last one: no visible message of the type comes after it; it gives null
    exactly when no visible message has the type. *)
Theorem last_message_of_type (ty : sender) (st : atoms) :
  match getLastMessage (Some ty) st with
  | Some m =>
      type m = ty
      /\ exists before after,
           visibleMessagesAtom st = before ++ m :: after
           /\ Forall (fun m' => type m' <> ty) after
  | None => Forall (fun m' => type m' <> ty) (visibleMessagesAtom st)
  end.
Proof.
  unfold getLastMessage. cbv zeta.
  generalize (visibleMessagesAtom st) as messages. intros messages.
  induction messages as [|m messages IH] using rev_ind; [constructor|].
  rewrite filter_app. simpl.
  destruct (has_type ty m) eqn:E.
  - rewrite AgentStoreFacts.last_item_app. split.
    + unfold has_type in E. destruct ty, (type m); congruence.
    + exists messages, []. split; [reflexivity | constructor].
  - rewrite app_nil_r.
    assert (Hm : type m <> ty).
    { unfold has_type in E. destruct ty, (type m); congruence. }
    destruct (last_item (filter (has_type ty) messages)) as [m0|].
    + destruct IH as (Ht & before & after & Hs & Ha). split; [exact Ht|].
      exists before, (after ++ [m]). rewrite Hs, <- app_assoc. split; [reflexivity|].
      apply Forall_app. split; [exact Ha | now constructor].
    + apply Forall_app. split; [exact IH | now constructor].
Qed.

End ChatStateFacts.

(** ** More on the consumer *)

Section ConsumerExtras.

Variable JSON_parse : jsstring -> parse_result.
Variable onAction_throws : json -> nat -> option exn.

Notation process_line := (process_line JSON_parse onAction_throws).
Notation process_chunk := (process_chunk JSON_parse onAction_throws).
Notation line_effect := (line_effect JSON_parse onAction_throws).
Notation residual_effect := (residual_effect JSON_parse).
Notation sendStreamingMessage := (sendStreamingMessage JSON_parse onAction_throws).
Notation consume := (consume JSON_parse onAction_throws).

#[local] Arguments truthy : simpl never.
#[local] Arguments is_string_lit : simpl never.
#[local] Arguments lookup_member : simpl never.

Lemma record_effect_cases trimmedLine data c :
  let handed :=
    if is_string_lit (discriminator data) "action" then
      match field data "action" with
      | Some a => if truthy (Some a) then Some a else None
      | None => None
      end
    else None in
  let c' := record_effect onAction_throws trimmedLine data c in
  match handed with
  | None => c' = c \/ (exists w, c' = warned c w) \/ (exists r, c' = answered c r)
  | Some a => c' = delivered c a \/ exists w, c' = warned (delivered c a) w
  end.
Proof.
  cbv zeta. unfold record_effect.
  destruct (is_string_lit (discriminator data) "action").
  { destruct (field data "action") as [a|]; [|now left].
    destruct (truthy (Some a)); [|now left].
    destruct (onAction_throws a (S (actionCount c))); [right; eauto | now left]. }
  destruct (is_string_lit (discriminator data) "final_response").
  { destruct (field data "response") as [r|]; [|now left].
    destruct (truthy (Some r)); [right; right; eauto | now left]. }
  destruct (is_string_lit (discriminator data) "error"); right; left; eauto.
Qed.

(** What a line does, with the action it hands over. *)
Lemma line_effect_cases line c :
  match action_of_line JSON_parse line with
  | None =>
      line_effect line c = c
      \/ (exists w, line_effect line c = warned c w)
      \/ (exists r, line_effect line c = answered c r)
  | Some a =>
      line_effect line c = delivered c a
      \/ exists w, line_effect line c = warned (delivered c a) w
  end.
Proof.
  unfold Consumer.line_effect, action_of_line.
  destruct (str_truthy (trim line)); [|now left].
  destruct (JSON_parse (trim line)) as [data|msg]; [|right; left; eauto].
  pose proof (record_effect_cases (trim line) data c) as H. cbv zeta in H.
  destruct data; try exact H. right. left. eauto.
Qed.

Lemma residual_effect_cases buffer c :
  residual_effect buffer c = c
  \/ (exists w, residual_effect buffer c = warned c w)
  \/ (exists r, residual_effect buffer c = answered c r).
Proof.
  unfold Consumer.residual_effect.
  destruct (str_truthy (trim buffer)); [|now left].
  destruct (JSON_parse (trim buffer)) as [data|msg]; [|right; left; eauto].
  assert (H : residual_record_effect data c = c
              \/ (exists w, residual_record_effect data c = warned c w)
              \/ (exists r, residual_record_effect data c = answered c r)).
  { unfold residual_record_effect.
    destruct (is_string_lit (discriminator data) "final_response"); [|now left].
    destruct (field data "response") as [r|]; [|now left].
    destruct (truthy (Some r)); [right; right; eauto | now left]. }
  destruct data; try exact H. right. left. eauto.
Qed.

Lemma delivered_actions_app a b :
  delivered_actions (a ++ b) = delivered_actions a ++ delivered_actions b.
Proof. apply flat_map_app. Qed.

Lemma actions_of_lines_app a b :
  actions_of_lines JSON_parse (a ++ b)
  = actions_of_lines JSON_parse a ++ actions_of_lines JSON_parse b.
Proof. apply flat_map_app. Qed.

Lemma tracked_step t0 lines c c' evs more :
  tracked JSON_parse t0 lines c ->
  trace c' = trace c ++ evs ->
  delivered_actions evs = actions_of_lines JSON_parse more ->
  tracked JSON_parse t0 (lines ++ more) c'.
Proof.
  intros (evs0 & Ht & Hd) Hc He. exists (evs0 ++ evs). split.
  - rewrite Hc, Ht, app_assoc. reflexivity.
  - rewrite delivered_actions_app, actions_of_lines_app, Hd, He. reflexivity.
Qed.

Lemma tracked_line t0 lines line c :
  tracked JSON_parse t0 lines c ->
  tracked JSON_parse t0 (lines ++ [line]) (line_effect line c).
Proof.
  intros H. pose proof (line_effect_cases line c) as Hc.
  assert (Hone : actions_of_lines JSON_parse [line]
                 = match action_of_line JSON_parse line with
                   | Some a => [a]
                   | None => []
                   end).
  { unfold actions_of_lines. simpl. apply app_nil_r. }
  destruct (action_of_line JSON_parse line) as [a|].
  - destruct Hc as [->|[w ->]].
    + apply tracked_step with (c := c) (evs := [OnAction a (S (actionCount c))]);
        [exact H | reflexivity | now rewrite Hone].
    + apply tracked_step
        with (c := c) (evs := [OnAction a (S (actionCount c)); ConsoleWarn w]);
        [exact H | simpl; now rewrite <- app_assoc | now rewrite Hone].
  - destruct Hc as [->|[[w ->]|[r ->]]].
    + apply tracked_step with (c := c) (evs := []);
        [exact H | now rewrite app_nil_r | now rewrite Hone].
    + apply tracked_step with (c := c) (evs := [ConsoleWarn w]);
        [exact H | reflexivity | now rewrite Hone].
    + apply tracked_step with (c := c) (evs := [FinalResponseSet r]);
        [exact H | reflexivity | now rewrite Hone].
Qed.

Lemma tracked_lines t0 more : forall lines c,
  tracked JSON_parse t0 lines c ->
  tracked JSON_parse t0 (lines ++ more)
    (fold_left (fun c' l => line_effect l c') more c).
Proof.
  induction more as [|l more IH]; intros lines c H; simpl.
  - now rewrite app_nil_r.
  - replace (lines ++ l :: more) with ((lines ++ [l]) ++ more)
      by now rewrite <- app_assoc.
    apply IH, tracked_line, H.
Qed.

Lemma tracked_residual t0 lines buffer c :
  tracked JSON_parse t0 lines c ->
  tracked JSON_parse t0 lines (residual_effect buffer c).
Proof.
  intros H. rewrite <- (app_nil_r lines).
  destruct (residual_effect_cases buffer c) as [->|[[w ->]|[r ->]]].
  - now rewrite app_nil_r.
  - apply tracked_step with (c := c) (evs := [ConsoleWarn w]);
      [exact H | reflexivity | reflexivity].
  - apply tracked_step with (c := c) (evs := [FinalResponseSet r]);
      [exact H | reflexivity | reflexivity].
Qed.

Lemma tracked_start c : tracked JSON_parse (trace c) [] (reset (with_status connected c)).
Proof. exists []. simpl. split; [now rewrite app_nil_r | reflexivity]. Qed.

(** A stream whose read fails: the call rejects with the error of the read
    after the complete lines read so far have been handled; the residual is
    not looked at. *)
Lemma send_streaming_rejected message values e c :
  str_truthy (trim message) = true ->
  sendStreamingMessage message (streaming_response values (Some e)) c
  = (Throw e,
     with_status error
       (fold_left (fun c' l => line_effect l c')
          (complete_lines (concat values)) (reset (with_status connected c)))).
Proof.
  intros Hm. unfold Consumer.sendStreamingMessage. rewrite Hm. simpl.
  unfold try_catch, bind, setConnectionStatus, modify, ret, throw. simpl.
  fold (with_status connected c).
  rewrite consume_spec. simpl. rewrite after_lines_effect. reflexivity.
Qed.

Lemma onAction_calls_combine evs :
  onAction_calls evs = combine (delivered_actions evs) (action_counts evs).
Proof.
  induction evs as [|e evs IH]; [reflexivity|].
  destruct e; simpl; rewrite <- IH; reflexivity.
Qed.

Lemma delivered_counts_length evs :
  length (delivered_actions evs) = length (action_counts evs).
Proof.
  induction evs as [|e evs IH]; [reflexivity|].
  destruct e; simpl; rewrite ?IH; reflexivity.
Qed.

Lemma tracked_same t0 c : trace c = t0 -> tracked JSON_parse t0 [] c.
Proof. intros <-. exists []. split; [now rewrite app_nil_r | reflexivity]. Qed.

Lemma tracked_consume reader c :
  tracked JSON_parse (trace c) (complete_lines (concat (chunks reader)))
    (snd (consume reader c)).
Proof.
  rewrite consume_spec. cbv zeta. rewrite after_lines_effect.
  assert (H : tracked JSON_parse (trace c)
                (complete_lines (concat (chunks reader)))
                (fold_left (fun c' l => line_effect l c')
                   (complete_lines (concat (chunks reader))) (reset c))).
  { apply (@tracked_lines (trace c) (complete_lines (concat (chunks reader)))
             [] (reset c)).
    now apply tracked_same. }
  destruct (read_failure reader); simpl; [exact H|].
  rewrite process_remaining_effect. simpl. now apply tracked_residual.
Qed.

(** The deliveries of a call are the actions of the lines it handles. *)
Lemma tracked_send message fetched c :
  tracked JSON_parse (trace c) (streamed_lines message fetched)
    (snd (sendStreamingMessage message fetched c)).
Proof.
  unfold Consumer.sendStreamingMessage, streamed_lines.
  destruct (str_truthy (trim message)); simpl; [|now apply tracked_same].
  unfold try_catch, bind, setConnectionStatus, modify, ret, throw. simpl.
  destruct fetched as [e|r]; simpl; [now apply tracked_same|].
  destruct (ok r); simpl; [|now apply tracked_same].
  destruct (body r) as [reader|]; simpl; [|now apply tracked_same].
  pose proof (tracked_consume reader (with_status connected c)) as H.
  unfold with_status in H. simpl in H.
  destruct (consume reader _) as [[v|e] c2]; exact H.
Qed.

(** C3. Whatever the stream carries (and whatever [sequence_index] its
    actions have), the calls of [onAction] during one call of
    [sendStreamingMessage] are the actions of the lines the read loop
    handles, in line order, the first with the count 1, the second with 2
    and so on: the counts are exactly 1, 2, 3, ... up to the number of
    actions, with no gap and no repeat. *)
Theorem arrival_counts_consecutive
  (message : jsstring) (fetched : fetch_result) (c : client) :
  exists evs,
    trace (snd (sendStreamingMessage message fetched c)) = trace c ++ evs
    /\ action_counts evs = seq 1 (length (action_counts evs))
    /\ onAction_calls evs
       = combine
           (actions_of_lines JSON_parse (streamed_lines message fetched))
           (seq 1 (length (actions_of_lines JSON_parse
                             (streamed_lines message fetched)))).
Proof.
  destruct (@counts_consecutive_send JSON_parse onAction_throws message
              fetched c) as (evs & Ht & Hc).
  destruct (tracked_send message fetched c) as (evs' & Ht' & Hd).
  assert (He : evs' = evs).
  { rewrite Ht in Ht'. apply app_inv_head in Ht'. congruence. }
  subst evs'. exists evs. split; [exact Ht|]. split; [exact Hc|].
  rewrite onAction_calls_combine, Hd.
  pose proof (delivered_counts_length evs) as Hl. rewrite Hd in Hl.
  rewrite Hl. now rewrite <- Hc.
Qed.

(** X12. The actions given to [onAction] during a call are exactly the
    actions of the complete lines of the payload, in the order of the lines:
    none is dropped, repeated or reordered, whether or not the read fails
    in the end. *)
Theorem actions_delivered_in_line_order
  (message : jsstring) (values : list jsstring) (failure : option exn)
  (c : client) :
  str_truthy (trim message) = true ->
  exists evs,
    trace (snd (sendStreamingMessage message
                  (streaming_response values failure) c))
    = trace c ++ evs
    /\ delivered_actions evs
       = actions_of_lines JSON_parse (complete_lines (concat values)).
Proof.
  intros Hm.
  pose proof (@tracked_lines (trace c) (complete_lines (concat values)) []
                (reset (with_status connected c)) (tracked_start c)) as H.
  simpl in H.
  destruct failure as [e|].
  - rewrite send_streaming_rejected by exact Hm. exact H.
  - rewrite send_streaming_effect by exact Hm. cbv zeta.
    unfold payload_effect. simpl. now apply tracked_residual.
Qed.

(** X13. A stream without a [final_response] event of a truthy response,
    read to its end, resolves with the empty string. *)
Theorem no_final_response_gives_empty_string
  (message : jsstring) (values : list jsstring) (c : client) :
  str_truthy (trim message) = true ->
  (forall l r, In l (split_newline (concat values)) ->
               final_response_event JSON_parse l r -> truthy (Some r) = false) ->
  sendStreamingMessage message (streaming_response values None) c
  = (Normal (JStr []),
     payload_effect JSON_parse onAction_throws (concat values)
       (reset (with_status connected c))).
Proof.
  intros Hm H. rewrite send_streaming_effect by exact Hm. cbv zeta.
  rewrite finalResponse_payload, overwrite_silent; [reflexivity|].
  intros l Hl. apply final_payload_none. intros r. apply H, Hl.
Qed.

(** X14. When a read of the body fails, the call rejects with the error of
    that read and the connection status becomes [error]; the actions of the
    complete lines received before were delivered, and what was left in the
    buffer is dropped. *)
Theorem read_failure_rejects
  (message : jsstring) (values : list jsstring) (e : exn) (c : client) :
  str_truthy (trim message) = true ->
  sendStreamingMessage message (streaming_response values (Some e)) c
  = (Throw e,
     with_status error
       (fold_left (fun c' l => line_effect l c')
          (complete_lines (concat values)) (reset (with_status connected c)))).
Proof. apply send_streaming_rejected. Qed.

Lemma status_line line c :
  connectionStatus (line_effect line c) = connectionStatus c.
Proof.
  pose proof (line_effect_cases line c) as H.
  destruct (action_of_line JSON_parse line).
  - destruct H as [->|[w ->]]; reflexivity.
  - destruct H as [->|[[w ->]|[r ->]]]; reflexivity.
Qed.

Lemma status_lines lines : forall c,
  connectionStatus (fold_left (fun c' l => line_effect l c') lines c)
  = connectionStatus c.
Proof.
  induction lines as [|l lines IH]; intros c; [reflexivity|].
  simpl. rewrite IH. apply status_line.
Qed.

Lemma status_residual buffer c :
  connectionStatus (residual_effect buffer c) = connectionStatus c.
Proof.
  destruct (residual_effect_cases buffer c) as [->|[[w ->]|[r ->]]]; reflexivity.
Qed.

(** X15. The connection status follows the outcome of the call: with a
    message that is not blank, it is [connected] when the call resolves and
    [error] when it rejects; with a blank message the call rejects at once
    and leaves the state as it is. *)
Theorem status_follows_outcome
  (message : jsstring) (fetched : fetch_result) (c : client) :
  (str_truthy (trim message) = true ->
   match fst (sendStreamingMessage message fetched c) with
   | Normal _ =>
       connectionStatus (snd (sendStreamingMessage message fetched c)) = connected
   | Throw _ =>
       connectionStatus (snd (sendStreamingMessage message fetched c)) = error
   end)
  /\ (str_truthy (trim message) = false ->
      sendStreamingMessage message fetched c
      = (Throw (ErrorObject Error (JStr (js "Message cannot be empty"))), c)).
Proof.
  split; intros Hm; unfold Consumer.sendStreamingMessage; rewrite Hm; simpl;
    [|reflexivity].
  unfold try_catch, bind, setConnectionStatus, modify, ret, throw. simpl.
  destruct fetched as [e|r]; simpl; [reflexivity|].
  destruct (ok r); simpl; [|reflexivity].
  destruct (body r) as [reader|]; simpl; [|reflexivity].
  fold (with_status connected c). rewrite consume_spec. cbv zeta.
  rewrite after_lines_effect.
  destruct (read_failure reader); simpl; [reflexivity|].
  rewrite process_remaining_effect. simpl.
  rewrite status_residual, status_lines. reflexivity.
Qed.

(** X16. A chunk that brings no newline to a buffer without one is only
    buffered: the state does not change and the new buffer is the old one
    followed by the chunk; an empty chunk changes nothing at all. *)
Theorem chunk_without_newline_is_buffered
  (buffer value : jsstring) (c : client) :
  Forall (fun u => u <> newline) (buffer ++ value) ->
  process_chunk buffer value c = (Normal (buffer ++ value), c)
  /\ process_chunk buffer [] c = (Normal buffer, c).
Proof.
  intros H.
  assert (Hb : Forall (fun u => u <> newline) buffer).
  { apply Forall_app in H. apply H. }
  split; rewrite process_chunk_spec.
  - unfold residual, complete_lines. rewrite (split_newline_line H). reflexivity.
  - rewrite app_nil_r. unfold residual, complete_lines.
    rewrite (split_newline_line Hb). reflexivity.
Qed.

(** A line that changes no state can be taken out of a stream. *)
Lemma send_without_inert_line
  line message ok0 status0 statusText0 values1 values2 failure before after c :
  (forall s, line_effect line s = s) ->
  line_aligned before ->
  Forall (fun u => u <> newline) line ->
  concat values1 = before ++ line ++ newline :: after ->
  concat values2 = before ++ after ->
  sendStreamingMessage message
    (FetchFulfilled
       {| ok := ok0; status := status0; statusText := statusText0;
          body := Some {| chunks := values1; read_failure := failure |} |}) c
  = sendStreamingMessage message
      (FetchFulfilled
         {| ok := ok0; status := status0; statusText := statusText0;
            body := Some {| chunks := values2; read_failure := failure |} |}) c.
Proof.
  intros Hline Ha Hl H1 H2. unfold Consumer.sendStreamingMessage.
  destruct (negb (str_truthy (trim message))); [reflexivity|].
  unfold try_catch, bind, setConnectionStatus, modify, ret. simpl.
  destruct ok0; simpl; [|reflexivity].
  rewrite !consume_spec. simpl. rewrite H1, H2, !after_lines_effect.
  rewrite (complete_lines_aligned _ Ha), (complete_lines_line _ Hl).
  rewrite (complete_lines_aligned _ Ha), !fold_left_app. simpl.
  rewrite Hline.
  rewrite (residual_aligned_app _ Ha), (residual_line _ Hl).
  rewrite (residual_aligned_app _ Ha). reflexivity.
Qed.

(** X17. Blank lines are skipped: a line of white space only, between whole
    lines of a stream, changes nothing; the call behaves exactly as on the
    stream without it. *)
Theorem blank_lines_are_skipped
  (line : jsstring) (message : jsstring) (ok0 : bool) (status0 : nat)
  (statusText0 : jsstring) (values1 values2 : list jsstring)
  (failure : option exn) (before after : jsstring) (c : client) :
  Forall is_blank line ->
  line_aligned before ->
  concat values1 = before ++ line ++ newline :: after ->
  concat values2 = before ++ after ->
  sendStreamingMessage message
    (FetchFulfilled
       {| ok := ok0; status := status0; statusText := statusText0;
          body := Some {| chunks := values1; read_failure := failure |} |}) c
  = sendStreamingMessage message
      (FetchFulfilled
         {| ok := ok0; status := status0; statusText := statusText0;
            body := Some {| chunks := values2; read_failure := failure |} |}) c.
Proof.
  intros Hb Ha H1 H2.
  apply send_without_inert_line
    with (line := line) (before := before) (after := after); try assumption.
  - intros s. unfold Consumer.line_effect.
    rewrite trim_all_spaces; [reflexivity|].
    eapply Forall_impl; [|exact Hb]. intros u [Hu _]. exact Hu.
  - eapply Forall_impl; [|exact Hb]. intros u [_ Hu]. exact Hu.
Qed.

End ConsumerExtras.

(** ** More on the relay *)

Module RelayExtras.
Import Relay RelayFacts.

Section Handler.

Variable JSON_stringify : json -> jsstring.

Notation handler := (handler JSON_stringify).
Notation respond := (respond JSON_stringify).
Notation error_record := (error_record JSON_stringify).

(** What is written for a body stream: its chunks, then an error record if
    a read failed. *)
Lemma handler_streaming req env url r reader now log :
  reaches_upstream req env url ->
  ok r = true ->
  body r = Some reader ->
  handler req env (FetchFulfilled r) now log
  = (Normal tt,
     log ++ [ResWriteHead 200; Fetch (url ++ js "/stream")]
         ++ map ResWrite (chunks reader)
         ++ [ReleaseLock]
         ++ match read_failure reader with
            | Some e => [error_record e now]
            | None => []
            end
         ++ [ResEnd]).
Proof.
  intros Hreq Hok Hbody.
  destruct (reaches_upstream_guards Hreq)
    as (fields & Hm & Hf & (s & Hs) & Hb & Hu).
  rewrite (@handler_fields JSON_stringify req fields env (FetchFulfilled r)
             now log Hm Hf).
  unfold Relay.respond. rewrite Hs. simpl. rewrite Hb, Hu. simpl.
  unfold try_finally, try_catch, bind, perform, modify, throw, ret.
  simpl. rewrite Hok, Hbody. simpl. rewrite forward_log.
  destruct (read_failure reader) as [e|]; simpl;
    rewrite <- ?app_assoc; simpl; rewrite <- ?app_assoc; reflexivity.
Qed.

Lemma writes_app a b : writes (a ++ b) = writes a ++ writes b.
Proof. apply flat_map_app. Qed.

Lemma writes_map values : writes (map ResWrite values) = values.
Proof. induction values as [|v values IH]; simpl; [|rewrite IH]; reflexivity. Qed.

(** X18. The relay is a pipe: for a request that passes the guards and an
    upstream that answers with a body, what is written to the response is
    the chunks of the upstream, one write per chunk, in order and unchanged,
    followed by one error record exactly when a read of the upstream
    failed. *)
Theorem relay_forwards_chunks_unchanged
  (req : NextApiRequest) (env : process_env) (url : jsstring)
  (r : Response) (reader : body_stream) (now : spec_float) :
  reaches_upstream req env url ->
  ok r = true ->
  body r = Some reader ->
  writes (snd (handler req env (FetchFulfilled r) now []))
  = chunks reader
    ++ match read_failure reader with
       | Some e => [JSON_stringify (errorData e now) ++ [newline]]
       | None => []
       end.
Proof.
  intros Hreq Hok Hbody.
  rewrite handler_streaming with (url := url) (reader := reader);
    [|assumption..].
  simpl. rewrite writes_app, writes_map.
  destruct (read_failure reader); reflexivity.
Qed.

Lemma upstream_requests_app a b :
  upstream_requests (a ++ b) = upstream_requests a + upstream_requests b.
Proof. unfold upstream_requests. now rewrite filter_app, length_app. Qed.

Lemma upstream_requests_writes values :
  upstream_requests (map ResWrite values) = 0.
Proof. induction values; [reflexivity | exact IHvalues]. Qed.

Lemma respond_requests fields env upstream now log :
  upstream_requests (snd (respond fields env upstream now log))
  = upstream_requests log
    + (if match checked_message (message fields) with
          | Some _ => true
          | None => false
          end
          && opt_truthy (resolve_baseUrl (agent_config fields) env)
       then 1 else 0).
Proof.
  unfold Relay.respond.
  destruct (checked_message (message fields)); simpl.
  2:{ unfold bind, perform, modify. simpl.
      rewrite <- app_assoc, upstream_requests_app. reflexivity. }
  destruct (opt_truthy (resolve_baseUrl (agent_config fields) env)); simpl.
  2:{ unfold bind, perform, modify. simpl.
      rewrite <- app_assoc, upstream_requests_app. reflexivity. }
  unfold try_finally, try_catch, bind, perform, modify, throw, ret.
  destruct upstream as [e|r]; simpl.
  { rewrite <- ?app_assoc, upstream_requests_app. reflexivity. }
  destruct (ok r); simpl.
  2:{ rewrite <- ?app_assoc, upstream_requests_app. reflexivity. }
  destruct (body r) as [reader|]; simpl.
  2:{ rewrite <- ?app_assoc, upstream_requests_app. reflexivity. }
  rewrite forward_log.
  destruct (read_failure reader); simpl;
    rewrite !upstream_requests_app, upstream_requests_writes;
    unfold upstream_requests; simpl; lia.
Qed.

(** X19. A run of the handler makes at most one request to the upstream,
    and none unless the method is POST, the body can be read, the message
    passes its guard and a base address is found. *)
Theorem relay_requests_upstream_at_most_once
  (req : NextApiRequest) (env : process_env) (upstream : fetch_result)
  (now : spec_float) (log : server) :
  upstream_requests (snd (handler req env upstream now log))
  = upstream_requests log
    + (if is_POST (method req)
          && match req_body req with
             | BodyValue fields =>
                 match checked_message (message fields) with
                 | Some _ => true
                 | None => false
                 end
                 && opt_truthy (resolve_baseUrl (agent_config fields) env)
             | BodyNull | BodyUndefined => false
             end
       then 1 else 0).
Proof.
  unfold Relay.handler.
  destruct (is_POST (method req)); simpl.
  2:{ unfold bind, perform, modify. simpl.
      rewrite <- app_assoc, upstream_requests_app. reflexivity. }
  destruct (req_body req) as [| |fields]; simpl;
    [rewrite Nat.add_0_r; reflexivity..|].
  apply respond_requests.
Qed.

End Handler.

(** X20. Through the relay the consumer sees what the upstream sent: when
    the upstream answers with a body that is read to its end,
    [sendStreamingMessage] on the response of the relay completes as it
    would on the body of the upstream, with the same final state. *)
Theorem relay_is_transparent_to_the_consumer
  (JSON_stringify : json -> jsstring)
  (JSON_parse : jsstring -> parse_result)
  (onAction_throws : json -> nat -> option exn)
  (req : NextApiRequest) (env : process_env) (url : jsstring)
  (r : Response) (values : list jsstring) (now : spec_float)
  (message : jsstring) (c : client) :
  reaches_upstream req env url ->
  ok r = true ->
  body r = Some {| chunks := values; read_failure := None |} ->
  sendStreamingMessage JSON_parse onAction_throws message
    (streaming_response
       (writes (snd (handler JSON_stringify req env (FetchFulfilled r) now [])))
       None) c
  = sendStreamingMessage JSON_parse onAction_throws message
      (streaming_response values None) c.
Proof.
  intros Hreq Hok Hbody.
  rewrite handler_streaming
    with (url := url) (reader := {| chunks := values; read_failure := None |});
    [|assumption..].
  simpl. rewrite writes_app, writes_map. simpl. rewrite app_nil_r. reflexivity.
Qed.

End RelayExtras.

(** ** The other calls of the hook *)

Module AgentClientFacts.
Import AgentClient.

(** X21. [testConnection] never rejects: it resolves with a boolean, and
    leaves the connection status [connected] when that is [true] and [error]
    when it is [false]; it is [true] exactly when the fetch succeeds with an
    ok response whose body parses to a record with [status] equal to
    ['connected']. *)
Theorem testConnection_resolves
  (fetched : fetch_result) (parsed : completion json) (c : client) :
  exists b : bool,
    testConnection fetched parsed c
    = (Normal b, with_status (if b then connected else error) c)
    /\ (b = true <->
        exists r data,
          fetched = FetchFulfilled r /\ ok r = true /\ parsed = Normal data
          /\ is_string_lit (field data "status") "connected" = true).
Proof.
  unfold testConnection, try_catch, bind, setConnectionStatus, modify, ret,
    throw, response_json.
  destruct fetched as [e|r]; simpl.
  { exists false. split; [reflexivity|]. split; [discriminate|].
    intros (r & data & H & _). discriminate H. }
  destruct (ok r) eqn:Hok; simpl.
  2:{ exists false. split; [reflexivity|]. split; [discriminate|].
      intros (r' & data & H & Hok' & _). injection H as <-. congruence. }
  destruct parsed as [data|e]; simpl.
  2:{ exists false. split; [reflexivity|]. split; [discriminate|].
      intros (r' & data & _ & _ & H & _). discriminate H. }
  assert (Hnot : forall d, (forall ms, d <> JObj ms) ->
                           is_string_lit (field d "status") "connected" = false).
  { intros d Hd. destruct d; try reflexivity. now destruct (Hd members). }
  destruct data as [|b|n|s|items|ms]; simpl;
    try (exists false; split; [reflexivity|]; split; [discriminate|];
         intros (r' & d & _ & _ & H & Hs); injection H as <-;
         rewrite Hnot in Hs by discriminate; discriminate Hs).
  destruct (is_string_lit (lookup_member (js "status") ms) "connected") eqn:E;
    simpl.
  - exists true. split; [reflexivity|]. split; [|reflexivity].
    intros _. exists r, (JObj ms). repeat split; assumption.
  - exists false. split; [reflexivity|]. split; [discriminate|].
    intros (r' & d & _ & _ & H & Hs). injection H as <-.
    simpl in Hs. congruence.
Qed.

(** X26. [sendMessage] and [stopAgent] leave the connection state as it is.
    [sendMessage] resolves exactly when the message is not blank, the
    response is ok and its body parses, and then with the parsed body;
    [stopAgent] never rejects, and resolves with whether an ok response
    came. *)
Theorem sendMessage_and_stopAgent_outcomes
  (message : jsstring) (fetched : fetch_result) (parsed : completion json)
  (c : client) :
  snd (sendMessage message fetched parsed c) = c
  /\ (forall data,
        fst (sendMessage message fetched parsed c) = Normal data
        <-> (str_truthy (trim message) = true
             /\ (exists r, fetched = FetchFulfilled r /\ ok r = true)
             /\ parsed = Normal data))
  /\ exists b : bool,
       stopAgent fetched c = (Normal b, c)
       /\ (b = true <-> exists r, fetched = FetchFulfilled r /\ ok r = true).
Proof.
  unfold sendMessage, stopAgent, try_catch, bind, ret, throw, response_json.
  destruct (str_truthy (trim message)) eqn:Hm; simpl;
    destruct fetched as [e|r]; simpl.
  - split; [reflexivity|]. split.
    + intros data. split; [discriminate|].
      intros [_ [[r' [Hr _]] _]]. discriminate Hr.
    + exists false. split; [reflexivity|]. split; [discriminate|].
      intros [r' [Hr _]]. discriminate Hr.
  - destruct (ok r) eqn:Hok; simpl.
    + split; [destruct parsed; reflexivity|]. split.
      * intros data. destruct parsed as [d|e]; simpl; split.
        -- intros H. injection H as <-.
           split; [reflexivity|]. split; [|reflexivity].
           exists r. split; [reflexivity | exact Hok].
        -- intros [_ [_ H]]. injection H as <-. reflexivity.
        -- discriminate.
        -- intros [_ [_ H]]. discriminate H.
      * exists true. split; [reflexivity|]. split; [|reflexivity].
        intros _. exists r. split; [reflexivity | exact Hok].
    + split; [reflexivity|]. split.
      * intros data. split; [discriminate|].
        intros [_ [[r' [Hr Hok']] _]]. injection Hr as <-. congruence.
      * exists false. split; [reflexivity|]. split; [discriminate|].
        intros [r' [Hr Hok']]. injection Hr as <-. congruence.
  - split; [reflexivity|]. split.
    + intros data. split; [discriminate|]. intros [H _]. discriminate H.
    + exists false. split; [reflexivity|]. split; [discriminate|].
      intros [r' [Hr _]]. discriminate Hr.
  - split; [reflexivity|]. split.
    + intros data. split; [discriminate|]. intros [H _]. discriminate H.
    + exists (ok r). split; [reflexivity|]. split.
      * intros H. exists r. split; [reflexivity | exact H].
      * intros [r' [Hr Hok]]. injection Hr as <-. exact Hok.
Qed.

End AgentClientFacts.

(** ** The chat input *)

Module ChatInputFacts.
Import Store AgentStore ChatInput.

Lemma may_send_nonblank cap :
  may_send cap = true -> str_truthy (trim (c_input cap)) = true.
Proof.
  unfold may_send. cbv zeta.
  destruct (str_truthy (trim (c_input cap))); [reflexivity|].
  destruct (c_debugMode cap), (c_canSend cap); discriminate.
Qed.

(** X22. Whatever render the instance of [handleSend] comes from, it calls
    [onStreamingMessage] at most once, and only with the trimmed input it
    captured, which is then not empty, at most 2000 code units long and
    free of white space at both ends; when it does not call, it changes
    nothing. *)
Theorem handleSend_sends_checked_message
  (cap : captured) (onStreamingMessage : jsstring -> atoms -> atoms * bool)
  (st : component) :
  handleSend cap onStreamingMessage st = st
  \/ (let m := trim (c_input cap) in
      calls (handleSend cap onStreamingMessage st) = calls st ++ [m]
      /\ isSending (handleSend cap onStreamingMessage st) = false
      /\ m <> []
      /\ length m <= 2000
      /\ trim m = m).
Proof.
  unfold handleSend.
  destruct (may_send cap) eqn:E; simpl; [|now left].
  destruct (Nat.ltb_spec MAX_CHARS (length (trim (c_input cap))))
    as [H|H]; [now left|].
  right. cbv zeta.
  destruct (onStreamingMessage _ _) as [after_call resolved]. simpl.
  split; [reflexivity|]. split; [reflexivity|]. split.
  - apply may_send_nonblank in E.
    destruct (trim (c_input cap)); [discriminate | discriminate].
  - split; [exact H | apply trim_idempotent].
Qed.

Lemma may_send_restored props st :
  may_send (render props (set_chatInputAtom (trim (chatInputAtom st)) st))
  = may_send (render props st).
Proof.
  unfold may_send, render, canSendMessageAtom. simpl. rewrite trim_idempotent.
  reflexivity.
Qed.

(** X23. A send that fails can be repeated: when the callback rejects and
    leaves the atoms as they are, the input is restored to the trimmed
    message, and the [handleSend] of the render that follows calls the
    callback with the same message. *)
Theorem failed_send_can_be_repeated
  (props : Props) (failing again : jsstring -> atoms -> atoms * bool)
  (st : component) :
  may_send (render props (store st)) = true ->
  length (trim (chatInputAtom (store st))) <= 2000 ->
  (forall m s, failing m s = (s, false)) ->
  let m := trim (chatInputAtom (store st)) in
  let st1 := handleSend (render props (store st)) failing st in
  chatInputAtom (store st1) = m
  /\ isSending st1 = false
  /\ calls (handleSend (render props (store st1)) again st1)
     = calls st ++ [m; m].
Proof.
  intros Hs Hl Hf. cbv zeta.
  assert (H1 : handleSend (render props (store st)) failing st
               = {| store := set_chatInputAtom (trim (chatInputAtom (store st)))
                                (store st);
                    isSending := false;
                    calls := calls st ++ [trim (chatInputAtom (store st))] |}).
  { unfold handleSend. rewrite Hs. simpl.
    destruct (Nat.ltb_spec MAX_CHARS (length (trim (chatInputAtom (store st)))))
      as [H|H]; [unfold MAX_CHARS in H; lia|].
    rewrite Hf. reflexivity. }
  rewrite H1. simpl. split; [reflexivity|]. split; [reflexivity|].
  unfold handleSend. rewrite may_send_restored, Hs. simpl.
  rewrite trim_idempotent.
  destruct (Nat.ltb_spec MAX_CHARS (length (trim (chatInputAtom (store st)))))
    as [H|H]; [unfold MAX_CHARS in H; lia|].
  destruct (again _ _) as [after_call resolved]. simpl.
  now rewrite <- app_assoc.
Qed.

Lemma enabled_may_send props st :
  canSendMessage props st (length (chatInputAtom st)) = true ->
  may_send (render props st) = true
  /\ length (chatInputAtom st) <= MAX_CHARS.
Proof.
  intros H. unfold canSendMessage, isInputDisabled, isOverLimit in H.
  unfold may_send, render. cbv zeta. simpl.
  destruct (debugMode props); simpl in *.
  - apply andb_prop in H as [H Hlim]. apply andb_prop in H as [H Ht].
    apply andb_prop in H as [Hn Hd]. rewrite Hn, Ht, Hd. simpl.
    split; [reflexivity|].
    destruct (Nat.ltb_spec MAX_CHARS (length (chatInputAtom st)));
      [discriminate | assumption].
  - apply andb_prop in H as [H Hlim]. apply andb_prop in H as [H Hdis].
    apply andb_prop in H as [Hc Hn]. rewrite Hc, Hn. simpl.
    apply negb_true_iff, orb_false_iff in Hdis as [Hdis Hconn].
    apply orb_false_iff in Hdis as [Hd Ht]. rewrite Hd, Ht. simpl.
    apply negb_false_iff in Hconn. rewrite Hconn.
    split; [reflexivity|].
    destruct (Nat.ltb_spec MAX_CHARS (length (chatInputAtom st)));
      [discriminate | assumption].
Qed.

(** X24. When the send button is enabled, with the character count equal to
    the length of the input, and the [debugMode] its [handleSend] captured
    is the one of the render (the prop has not changed since the instance
    was created, [debugMode] not being a dependency of the callback), a
    click does send: it calls [onStreamingMessage] with the trimmed
    input. *)
Theorem enabled_button_sends
  (props : Props) (created_debugMode : bool)
  (onStreamingMessage : jsstring -> atoms -> atoms * bool)
  (st : component) :
  canSendMessage props (store st) (length (chatInputAtom (store st))) = true ->
  created_debugMode = debugMode props ->
  calls (handleSend (memoised created_debugMode props (store st))
           onStreamingMessage st)
  = calls st ++ [trim (chatInputAtom (store st))].
Proof.
  intros H ->. destruct (enabled_may_send _ _ H) as [Hmay Hlen].
  change (memoised (debugMode props) props (store st))
    with (render props (store st)).
  unfold handleSend. rewrite Hmay. simpl.
  pose proof (length_trim (chatInputAtom (store st))) as Ht.
  destruct (Nat.ltb_spec MAX_CHARS (length (trim (chatInputAtom (store st)))))
    as [Hgt|Hle]; [lia|].
  destruct (onStreamingMessage _ _) as [after_call resolved]. reflexivity.
Qed.

End ChatInputFacts.

(** Without the condition on [debugMode] the button can be enabled and do
    nothing: the prop turns [true] while the agent is disconnected, the
    instance of [handleSend] still holds [false] and asks for a
    connection. *)
Example stale_debugMode_button_sends_nothing :
  ChatInput.canSendMessage debugging_props (ChatInput.store offline_input)
    (length (Store.chatInputAtom (ChatInput.store offline_input))) = true
  /\ ChatInput.handleSend
       (ChatInput.memoised false debugging_props (ChatInput.store offline_input))
       resolving offline_input
     = offline_input.
Proof. split; reflexivity. Qed.

(** ** The SDL preview *)

Module SDLPreviewFacts.
Import SDLPreview.

Lemma join_lines_cons x y rest :
  join_lines (x :: y :: rest) = x ++ [newline] ++ join_lines (y :: rest).
Proof. reflexivity. Qed.

(** Joining what [split] gave restores the text. *)
Lemma join_split s : join_lines (split_newline s) = s.
Proof.
  induction s as [|c s IH]; [reflexivity|].
  pose proof (split_newline_nonempty s) as Hne.
  cbn [split_newline].
  destruct (split_newline s) as [|l ls]; [congruence|].
  destruct (c =? newline)%N eqn:E.
  - apply N.eqb_eq in E. subst c.
    rewrite join_lines_cons, IH. reflexivity.
  - unfold cons_head. destruct ls as [|l' ls].
    + unfold join_lines in *. simpl in *. now rewrite IH.
    + rewrite join_lines_cons in *. rewrite <- IH. reflexivity.
Qed.

Lemma join_lines_app a b :
  a <> [] -> b <> [] ->
  join_lines (a ++ b) = join_lines a ++ [newline] ++ join_lines b.
Proof.
  intros Ha Hb. induction a as [|x a IH]; [congruence|].
  destruct a as [|y a].
  - simpl. destruct b; [congruence | reflexivity].
  - change ((x :: y :: a) ++ b) with (x :: (y :: a) ++ b).
    change ((y :: a) ++ b) with (y :: a ++ b) at 1.
    rewrite join_lines_cons. change (y :: a ++ b) with ((y :: a) ++ b).
    rewrite IH by discriminate. rewrite join_lines_cons.
    rewrite <- !app_assoc. reflexivity.
Qed.

(** X25. The collapsed preview shows the beginning of the SDL, at most six
    lines of it, and all of the SDL when it has no more than six lines:
    splitting at the newlines and joining with newlines restores the
    text. *)
Theorem preview_is_the_beginning_of_the_sdl (sdl : jsstring) :
  join_lines (lines sdl) = sdl
  /\ length (previewLines sdl) <= 6
  /\ (hasMoreLines sdl = false -> shown false sdl = sdl)
  /\ exists rest, sdl = shown false sdl ++ rest.
Proof.
  unfold shown, previewLines, hasMoreLines, lines.
  split; [apply join_split|]. split; [rewrite length_firstn; lia|]. split.
  - intros H. apply Nat.ltb_ge in H. rewrite firstn_all2 by exact H.
    apply join_split.
  - pose proof (firstn_skipn 6 (split_newline sdl)) as Hs.
    pose proof (join_split sdl) as Hj.
    destruct (skipn 6 (split_newline sdl)) as [|l ls] eqn:E.
    + exists []. rewrite app_nil_r in *. rewrite Hs. now symmetry.
    + exists ([newline] ++ join_lines (l :: ls)).
      rewrite <- Hs in Hj. etransitivity; [symmetry; exact Hj|].
      apply join_lines_app; [|discriminate].
      intros H. pose proof (split_newline_nonempty sdl) as Hne.
      destruct (split_newline sdl); [congruence | discriminate H].
Qed.

End SDLPreviewFacts.

(** ** Concrete instances *)

(** X8 at two agent messages of sequence index 3. *)
Lemma same_sequence_index_same_id_witness :
  let '(m1, st1) :=
    ChatState.addAgentMessage JsonText.Number_toString (js "Creating deployment")
      (Some (indexed 3)) (js "V1StGXR8") 1000 Store.initial in
  let '(m2, st2) :=
    ChatState.addAgentMessage JsonText.Number_toString (js "Deployment created")
      (Some (indexed 3)) (js "Z5kq2LpA") 2000 st1 in
  Store.id m1 = js "action-" ++ JsonText.Number_toString (number_of_Z 3)
  /\ Store.id m2 = Store.id m1
  /\ Store.chatMessagesAtom
       (ChatState.updateExistingMessage (Store.id m1) AgentStore.no_updates st2)
     = Store.chatMessagesAtom
         (ChatState.updateExistingMessage (Store.id m1) AgentStore.no_updates
            Store.initial)
       ++ [AgentStore.spread m1 AgentStore.no_updates;
           AgentStore.spread m2 AgentStore.no_updates].
Proof.
  exact (ChatStateFacts.same_sequence_index_same_id JsonText.Number_toString
           (js "Creating deployment") (js "Deployment created")
           (indexed 3) (indexed 3) (n := number_of_Z 3)
           (js "V1StGXR8") (js "Z5kq2LpA") 1000 2000
           AgentStore.no_updates Store.initial
           eq_refl eq_refl eq_refl).
Defined.

(** X9 at a content of white space only. *)
Lemma stored_content_is_trimmed_witness :
  Forall (fun u => is_space u = true) (js "   ")
  /\ Store.content
       (fst (ChatState.addUserMessage (js "   ") (js "V1StGXR8") 1000
               Store.initial)) = [].
Proof.
  assert (H : Forall (fun u => is_space u = true) (js "   "))
    by (repeat constructor).
  split; [exact H|].
  exact (proj1 (proj2 (proj2 (proj2
           (ChatStateFacts.stored_content_is_trimmed JsonText.Number_toString
              (js "   ") None (js "V1StGXR8") 1000 Store.initial)))) H).
Defined.

(** X12 at a stream of two actions and a final response in one chunk. *)
Lemma actions_delivered_in_line_order_witness :
  str_truthy (trim (js "Deploy nginx")) = true
  /\ exists evs,
       trace (snd (run [two_actions_then_done])) = trace fresh_client ++ evs
       /\ delivered_actions evs
          = actions_of_lines JsonText.JSON_parse
              (complete_lines (concat [two_actions_then_done])).
Proof.
  split; [reflexivity|].
  apply (actions_delivered_in_line_order JsonText.JSON_parse quiet_callback
           (js "Deploy nginx") [two_actions_then_done] None fresh_client).
  reflexivity.
Defined.

(** X13 at a stream whose only final response is the empty string. *)
Lemma no_final_response_gives_empty_string_witness :
  run [action_then_empty_response]
  = (Normal (JStr []),
     payload_effect JsonText.JSON_parse quiet_callback
       (concat [action_then_empty_response])
       (reset (with_status connected fresh_client))).
Proof.
  apply (@no_final_response_gives_empty_string JsonText.JSON_parse
           quiet_callback (js "Deploy nginx") [action_then_empty_response]
           fresh_client).
  - reflexivity.
  - intros l r Hl [_ [data [Hp [Hd Hr]]]].
    vm_compute in Hl. destruct Hl as [<-|[<-|[]]].
    + vm_compute in Hp. injection Hp as <-. vm_compute in Hd. discriminate Hd.
    + vm_compute in Hp. injection Hp as <-. vm_compute in Hr.
      injection Hr as <-. reflexivity.
Defined.

(** X14 at a stream that fails after one action and the beginning of a
    second line. *)
Lemma read_failure_rejects_witness :
  sendStreamingMessage JsonText.JSON_parse quiet_callback (js "Deploy nginx")
    (streaming_response [chat_action_line ++ [newline]; js "{"]
       (Some connection_reset)) fresh_client
  = (Throw connection_reset,
     {| actionCount := 1; finalResponse := JStr [];
        connectionStatus := error; trace := [OnAction chat_action 1] |}).
Proof.
  rewrite (read_failure_rejects JsonText.JSON_parse quiet_callback
             (js "Deploy nginx") [chat_action_line ++ [newline]; js "{"]
             connection_reset fresh_client eq_refl).
  vm_compute. reflexivity.
Defined.

(** X15 at a call that resolves. *)
Lemma status_follows_outcome_witness :
  str_truthy (trim (js "Deploy nginx")) = true
  /\ fst (run [two_actions_then_done]) = Normal (JStr (js "Done"))
  /\ connectionStatus (snd (run [two_actions_then_done])) = connected.
Proof.
  split; [reflexivity|]. split; [vm_compute; reflexivity|].
  pose proof (proj1 (status_follows_outcome JsonText.JSON_parse quiet_callback
                       (js "Deploy nginx")
                       (streaming_response [two_actions_then_done] None)
                       fresh_client) eq_refl) as H.
  change (sendStreamingMessage JsonText.JSON_parse quiet_callback
            (js "Deploy nginx")
            (streaming_response [two_actions_then_done] None) fresh_client)
    with (run [two_actions_then_done]) in H.
  assert (E : fst (run [two_actions_then_done]) = Normal (JStr (js "Done")))
    by (vm_compute; reflexivity).
  rewrite E in H. exact H.
Defined.

(** X16 at a record that arrives in two pieces. *)
Lemma chunk_without_newline_is_buffered_witness :
  process_chunk JsonText.JSON_parse quiet_callback
    (wire "{'type':'act") (wire "ion','action':") fresh_client
  = (Normal (wire "{'type':'act" ++ wire "ion','action':"), fresh_client)
  /\ process_chunk JsonText.JSON_parse quiet_callback
       (wire "{'type':'act") [] fresh_client
     = (Normal (wire "{'type':'act"), fresh_client).
Proof.
  apply (chunk_without_newline_is_buffered JsonText.JSON_parse quiet_callback).
  apply no_newline_check. vm_compute. reflexivity.
Defined.

(** X17 at a line of two spaces between an action and the final response. *)
Lemma blank_lines_are_skipped_witness :
  run [chat_action_line ++ [newline] ++ js "  " ++ [newline]
       ++ final_line "Done"]
  = run [chat_action_line ++ [newline] ++ final_line "Done"].
Proof.
  apply (@blank_lines_are_skipped JsonText.JSON_parse quiet_callback
           (js "  ") (js "Deploy nginx") true 200 (js "OK")
           [chat_action_line ++ [newline] ++ js "  " ++ [newline]
            ++ final_line "Done"]
           [chat_action_line ++ [newline] ++ final_line "Done"]
           None (chat_action_line ++ [newline]) (final_line "Done")
           fresh_client).
  - repeat constructor; discriminate.
  - right. exists chat_action_line. reflexivity.
  - vm_compute. reflexivity.
  - vm_compute. reflexivity.
Defined.

Lemma nginx_request_reaches_upstream :
  Relay.reaches_upstream nginx_request Relay.empty_env (js "http://agent:8000").
Proof.
  split; [reflexivity|]. eexists. split; [reflexivity|].
  split; [|split; [reflexivity | discriminate]].
  exists (js "Deploy nginx"). split; [reflexivity | discriminate].
Defined.

(** X18 at an upstream that sends an action in two chunks and then fails. *)
Lemma relay_forwards_chunks_unchanged_witness :
  Relay.writes
    (snd (Relay.handler JsonText.JSON_stringify nginx_request Relay.empty_env
            (FetchFulfilled
               (upstream_answer [js "{"; js "}"] (Some connection_reset)))
            Relay.example_now []))
  = [js "{"; js "}";
     wire "{'type':'error','message':'network error','timestamp':1719676117000}|"].
Proof.
  rewrite (RelayExtras.relay_forwards_chunks_unchanged
             JsonText.JSON_stringify (url := js "http://agent:8000")
             (upstream_answer [js "{"; js "}"] (Some connection_reset))
             (reader := {| chunks := [js "{"; js "}"];
                           read_failure := Some connection_reset |})
             Relay.example_now
             nginx_request_reaches_upstream eq_refl eq_refl).
  vm_compute. reflexivity.
Defined.

(** X20 at an upstream that sends an action and the final response. *)
Lemma relay_is_transparent_to_the_consumer_witness :
  sendStreamingMessage JsonText.JSON_parse quiet_callback (js "Deploy nginx")
    (streaming_response
       (Relay.writes
          (snd (Relay.handler JsonText.JSON_stringify nginx_request
                  Relay.empty_env
                  (FetchFulfilled (upstream_answer [two_actions_then_done] None))
                  Relay.example_now [])))
       None) fresh_client
  = run [two_actions_then_done].
Proof.
  exact (RelayExtras.relay_is_transparent_to_the_consumer
           JsonText.JSON_stringify JsonText.JSON_parse quiet_callback
           (url := js "http://agent:8000")
           (upstream_answer [two_actions_then_done] None)
           Relay.example_now (js "Deploy nginx") fresh_client
           nginx_request_reaches_upstream eq_refl eq_refl).
Defined.

(** X21 at a health check that answers [connected]. *)
Lemma testConnection_resolves_witness :
  exists b : bool,
    AgentClient.testConnection
      (FetchFulfilled (upstream_answer [] None)) (Normal healthy) fresh_client
    = (Normal b, with_status (if b then connected else error) fresh_client)
    /\ (b = true <->
        exists r data,
          FetchFulfilled (upstream_answer [] None) = FetchFulfilled r
          /\ ok r = true /\ Normal healthy = Normal data
          /\ is_string_lit (field data "status") "connected" = true).
Proof.
  exact (AgentClientFacts.testConnection_resolves
           (FetchFulfilled (upstream_answer [] None)) (Normal healthy)
           fresh_client).
Defined.

(** X23 at an input with white space around the text. *)
Lemma failed_send_can_be_repeated_witness :
  Store.chatInputAtom
    (ChatInput.store
       (ChatInput.handleSend
          (ChatInput.render plain_props
             (ChatInput.store (typed (js " Deploy nginx "))))
          rejecting (typed (js " Deploy nginx "))))
  = js "Deploy nginx"
  /\ ChatInput.isSending
       (ChatInput.handleSend
          (ChatInput.render plain_props
             (ChatInput.store (typed (js " Deploy nginx "))))
          rejecting (typed (js " Deploy nginx ")))
     = false
  /\ ChatInput.calls
       (ChatInput.handleSend
          (ChatInput.render plain_props
             (ChatInput.store
                (ChatInput.handleSend
                   (ChatInput.render plain_props
                      (ChatInput.store (typed (js " Deploy nginx "))))
                   rejecting (typed (js " Deploy nginx ")))))
          resolving
          (ChatInput.handleSend
             (ChatInput.render plain_props
                (ChatInput.store (typed (js " Deploy nginx "))))
             rejecting (typed (js " Deploy nginx "))))
     = [js "Deploy nginx"; js "Deploy nginx"].
Proof.
  apply (ChatInputFacts.failed_send_can_be_repeated plain_props rejecting
           resolving (typed (js " Deploy nginx "))).
  - reflexivity.
  - vm_compute. lia.
  - reflexivity.
Defined.

(** X24 at the same input. *)
Lemma enabled_button_sends_witness :
  ChatInput.calls
    (ChatInput.handleSend
       (ChatInput.memoised false plain_props
          (ChatInput.store (typed (js " Deploy nginx "))))
       resolving (typed (js " Deploy nginx ")))
  = [js "Deploy nginx"].
Proof.
  apply (@ChatInputFacts.enabled_button_sends plain_props false resolving
           (typed (js " Deploy nginx "))).
  - reflexivity.
  - reflexivity.
Defined.

(** X25 at an SDL of two lines. *)
Lemma preview_is_the_beginning_of_the_sdl_witness :
  SDLPreview.hasMoreLines (wire "version: '2.0'|services:") = false
  /\ SDLPreview.shown false (wire "version: '2.0'|services:")
     = wire "version: '2.0'|services:".
Proof.
  split; [reflexivity|].
  exact (proj1 (proj2 (proj2
           (SDLPreviewFacts.preview_is_the_beginning_of_the_sdl
              (wire "version: '2.0'|services:")))) eq_refl).
Defined.

(** X27 at a stream of a line that is not JSON. *)
Lemma stream_content_never_rejects_witness :
  exists v, fst (run [js "not json at all" ++ [newline]]) = Normal v.
Proof.
  apply (@stream_content_never_rejects JsonText.JSON_parse quiet_callback
           (js "Deploy nginx") [js "not json at all" ++ [newline]]
           fresh_client).
  reflexivity.
Defined.

(** X28 at a two-byte character cut between two reads. *)
Lemma byte_boundary_independence_witness :
  decode_reads two_byte_decoder None [[34; 195; 169; 34; 10]%N]
  = [[34; 233; 34; 10]%N]
  /\ decode_reads two_byte_decoder None [[34; 195]%N; [169; 34; 10]%N]
     = [[34]%N; [233; 34; 10]%N]
  /\ sendStreamingMessage JsonText.JSON_parse quiet_callback (js "Deploy nginx")
       (streaming_response
          (decode_reads two_byte_decoder None [[34; 195; 169; 34; 10]%N]) None)
       fresh_client
     = sendStreamingMessage JsonText.JSON_parse quiet_callback
         (js "Deploy nginx")
         (streaming_response
            (decode_reads two_byte_decoder None
               [[34; 195]%N; [169; 34; 10]%N]) None)
         fresh_client.
Proof.
  split; [reflexivity|]. split; [reflexivity|].
  apply (@byte_boundary_independence JsonText.JSON_parse quiet_callback
           (option N) two_byte_decoder None (js "Deploy nginx")
           [[34; 195; 169; 34; 10]%N] [[34; 195]%N; [169; 34; 10]%N]
           None fresh_client).
  reflexivity.
Defined.
